(** * WhiteDB JSON input and output (Db/dbjson.c)

    A shallow embedding of the JSON-to-record compiler and of the
    pretty printer of WhiteDB, and the properties of its specification.

    The record store (dbdata.c, dbschema.c) and the tokenizer
    (json/JSON_parser.c) are collaborators of dbjson.c: they appear here
    as the interfaces [Store] and [Tokenizer], with the operations
    dbjson.c calls.  Everything dbjson.c itself does is defined over
    these interfaces, function by function. *)

From Stdlib Require Import ZArith Lia Ascii String List Bool.
From stdpp Require Import base tactics option list strings pretty.

Local Open Scope Z_scope.

(** ** Build configuration (config.h) *)

(** [MAX_DEPTH] is [WG_COMPARE_REC_DEPTH] with USE_BACKLINKING (the
    build refuses values below 2) and 99 otherwise.  [WG_NO_ERRPRINT]
    silences the diagnostics. *)
Class Build := {
  MAX_DEPTH : Z;
  MAX_DEPTH_min : 2 <= MAX_DEPTH;
  WG_NO_ERRPRINT : bool
}.

(** The build without backlinking: [#define MAX_DEPTH 99]. *)
Definition build_plain : Build :=
  {| MAX_DEPTH := 99; MAX_DEPTH_min := ltac:(lia); WG_NO_ERRPRINT := false |}.

(** The default backlinking build: [WG_COMPARE_REC_DEPTH] is 7. *)
Definition build_backlinking : Build :=
  {| MAX_DEPTH := 7; MAX_DEPTH_min := ltac:(lia); WG_NO_ERRPRINT := false |}.

(** ** C strings *)

Definition NUL : ascii := Ascii.zero.

(** What a [char *] denotes: the bytes before the first terminator. *)
Fixpoint c_str (l : list ascii) : string :=
  match l with
  | [] => EmptyString
  | c :: l' => if Ascii.eqb c NUL then EmptyString else String c (c_str l')
  end.

(** A text handed over as [char *] is read up to its first NUL. *)
Definition as_c_string (s : string) : string := c_str (list_ascii_of_string s).

(** [strncpy(dst, src, n)]: the [n] bytes written to [dst].  The copy
    stops after the terminator of [src]; the rest is filled with NUL;
    no terminator is written when [src] has [n] or more characters. *)
Fixpoint strncpy (src : string) (n : nat) {struct n} : list ascii :=
  match n with
  | O => []
  | S n' =>
      match src with
      | EmptyString => replicate (S n') NUL
      | String c s =>
          if Ascii.eqb c NUL then replicate (S n') NUL else c :: strncpy s n'
      end
  end.

(** The first [n] characters of a string. *)
Fixpoint str_take (n : nat) (s : string) : string :=
  match n, s with
  | S n', String c s' => String c (str_take n' s')
  | _, _ => EmptyString
  end.

(** A string without embedded terminator, as every C string is. *)
Fixpoint no_NUL (s : string) : Prop :=
  match s with
  | EmptyString => True
  | String c s' => c <> NUL /\ no_NUL s'
  end.

(** ** Decimal text *)

Definition digit_char (n : Z) : ascii := ascii_of_nat (48 + Z.to_nat n).

(** The digits of a natural number, most significant first; [fuel]
    bounds their number. *)
Fixpoint digits_fuel (fuel : nat) (n : Z) : string :=
  match fuel with
  | O => EmptyString
  | S f =>
      if n <? 10 then String (digit_char n) EmptyString
      else digits_fuel f (n / 10) +:+ String (digit_char (n mod 10)) EmptyString
  end.

Definition digits (n : Z) : string :=
  digits_fuel (S (Z.to_nat (Z.log2 n))) n.

(** What [printf] writes for [%d]. *)
Definition decimal (z : Z) : string :=
  if z <? 0 then String "-"%char (digits (- z)) else digits z.

(** ** The record store, as dbjson.c uses it *)

(** [gint] is the store's encoded value: dbjson.c passes it on and
    compares it with [WG_ILLEGAL], nothing else.  [rec_ptr] is a
    non-null record pointer; a creation that returns NULL is [None].
    Operations that write take the database and return the new one;
    [wg_set_field] returns 0 when it succeeds. *)
Class Store := {
  db : Type;
  rec_ptr : Type;
  gint : Type;
  double : Type;
  gint_eq_dec :: EqDecision gint;
  WG_ILLEGAL : gint;
  WG_RECORDTYPE : Z;
  WG_STRTYPE : Z;
  WG_SCHEMA_KEY_OFFSET : Z;
  WG_SCHEMA_VALUE_OFFSET : Z;
  wg_create_array : db -> Z -> bool -> bool -> db * option rec_ptr;
  wg_create_object : db -> Z -> bool -> bool -> db * option rec_ptr;
  wg_create_kvpair : db -> gint -> gint -> bool -> db * option rec_ptr;
  wg_set_field : db -> rec_ptr -> Z -> gint -> db * Z;
  wg_encode_int : db -> Z -> db * gint;
  wg_encode_double : db -> double -> db * gint;
  wg_encode_str : db -> string -> db * gint;
  wg_encode_record : db -> rec_ptr -> gint;
  is_schema_document : db -> rec_ptr -> bool;
  is_schema_object : db -> rec_ptr -> bool;
  is_schema_array : db -> rec_ptr -> bool;
  wg_get_record_len : db -> rec_ptr -> Z;
  wg_get_field : db -> rec_ptr -> Z -> gint;
  wg_get_encoded_type : db -> gint -> Z;
  wg_decode_record : db -> gint -> rec_ptr;
  wg_decode_str : db -> gint -> string;
  wg_snprint_value : db -> gint -> Z -> string
}.

(** ** Tokenizer events (JSON_parser.h) *)

Inductive JSON_type :=
  | JSON_T_NONE
  | JSON_T_ARRAY_BEGIN
  | JSON_T_ARRAY_END
  | JSON_T_OBJECT_BEGIN
  | JSON_T_OBJECT_END
  | JSON_T_INTEGER
  | JSON_T_FLOAT
  | JSON_T_NULL
  | JSON_T_TRUE
  | JSON_T_FALSE
  | JSON_T_STRING
  | JSON_T_KEY
  | JSON_T_MAX.

#[global] Instance JSON_type_eq_dec : EqDecision JSON_type.
Proof. solve_decision. Defined.

(** [JSON_value]: the callback reads the member that goes with the
    event type. *)
Record JSON_value `{Store} := {
  integer_value : Z;
  float_value : double;
  str_value : string
}.

(** ** Parser state *)

Inductive stack_entry_t := ARRAY | OBJECT.

#[global] Instance stack_entry_t_eq_dec : EqDecision stack_entry_t.
Proof. solve_decision. Defined.

(** One container under construction.  The singly linked list
    [head .. tail] of [stack_entry_elem] is the list [elems], in list
    order; [tail] is its last cell, so an append goes to the end.
    [last_key] is the array [char last_key[80]]. *)
Record stack_entry `{Store} := {
  type : stack_entry_t;
  elems : list gint;
  last_key : list ascii;
  size : Z
}.

(** [parser_context].  [stack] is the array [stack[MAX_DEPTH]];
    [document] is the content of the caller's slot [*document];
    [heap_nodes] is not a member of the C struct: it is the number of
    [stack_entry_elem] cells [malloc] can still hand out, so that the
    branch [if(!tmp)] of [add_elem] can be taken. *)
Record parser_context `{Store} := {
  state : Z;
  stack : list stack_entry;
  stack_ptr : Z;
  ctx_db : db;
  isparam : bool;
  document : option rec_ptr;
  heap_nodes : nat
}.

Section StackManager.
Context `{B : Build} `{St : Store}.

Definition set_stack_ptr (ctx : parser_context) (p : Z) : parser_context :=
  {| state := state ctx; stack := stack ctx; stack_ptr := p;
     ctx_db := ctx_db ctx; isparam := isparam ctx;
     document := document ctx; heap_nodes := heap_nodes ctx |}.

Definition set_stack (ctx : parser_context) (st : list stack_entry)
  : parser_context :=
  {| state := state ctx; stack := st; stack_ptr := stack_ptr ctx;
     ctx_db := ctx_db ctx; isparam := isparam ctx;
     document := document ctx; heap_nodes := heap_nodes ctx |}.

Definition set_db (ctx : parser_context) (d : db) : parser_context :=
  {| state := state ctx; stack := stack ctx; stack_ptr := stack_ptr ctx;
     ctx_db := d; isparam := isparam ctx;
     document := document ctx; heap_nodes := heap_nodes ctx |}.

Definition set_document (ctx : parser_context) (r : option rec_ptr)
  : parser_context :=
  {| state := state ctx; stack := stack ctx; stack_ptr := stack_ptr ctx;
     ctx_db := ctx_db ctx; isparam := isparam ctx;
     document := r; heap_nodes := heap_nodes ctx |}.

Definition set_heap_nodes (ctx : parser_context) (n : nat) : parser_context :=
  {| state := state ctx; stack := stack ctx; stack_ptr := stack_ptr ctx;
     ctx_db := ctx_db ctx; isparam := isparam ctx;
     document := document ctx; heap_nodes := n |}.

(** An entry of indeterminate content, for a read outside the array. *)
Definition no_entry : stack_entry :=
  {| type := ARRAY; elems := []; last_key := []; size := 0 |}.

(** [&ctx->stack[i]], read. *)
Definition entry_at (ctx : parser_context) (i : Z) : stack_entry :=
  default no_entry (stack ctx !! Z.to_nat i).

(** [ctx->stack[i] = e]. *)
Definition set_entry (ctx : parser_context) (i : Z) (e : stack_entry)
  : parser_context :=
  set_stack ctx (<[Z.to_nat i := e]> (stack ctx)).

(** The array [stack[MAX_DEPTH]] has [MAX_DEPTH] entries. *)
Definition stack_allocated (ctx : parser_context) : Prop :=
  length (stack ctx) = Z.to_nat MAX_DEPTH.

(** [push]: the pointer is incremented before the test, and stays
    incremented when the test fails.  [last_key] of the slot is not
    touched. *)
Definition push (ctx : parser_context) (ty : stack_entry_t)
  : parser_context * Z :=
  let ctx := set_stack_ptr ctx (stack_ptr ctx + 1) in
  if MAX_DEPTH <=? stack_ptr ctx then (ctx, 0)
  else
    let e := entry_at ctx (stack_ptr ctx) in
    (set_entry ctx (stack_ptr ctx)
       {| type := ty; elems := []; last_key := last_key e; size := 0 |}, 1).

(** [add_elem]: append to the current entry. *)
Definition add_elem (ctx : parser_context) (enc : gint)
  : parser_context * Z :=
  if (stack_ptr ctx <? 0) || (MAX_DEPTH <=? stack_ptr ctx) then (ctx, 0)
  else
    let e := entry_at ctx (stack_ptr ctx) in
    match heap_nodes ctx with
    | O => (ctx, 0)
    | S n =>
        (set_entry (set_heap_nodes ctx n) (stack_ptr ctx)
           {| type := type e; elems := elems e ++ [enc];
              last_key := last_key e; size := size e + 1 |}, 1)
    end.

(** [add_key]: [strncpy(e->last_key, key, 80); e->last_key[79] = 0]. *)
Definition add_key (ctx : parser_context) (key : string)
  : parser_context * Z :=
  if (stack_ptr ctx <? 0) || (MAX_DEPTH <=? stack_ptr ctx) then (ctx, 0)
  else
    let e := entry_at ctx (stack_ptr ctx) in
    (set_entry ctx (stack_ptr ctx)
       {| type := type e; elems := elems e;
          last_key := <[79%nat := NUL]> (strncpy key 80); size := size e |}, 1).

(** [add_literal]: directly into an array, as the value of a key-value
    pair into an object. *)
Definition add_literal (ctx : parser_context) (val : gint)
  : parser_context * Z :=
  if (stack_ptr ctx <? 0) || (MAX_DEPTH <=? stack_ptr ctx) then (ctx, 0)
  else
    let e := entry_at ctx (stack_ptr ctx) in
    match type e with
    | ARRAY => add_elem ctx val
    | OBJECT =>
        let '(d, key) := wg_encode_str (ctx_db ctx) (c_str (last_key e)) in
        let ctx := set_db ctx d in
        if decide (key = WG_ILLEGAL) then (ctx, 0)
        else
          let '(d, rec) := wg_create_kvpair (ctx_db ctx) key val (isparam ctx) in
          let ctx := set_db ctx d in
          match rec with
          | None => (ctx, 0)
          | Some r => add_elem ctx (wg_encode_record (ctx_db ctx) r)
          end
    end.

(** The loop of [pop] that stores the elements: field [i] gets the
    element, [i] counts up; the first failing [wg_set_field] ends it
    with [ret = 0]. *)
Fixpoint set_fields (d : db) (r : rec_ptr) (i : Z) (curr : list gint)
  : db * Z :=
  match curr with
  | [] => (d, 1)
  | enc :: next =>
      let '(d', rc) := wg_set_field d r i enc in
      if rc =? 0 then set_fields d' r (i + 1) next else (d', 0)
  end.

(** [pop]. *)
Definition pop (ctx : parser_context) : parser_context * Z :=
  if stack_ptr ctx <? 0 then (ctx, 0)
  else
    let sp := stack_ptr ctx in
    let e := entry_at ctx sp in
    let ctx := set_stack_ptr ctx (sp - 1) in
    let istoplevel := stack_ptr ctx <? 0 in
    let '(d, rec) :=
      match type e with
      | ARRAY => wg_create_array (ctx_db ctx) (size e) istoplevel (isparam ctx)
      | OBJECT => wg_create_object (ctx_db ctx) (size e) istoplevel (isparam ctx)
      end in
    let ctx := set_db ctx d in
    let '(ctx, ret) :=
      match rec with
      | Some r =>
          let '(d, ret) := set_fields (ctx_db ctx) r 0 (elems e) in
          let ctx := set_db ctx d in
          (if istoplevel then set_document ctx (Some r) else ctx, ret)
      | None => (ctx, 0)
      end in
    (* free the elements *)
    let ctx := set_heap_nodes ctx (heap_nodes ctx + length (elems e))%nat in
    let ctx := set_entry ctx sp
                 {| type := type e; elems := []; last_key := last_key e;
                    size := 0 |} in
    match rec with
    | Some r =>
        if negb istoplevel && negb (ret =? 0)
        then add_literal ctx (wg_encode_record (ctx_db ctx) r)
        else (ctx, ret)
    | None => (ctx, ret)
    end.

(** [parse_json_cb], the callback the tokenizer calls for each event. *)
Definition parse_json_cb (ctx : parser_context) (ty : JSON_type)
  (value : JSON_value) : parser_context * Z :=
  match ty with
  | JSON_T_ARRAY_BEGIN =>
      let '(ctx, r) := push ctx ARRAY in
      if r =? 0 then (ctx, 0) else (ctx, 1)
  | JSON_T_ARRAY_END =>
      let '(ctx, r) := pop ctx in
      if r =? 0 then (ctx, 0) else (ctx, 1)
  | JSON_T_OBJECT_BEGIN =>
      let '(ctx, r) := push ctx OBJECT in
      if r =? 0 then (ctx, 0) else (ctx, 1)
  | JSON_T_OBJECT_END =>
      let '(ctx, r) := pop ctx in
      if r =? 0 then (ctx, 0) else (ctx, 1)
  | JSON_T_INTEGER =>
      let '(d, val) := wg_encode_int (ctx_db ctx) (integer_value value) in
      let ctx := set_db ctx d in
      if decide (val = WG_ILLEGAL) then (ctx, 0)
      else
        let '(ctx, r) := add_literal ctx val in
        if r =? 0 then (ctx, 0) else (ctx, 1)
  | JSON_T_FLOAT =>
      let '(d, val) := wg_encode_double (ctx_db ctx) (float_value value) in
      let ctx := set_db ctx d in
      if decide (val = WG_ILLEGAL) then (ctx, 0)
      else
        let '(ctx, r) := add_literal ctx val in
        if r =? 0 then (ctx, 0) else (ctx, 1)
  | JSON_T_KEY =>
      let '(ctx, r) := add_key ctx (str_value value) in
      if r =? 0 then (ctx, 0) else (ctx, 1)
  | JSON_T_STRING =>
      let '(d, val) :=
        wg_encode_str (ctx_db ctx) (as_c_string (str_value value)) in
      let ctx := set_db ctx d in
      if decide (val = WG_ILLEGAL) then (ctx, 0)
      else
        let '(ctx, r) := add_literal ctx val in
        if r =? 0 then (ctx, 0) else (ctx, 1)
  | _ => (ctx, 1)
  end.

End StackManager.

(** ** Observing a context *)

Section Observations.
Context `{B : Build} `{St : Store}.

(** The array is allocated and the stack pointer is -1 or an index. *)
Definition well_formed (ctx : parser_context) : Prop :=
  stack_allocated ctx /\ -1 <= stack_ptr ctx < MAX_DEPTH.

(** The open frames, outermost first: the entries 0 to [stack_ptr]. *)
Definition open_frames (ctx : parser_context) : list stack_entry :=
  take (Z.to_nat (stack_ptr ctx + 1)) (stack ctx).

(** What the rest of a parse depends on: the open frames, the
    database, the free list cells, the document slot and the parameter
    flag.  The entries above the stack pointer are not part of it:
    [push] overwrites all of an entry but [last_key], which [add_key]
    writes before [add_literal] reads it. *)
Definition obs (ctx : parser_context)
  : list stack_entry * db * nat * option rec_ptr * bool :=
  (open_frames ctx, ctx_db ctx, heap_nodes ctx, document ctx, isparam ctx).

(** An entry with one more element. *)
Definition with_elem (e : stack_entry) (enc : gint) : stack_entry :=
  {| type := type e; elems := elems e ++ [enc]; last_key := last_key e;
     size := size e + 1 |}.

(** An entry with a new pending key. *)
Definition with_key (e : stack_entry) (key : string) : stack_entry :=
  {| type := type e; elems := elems e;
     last_key := <[79%nat := NUL]> (strncpy key 80); size := size e |}.

(** A fresh entry, as [push] leaves it; [k] is what the key buffer of
    the slot happens to hold. *)
Definition fresh_entry (ty : stack_entry_t) (k : list ascii) : stack_entry :=
  {| type := ty; elems := []; last_key := k; size := 0 |}.

End Observations.

(** ** The tokenizer, as dbjson.c uses it (JSON_parser.h) *)

(** [JSON_config]; the members [callback] and [callback_ctx] are the
    arguments [cb] and [ctx] of [JSON_parser_char] below. *)
Record JSON_config := {
  depth : Z;
  allow_comments : Z;
  handle_floats_manually : Z
}.

(** A tokenizer reads one character at a time.  For a character it
    completes zero or more tokens, in order, and then either goes on
    ([Some] next state) or rejects the character ([None]). *)
Class Tokenizer `{Store} := {
  JSON_parser_struct : Type;
  init_JSON_config : JSON_config;
  new_JSON_parser : JSON_config -> JSON_parser_struct;
  JSON_parser_lex :
    JSON_parser_struct -> ascii ->
    list (JSON_type * JSON_value) * option JSON_parser_struct;
  JSON_parser_done : JSON_parser_struct -> bool
}.

Section Drivers.
Context `{B : Build} `{St : Store} `{Tk : !Tokenizer}.

Definition JSON_parser_callback : Type :=
  parser_context -> JSON_type -> JSON_value -> parser_context * Z.

Definition set_depth (c : JSON_config) (d : Z) : JSON_config :=
  {| depth := d; allow_comments := allow_comments c;
     handle_floats_manually := handle_floats_manually c |}.

Definition set_allow_comments (c : JSON_config) (a : Z) : JSON_config :=
  {| depth := depth c; allow_comments := a;
     handle_floats_manually := handle_floats_manually c |}.

Definition set_handle_floats_manually (c : JSON_config) (h : Z) : JSON_config :=
  {| depth := depth c; allow_comments := allow_comments c;
     handle_floats_manually := h |}.

(** The tokens of one character are handed to the callback one by one;
    a callback that returns 0 ends the delivery. *)
Fixpoint deliver (cb : JSON_parser_callback) (ctx : parser_context)
  (evs : list (JSON_type * JSON_value)) : parser_context * bool :=
  match evs with
  | [] => (ctx, true)
  | (ty, v) :: evs' =>
      let '(ctx', r) := cb ctx ty v in
      if r =? 0 then (ctx', false) else deliver cb ctx' evs'
  end.

(** Modelled from the spec: [JSON_parser_char] of json/JSON_parser.c,
    which is not among the sources.  The spec has the callback "invoked
    by the external tokenizer for each lexical event", and "any action
    failure causes the callback to signal failure to the tokenizer,
    which aborts the whole parse immediately".  The result is 0 when the
    callback failed or the character is rejected, 1 otherwise. *)
Definition JSON_parser_char (cb : option JSON_parser_callback)
  (jc : JSON_parser_struct) (next_char : ascii) (ctx : parser_context)
  : JSON_parser_struct * parser_context * Z :=
  let '(evs, next) := JSON_parser_lex jc next_char in
  let '(ctx', ok) :=
    match cb with
    | Some f => deliver f ctx evs
    | None => (ctx, true)
    end in
  if ok then
    match next with
    | Some jc' => (jc', ctx', 1)
    | None => (jc, ctx', 0)
    end
  else (jc, ctx', 0).

(** *** Diagnostics *)

Definition newline : string := String (ascii_of_nat 10) EmptyString.

Definition dquote : string := String (ascii_of_nat 34) EmptyString.

Definition show_json_error (errmsg : string) : string * Z :=
  (if WG_NO_ERRPRINT then EmptyString
   else "wg json I/O error: " +:+ errmsg +:+ "." +:+ newline, -1).

Definition show_json_error_fn (errmsg filename : string) : string * Z :=
  (if WG_NO_ERRPRINT then EmptyString
   else "wg json I/O error: " +:+ errmsg +:+ " (file=`" +:+ filename
        +:+ "`)" +:+ newline, -1).

Definition show_json_error_byte (errmsg : string) (byte : Z) : string * Z :=
  (if WG_NO_ERRPRINT then EmptyString
   else "wg json I/O error: " +:+ errmsg +:+ " (byte=" +:+ pretty byte
        +:+ ")" +:+ newline, -1).

(** *** The in-memory drivers *)

(** What a call finds in C memory: the content of the automatic
    variable [ctx.stack], which [run_json_parser] does not initialise,
    and the number of list cells [malloc] can provide. *)
Record c_env := {
  indeterminate : nat -> stack_entry;
  free_cells : nat
}.

(** What a driver leaves behind: the database, the caller's document
    slot, the text written to stderr and the returned code. *)
Record outcome := {
  out_db : db;
  out_document : option rec_ptr;
  out_stderr : string;
  out_result : Z
}.

(** The loop [while((next_char = *iptr++))] and the final
    [JSON_parser_done] test of [run_json_parser]. *)
Fixpoint parser_loop (cb : JSON_parser_callback) (jc : JSON_parser_struct)
  (ctx : parser_context) (iptr : list ascii) (count : Z)
  : parser_context * string * Z :=
  let at_end :=
    if JSON_parser_done jc then (ctx, EmptyString, 0)
    else (ctx, fst (show_json_error "JSON parsing failed"), -2) in
  match iptr with
  | [] => at_end
  | next_char :: iptr' =>
      if Ascii.eqb next_char NUL then at_end
      else
        let '(jc', ctx', ok) := JSON_parser_char (Some cb) jc next_char ctx in
        if ok =? 0
        then (ctx', fst (show_json_error_byte "JSON parsing failed" count), -2)
        else parser_loop cb jc' ctx' iptr' (count + 1)
  end.

(** The context [run_json_parser] sets up. *)
Definition initial_context (env : c_env) (d : db) (param : bool)
  (doc : option rec_ptr) : parser_context :=
  {| state := 0;
     stack := map (indeterminate env) (seq 0 (Z.to_nat MAX_DEPTH));
     stack_ptr := -1;
     ctx_db := d;
     isparam := param;
     document := doc;
     heap_nodes := free_cells env |}.

Definition parser_config : JSON_config :=
  set_handle_floats_manually
    (set_allow_comments (set_depth init_JSON_config (MAX_DEPTH - 1)) 1) 0.

Definition run_json_parser (env : c_env) (d : db) (buf : string)
  (cb : JSON_parser_callback) (param : bool) (doc : option rec_ptr)
  : outcome :=
  let ctx := initial_context env d param doc in
  let jc := new_JSON_parser parser_config in
  let '(ctx', err, result) :=
    parser_loop cb jc ctx (list_ascii_of_string buf) 0 in
  {| out_db := ctx_db ctx'; out_document := document ctx';
     out_stderr := err; out_result := result |}.

(** [wg_parse_json_document]: the document slot is a local variable,
    NULL at first, that the caller never sees. *)
Definition wg_parse_json_document (env : c_env) (d : db) (buf : string)
  : outcome :=
  run_json_parser env d buf parse_json_cb false None.

(** [wg_parse_json_param]: [doc] is what the caller's slot [*document]
    holds before the call. *)
Definition wg_parse_json_param (env : c_env) (d : db) (buf : string)
  (doc : option rec_ptr) : outcome :=
  run_json_parser env d buf parse_json_cb true doc.

End Drivers.

(** ** The pretty printer *)

Section Printer.
Context `{B : Build} `{St : Store}.

(** A stream the printer writes to, [f] or stderr, is the text written
    so far.  [printer_state] has both. *)
Definition printer_state : Type := string * string.

Definition fprintf (out : printer_state) (text : string) : printer_state :=
  (fst out +:+ text, snd out).

(** [return show_json_error(db, errmsg)] inside the printer. *)
Definition report (out : printer_state) (errmsg : string)
  : printer_state * Z :=
  ((fst out, snd out +:+ fst (show_json_error errmsg)),
   snd (show_json_error errmsg)).

(** [OUT_INDENT(x, i, f)]. *)
Fixpoint OUT_INDENT (x : nat) (out : printer_state) : printer_state :=
  match x with
  | O => out
  | S x' => OUT_INDENT x' (fprintf out "  ")
  end.

Definition comma_text (comma : Z) : string :=
  if comma =? 0 then EmptyString else ",".

Definition newline_text (nl : Z) : string :=
  if nl =? 0 then EmptyString else newline.

(** The recursive call of [pretty_print_json], as the loops see it:
    stream state, record, indent, comma, newline. *)
Definition pp_call : Type :=
  printer_state -> rec_ptr -> Z -> Z -> Z -> option (printer_state * Z).

(** [for(i=0; i<reclen; i++)] over the fields of an object; [n] is the
    number of rounds left.  The result code is that of the [return]
    taken inside the loop, or 0 when the loop runs to its end. *)
Fixpoint object_loop (pp : pp_call) (d : db) (rec : rec_ptr) (indent : Z)
  (n : nat) (i : Z) (out : printer_state) : option (printer_state * Z) :=
  match n with
  | O => Some (out, 0)
  | S n' =>
      let enc := wg_get_field d rec i in
      if negb (wg_get_encoded_type d enc =? WG_RECORDTYPE)
      then Some (report out "Object had an element of invalid type")
      else
        match pp out (wg_decode_record d enc) (indent + 1) i 1 with
        | None => None
        | Some (out', r) =>
            if r =? 0 then object_loop pp d rec indent n' (i + 1) out'
            else Some (out', -1)
        end
  end.

(** The same loop over the fields of an array. *)
Fixpoint array_loop (pp : pp_call) (d : db) (rec : rec_ptr) (indent : Z)
  (n : nat) (i : Z) (out : printer_state) : option (printer_state * Z) :=
  match n with
  | O => Some (out, 0)
  | S n' =>
      let enc := wg_get_field d rec i in
      let ty := wg_get_encoded_type d enc in
      if ty =? WG_RECORDTYPE then
        match pp out (wg_decode_record d enc) indent i 0 with
        | None => None
        | Some (out', r) =>
            if r =? 0 then array_loop pp d rec indent n' (i + 1) out'
            else Some (out', -1)
        end
      else if ty =? WG_STRTYPE then
        array_loop pp d rec indent n' (i + 1)
          (fprintf out (comma_text i +:+ dquote +:+ wg_decode_str d enc +:+ dquote))
      else
        array_loop pp d rec indent n' (i + 1)
          (fprintf out (comma_text i +:+ wg_snprint_value d enc 79))
  end.

(** [pretty_print_json].  The recursion follows the record graph, which
    the store does not promise to be a tree: [fuel] bounds the nesting
    of calls, and [None] is a walk that needs more. *)
Fixpoint pretty_print_json (fuel : nat) (d : db) (out : printer_state)
  (rec : rec_ptr) (indent comma nl : Z) : option (printer_state * Z) :=
  match fuel with
  | O => None
  | S fuel' =>
      if is_schema_object d rec then
        let out := fprintf out (comma_text comma +:+ "{" +:+ newline) in
        let reclen := wg_get_record_len d rec in
        match object_loop (pretty_print_json fuel' d) d rec indent
                (Z.to_nat reclen) 0 out with
        | None => None
        | Some (out, r) =>
            if r =? 0 then
              let out := OUT_INDENT (Z.to_nat indent) out in
              Some (fprintf out ("}" +:+ newline_text nl), 0)
            else Some (out, r)
        end
      else if is_schema_array d rec then
        let out := fprintf out (comma_text comma +:+ "[") in
        let reclen := wg_get_record_len d rec in
        match array_loop (pretty_print_json fuel' d) d rec indent
                (Z.to_nat reclen) 0 out with
        | None => None
        | Some (out, r) =>
            if r =? 0 then Some (fprintf out ("]" +:+ newline_text nl), 0)
            else Some (out, r)
        end
      else
        (* assume key-value pair *)
        let key := wg_get_field d rec WG_SCHEMA_KEY_OFFSET in
        let value := wg_get_field d rec WG_SCHEMA_VALUE_OFFSET in
        if negb (wg_get_encoded_type d key =? WG_STRTYPE)
        then Some (report out "Key is of invalid type")
        else
          let out := OUT_INDENT (Z.to_nat indent) out in
          let out :=
            fprintf out (comma_text comma +:+ dquote +:+ wg_decode_str d key
                         +:+ dquote +:+ ": ") in
          let valtype := wg_get_encoded_type d value in
          if valtype =? WG_RECORDTYPE then
            match pretty_print_json fuel' d out (wg_decode_record d value)
                    indent 0 1 with
            | None => None
            | Some (out, r) => if r =? 0 then Some (out, 0) else Some (out, -1)
            end
          else if valtype =? WG_STRTYPE then
            Some (fprintf out (dquote +:+ wg_decode_str d value +:+ dquote
                               +:+ newline), 0)
          else
            Some (fprintf out (wg_snprint_value d value 79 +:+ newline), 0)
  end.

(** [wg_print_json_document]: returns nothing; what is left is the
    state of the two streams. *)
Definition wg_print_json_document (fuel : nat) (d : db) (out : printer_state)
  (document : rec_ptr) : option printer_state :=
  if negb (is_schema_document d document)
  then Some (fst (report out "Given record is not a document"))
  else
    match pretty_print_json fuel d out document 0 0 1 with
    | None => None
    | Some (out', _) => Some out'
    end.

End Printer.

(** ** A reference store *)

(** Modelled from the spec: the record store (Db/dbdata.c,
    Db/dbschema.c), which is not among the sources.  The spec lists its
    operations (create-array, create-object, create-kvpair, set-field,
    the encoders and decoders, get-field, get-record-length,
    get-encoded-type, the shape predicates, scalar-to-text) and has
    creation fail on "capacity exhaustion".  Here the database is a
    list of records, a record pointer is a position in it, an encoded
    value is a tagged value, and a key-value pair has two fields, the
    key first.  [free_records] and [free_writes] bound how many
    creations and how many [wg_set_field] calls still succeed, so that
    each failure dbjson.c tests for can happen.  Doubles are not
    interpreted. *)
Module RefStore.

Inductive enc :=
  | ENull
  | EIllegal
  | EInt (z : Z)
  | EDouble
  | EStr (s : string)
  | ERecord (p : nat).

#[global] Instance enc_eq_dec : EqDecision enc.
Proof. solve_decision. Defined.

Inductive rec_kind := KArray | KObject | KKVPair.

#[global] Instance rec_kind_eq_dec : EqDecision rec_kind.
Proof. solve_decision. Defined.

Record record := {
  kind : rec_kind;
  is_document : bool;
  is_param : bool;
  fields : list enc
}.

Record database := {
  records : list record;
  free_records : nat;
  free_writes : nat
}.

Definition empty_record : record :=
  {| kind := KKVPair; is_document := false; is_param := false; fields := [] |}.

Definition record_at (d : database) (p : nat) : record :=
  default empty_record (records d !! p).

Definition create (d : database) (r : record) : database * option nat :=
  match free_records d with
  | O => (d, None)
  | S n =>
      ({| records := records d ++ [r]; free_records := n;
          free_writes := free_writes d |},
       Some (length (records d)))
  end.

Definition create_array (d : database) (len : Z) (top param : bool) :=
  create d {| kind := KArray; is_document := top; is_param := param;
              fields := replicate (Z.to_nat len) ENull |}.

Definition create_object (d : database) (len : Z) (top param : bool) :=
  create d {| kind := KObject; is_document := top; is_param := param;
              fields := replicate (Z.to_nat len) ENull |}.

Definition create_kvpair (d : database) (key val : enc) (param : bool) :=
  create d {| kind := KKVPair; is_document := false; is_param := param;
              fields := [key; val] |}.

Definition with_fields (r : record) (fs : list enc) : record :=
  {| kind := kind r; is_document := is_document r; is_param := is_param r;
     fields := fs |}.

Definition set_field (d : database) (p : nat) (i : Z) (v : enc)
  : database * Z :=
  match free_writes d with
  | O => (d, -1)
  | S n =>
      match records d !! p with
      | None => (d, -1)
      | Some r =>
          if (0 <=? i) && (i <? Z.of_nat (length (fields r))) then
            ({| records :=
                  <[p := with_fields r (<[Z.to_nat i := v]> (fields r))]>
                    (records d);
                free_records := free_records d;
                free_writes := n |}, 0)
          else (d, -2)
      end
  end.

Definition get_field (d : database) (p : nat) (i : Z) : enc :=
  if i <? 0 then EIllegal
  else default EIllegal (fields (record_at d p) !! Z.to_nat i).

Definition encoded_type (v : enc) : Z :=
  match v with
  | ENull => 1
  | ERecord _ => 2
  | EInt _ => 3
  | EDouble => 4
  | EStr _ => 5
  | EIllegal => 0
  end.

Definition decode_record (v : enc) : nat :=
  match v with ERecord p => p | _ => O end.

Definition decode_str (v : enc) : string :=
  match v with EStr s => s | _ => EmptyString end.

Definition decode_int (v : enc) : Z :=
  match v with EInt z => z | _ => 0 end.

(** Scalar to text, at most [buflen] characters. *)
Definition snprint_value (v : enc) (buflen : Z) : string :=
  str_take (Z.to_nat buflen)
    match v with
    | ENull => "NULL"
    | EInt z => decimal z
    | EDouble => "<double>"
    | EStr s => dquote +:+ s +:+ dquote
    | ERecord p => "<record>"
    | EIllegal => "<illegal>"
    end.

#[global] Instance store : Store := {|
  db := database;
  rec_ptr := nat;
  gint := enc;
  double := unit;
  WG_ILLEGAL := EIllegal;
  WG_RECORDTYPE := 2;
  WG_STRTYPE := 5;
  WG_SCHEMA_KEY_OFFSET := 0;
  WG_SCHEMA_VALUE_OFFSET := 1;
  wg_create_array := create_array;
  wg_create_object := create_object;
  wg_create_kvpair := create_kvpair;
  wg_set_field := set_field;
  wg_encode_int := fun d z => (d, EInt z);
  wg_encode_double := fun d _ => (d, EDouble);
  wg_encode_str := fun d s => (d, EStr s);
  wg_encode_record := fun _ p => ERecord p;
  is_schema_document := fun d p => is_document (record_at d p);
  is_schema_object := fun d p => bool_decide (kind (record_at d p) = KObject);
  is_schema_array := fun d p => bool_decide (kind (record_at d p) = KArray);
  wg_get_record_len := fun d p => Z.of_nat (length (fields (record_at d p)));
  wg_get_field := get_field;
  wg_get_encoded_type := fun _ v => encoded_type v;
  wg_decode_record := fun _ v => decode_record v;
  wg_decode_str := fun _ v => decode_str v;
  wg_snprint_value := fun _ v n => snprint_value v n
|}.

(** An empty database with room for [n] records and [w] field writes. *)
Definition empty (n w : nat) : database :=
  {| records := []; free_records := n; free_writes := w |}.

(** The database with one more record, and with [n] writes spent. *)
Definition add_record (d : database) (r : record) : database :=
  {| records := records d ++ [r]; free_records := pred (free_records d);
     free_writes := free_writes d |}.

Definition spend_writes (d : database) (n : nat) : database :=
  {| records := records d; free_records := free_records d;
     free_writes := (free_writes d - n)%nat |}.

(** The record of a key-value pair, and of a finished container. *)
Definition kvpair_record (key : string) (val : enc) (param : bool) : record :=
  {| kind := KKVPair; is_document := false; is_param := param;
     fields := [EStr key; val] |}.

Definition container_record (k : rec_kind) (top param : bool)
  (fs : list enc) : record :=
  {| kind := k; is_document := top; is_param := param; fields := fs |}.

End RefStore.

(** ** A reference tokenizer *)

(** Modelled from the spec: the tokenizer (json/JSON_parser.c), which
    is not among the sources.  The spec gives its events (container
    begin and end, key, string, integer, float), has it "enforce the
    same bound one level smaller" than [push], and has it abort on a
    failing callback.  This instance is a character-driven automaton
    over a stack of modes: a number or a literal is complete, and its
    event emitted, at the [,], []] or [}] that follows it; a key or a
    string at its closing quote.  It covers containers, strings with
    the two-character escapes, integers, fractions and exponents (the
    value is whatever [strtod] reads), [true], [false], [null] and
    white space.  Comments and [\u] escapes are not covered: it rejects
    them. *)
Module RefTokenizer.
Section Automaton.
Context `{St : Store} (strtod : string -> double).

Inductive mode := MODE_ARRAY | MODE_KEY | MODE_OBJECT.

Inductive tstate :=
  | GO | OK | OB | KE | CO | VA | AR
  | ST | ES
  | MI | ZE | IT | FR | FS | E1 | E2 | E3
  | T1 | T2 | T3 | F1 | F2 | F3 | F4 | N1 | N2 | N3.

(** [jtype] is the type of the token being read, [buffer] its text,
    [modes] the open containers, innermost first. *)
Record parser := {
  jstate : tstate;
  modes : list mode;
  jtype : JSON_type;
  buffer : string;
  jdepth : Z
}.

Definition event : Type := JSON_type * JSON_value.

Definition is_ws (c : ascii) : bool :=
  let n := nat_of_ascii c in
  (n =? 32)%nat || (n =? 9)%nat || (n =? 10)%nat || (n =? 13)%nat.

Definition is_digit (c : ascii) : bool :=
  let n := nat_of_ascii c in (48 <=? n)%nat && (n <=? 57)%nat.

Definition is_digit19 (c : ascii) : bool :=
  let n := nat_of_ascii c in (49 <=? n)%nat && (n <=? 57)%nat.

Definition is_char (c : ascii) (s : string) : bool :=
  match s with
  | String c' EmptyString => Ascii.eqb c c'
  | _ => false
  end.

(** The digits at the head of a text, read as a number, most
    significant first. *)
Fixpoint digits_value (acc : Z) (s : string) : Z :=
  match s with
  | String c s' =>
      if is_digit c
      then digits_value (10 * acc + (Z.of_nat (nat_of_ascii c) - 48)) s'
      else acc
  | EmptyString => acc
  end.

(** [sscanf(buffer, "%ld", &v)]: an optional sign, then digits. *)
Definition sscanf_integer (s : string) : Z :=
  match s with
  | String c s' =>
      if is_char c "-" then - digits_value 0 s' else digits_value 0 s
  | EmptyString => 0
  end.

Definition value_of (ty : JSON_type) (text : string) : JSON_value :=
  {| integer_value :=
       match ty with JSON_T_INTEGER => sscanf_integer text | _ => 0 end;
     float_value := strtod text;
     str_value :=
       match ty with
       | JSON_T_STRING | JSON_T_KEY => text
       | _ => EmptyString
       end |}.

Definition with_state (jc : parser) (s : tstate) : parser :=
  {| jstate := s; modes := modes jc; jtype := jtype jc;
     buffer := buffer jc; jdepth := jdepth jc |}.

Definition with_token (jc : parser) (s : tstate) (ty : JSON_type)
  (text : string) : parser :=
  {| jstate := s; modes := modes jc; jtype := ty;
     buffer := text; jdepth := jdepth jc |}.

Definition with_modes (jc : parser) (s : tstate) (ms : list mode) : parser :=
  {| jstate := s; modes := ms; jtype := JSON_T_NONE;
     buffer := EmptyString; jdepth := jdepth jc |}.

(** One more character of the token being read. *)
Definition extend (jc : parser) (s : tstate) (c : ascii) : parser :=
  with_token jc s (jtype jc) (buffer jc +:+ String c EmptyString).

(** The event of the token read so far, if there is one. *)
Definition flush (jc : parser) : list event :=
  match jtype jc with
  | JSON_T_NONE => []
  | ty => [(ty, value_of ty (buffer jc))]
  end.

Definition stay (jc : parser) : list event * option parser := ([], Some jc).
Definition reject : list event * option parser := ([], None).

(** A container opens: the mode stack may hold [jdepth] modes. *)
Definition open (jc : parser) (m : mode) (ty : JSON_type) (s : tstate)
  : list event * option parser :=
  if (0 <=? jdepth jc) && (jdepth jc <=? Z.of_nat (length (modes jc)))
  then reject
  else ([(ty, value_of ty EmptyString)], Some (with_modes jc s (m :: modes jc))).

(** A container closes: the pending token first, then the end event,
    if the innermost mode is [m]. *)
Definition close (jc : parser) (m : mode) (ty : JSON_type)
  : list event * option parser :=
  match modes jc with
  | m' :: ms =>
      match m, m' with
      | MODE_ARRAY, MODE_ARRAY | MODE_KEY, MODE_KEY
      | MODE_OBJECT, MODE_OBJECT =>
          (flush jc ++ [(ty, value_of ty EmptyString)],
           Some (with_modes jc OK ms))
      | _, _ => (flush jc, None)
      end
  | [] => (flush jc, None)
  end.

Definition comma (jc : parser) : list event * option parser :=
  match modes jc with
  | MODE_OBJECT :: ms => (flush jc, Some (with_modes jc KE (MODE_KEY :: ms)))
  | MODE_ARRAY :: ms => (flush jc, Some (with_modes jc VA (modes jc)))
  | _ => reject
  end.

Definition colon (jc : parser) : list event * option parser :=
  match modes jc with
  | MODE_KEY :: ms => ([], Some (with_modes jc VA (MODE_OBJECT :: ms)))
  | _ => reject
  end.

Definition string_begin (jc : parser) : list event * option parser :=
  ([], Some (with_token jc ST JSON_T_STRING EmptyString)).

Definition string_end (jc : parser) : list event * option parser :=
  match modes jc with
  | MODE_KEY :: _ =>
      ([(JSON_T_KEY, value_of JSON_T_KEY (buffer jc))],
       Some (with_modes jc CO (modes jc)))
  | MODE_ARRAY :: _ | MODE_OBJECT :: _ =>
      ([(JSON_T_STRING, value_of JSON_T_STRING (buffer jc))],
       Some (with_modes jc OK (modes jc)))
  | [] => reject
  end.

(** The start of a value, in state [VA] or [AR]. *)
Definition value_start (jc : parser) (c : ascii)
  : list event * option parser :=
  if is_char c "{" then open jc MODE_KEY JSON_T_OBJECT_BEGIN OB
  else if is_char c "[" then open jc MODE_ARRAY JSON_T_ARRAY_BEGIN AR
  else if Ascii.eqb c (ascii_of_nat 34) then string_begin jc
  else if is_char c "-"
  then ([], Some (with_token jc MI JSON_T_INTEGER (String c EmptyString)))
  else if is_char c "0"
  then ([], Some (with_token jc ZE JSON_T_INTEGER (String c EmptyString)))
  else if is_digit19 c
  then ([], Some (with_token jc IT JSON_T_INTEGER (String c EmptyString)))
  else if is_char c "t" then ([], Some (with_token jc T1 JSON_T_TRUE EmptyString))
  else if is_char c "f" then ([], Some (with_token jc F1 JSON_T_FALSE EmptyString))
  else if is_char c "n" then ([], Some (with_token jc N1 JSON_T_NULL EmptyString))
  else reject.

(** After a complete value: white space, a separator or a closing
    bracket. *)
Definition value_end (jc : parser) (c : ascii)
  : list event * option parser :=
  if is_ws c then ([], Some (with_state jc OK))
  else if is_char c "}" then close jc MODE_OBJECT JSON_T_OBJECT_END
  else if is_char c "]" then close jc MODE_ARRAY JSON_T_ARRAY_END
  else if is_char c "," then comma jc
  else reject.

Definition expect (jc : parser) (c : ascii) (want : string) (s : tstate)
  : list event * option parser :=
  if is_char c want then ([], Some (with_state jc s)) else reject.

(** The character an escape stands for. *)
Definition unescape (c : ascii) : option ascii :=
  if Ascii.eqb c (ascii_of_nat 34) then Some c
  else if Ascii.eqb c (ascii_of_nat 92) then Some c
  else if is_char c "/" then Some c
  else if is_char c "b" then Some (ascii_of_nat 8)
  else if is_char c "f" then Some (ascii_of_nat 12)
  else if is_char c "n" then Some (ascii_of_nat 10)
  else if is_char c "r" then Some (ascii_of_nat 13)
  else if is_char c "t" then Some (ascii_of_nat 9)
  else None.

Definition lex (jc : parser) (c : ascii) : list event * option parser :=
  match jstate jc with
  | GO =>
      if is_ws c then stay jc
      else if is_char c "{" then open jc MODE_KEY JSON_T_OBJECT_BEGIN OB
      else if is_char c "[" then open jc MODE_ARRAY JSON_T_ARRAY_BEGIN AR
      else reject
  | OK => value_end jc c
  | OB =>
      if is_ws c then stay jc
      else if is_char c "}" then close jc MODE_KEY JSON_T_OBJECT_END
      else if Ascii.eqb c (ascii_of_nat 34) then string_begin jc
      else reject
  | KE =>
      if is_ws c then stay jc
      else if Ascii.eqb c (ascii_of_nat 34) then string_begin jc
      else reject
  | CO =>
      if is_ws c then stay jc
      else if is_char c ":" then colon jc
      else reject
  | VA => if is_ws c then stay jc else value_start jc c
  | AR =>
      if is_ws c then stay jc
      else if is_char c "]" then close jc MODE_ARRAY JSON_T_ARRAY_END
      else value_start jc c
  | ST =>
      if Ascii.eqb c (ascii_of_nat 34) then string_end jc
      else if Ascii.eqb c (ascii_of_nat 92) then ([], Some (with_state jc ES))
      else if (nat_of_ascii c <? 32)%nat then reject
      else ([], Some (extend jc ST c))
  | ES =>
      match unescape c with
      | Some c' => ([], Some (extend jc ST c'))
      | None => reject
      end
  | MI =>
      if is_char c "0" then ([], Some (extend jc ZE c))
      else if is_digit19 c then ([], Some (extend jc IT c))
      else reject
  | ZE =>
      if is_char c "." then ([], Some (with_token (extend jc FR c) FR JSON_T_FLOAT
                                         (buffer (extend jc FR c))))
      else if is_char c "e" || is_char c "E"
      then ([], Some (with_token (extend jc E1 c) E1 JSON_T_FLOAT
                        (buffer (extend jc E1 c))))
      else value_end jc c
  | IT =>
      if is_digit c then ([], Some (extend jc IT c))
      else if is_char c "." then ([], Some (with_token (extend jc FR c) FR JSON_T_FLOAT
                                              (buffer (extend jc FR c))))
      else if is_char c "e" || is_char c "E"
      then ([], Some (with_token (extend jc E1 c) E1 JSON_T_FLOAT
                        (buffer (extend jc E1 c))))
      else value_end jc c
  | FR => if is_digit c then ([], Some (extend jc FS c)) else reject
  | FS =>
      if is_digit c then ([], Some (extend jc FS c))
      else if is_char c "e" || is_char c "E" then ([], Some (extend jc E1 c))
      else value_end jc c
  | E1 =>
      if is_char c "+" || is_char c "-" then ([], Some (extend jc E2 c))
      else if is_digit c then ([], Some (extend jc E3 c))
      else reject
  | E2 => if is_digit c then ([], Some (extend jc E3 c)) else reject
  | E3 =>
      if is_digit c then ([], Some (extend jc E3 c)) else value_end jc c
  | T1 => expect jc c "r" T2
  | T2 => expect jc c "u" T3
  | T3 => expect jc c "e" OK
  | F1 => expect jc c "a" F2
  | F2 => expect jc c "l" F3
  | F3 => expect jc c "s" F4
  | F4 => expect jc c "e" OK
  | N1 => expect jc c "u" N2
  | N2 => expect jc c "l" N3
  | N3 => expect jc c "l" OK
  end.

Definition new_parser (config : JSON_config) : parser :=
  {| jstate := GO; modes := []; jtype := JSON_T_NONE;
     buffer := EmptyString; jdepth := depth config |}.

Definition done (jc : parser) : bool :=
  match jstate jc, modes jc with
  | OK, [] => true
  | _, _ => false
  end.

Definition tokenizer : Tokenizer := {|
  JSON_parser_struct := parser;
  init_JSON_config :=
    {| depth := 127; allow_comments := 0; handle_floats_manually := 0 |};
  new_JSON_parser := new_parser;
  JSON_parser_lex := lex;
  JSON_parser_done := done
|}.

End Automaton.
End RefTokenizer.

(** The reference tokenizer over the reference store. *)
#[global] Instance ref_tokenizer : @Tokenizer RefStore.store :=
  RefTokenizer.tokenizer (fun _ => tt).

(** A C environment with zeroed stack entries and [n] list cells. *)
Definition plain_env `{Store} (n : nat) : c_env :=
  {| indeterminate := fun _ =>
       {| type := ARRAY; elems := []; last_key := replicate 80 NUL;
          size := 0 |};
     free_cells := n |}.


(** ** Sample inputs *)

(** A key of [n] characters. *)
Definition key_of_length (n : nat) : string :=
  string_of_list_ascii (replicate n "k"%char).

(** A context with one open frame of the given kind, on the reference
    store and in the build without backlinking. *)
Definition one_frame_context (ty : stack_entry_t) : parser_context :=
  fst (@push build_plain RefStore.store
         (@initial_context build_plain RefStore.store (plain_env 8)
            (RefStore.empty 8 8) false None) ty).

(** The begin event of a container of the given kind. *)
Definition begin_event `{Store} (v : JSON_value) (ty : stack_entry_t)
  : JSON_type * JSON_value :=
  (match ty with
   | ARRAY => JSON_T_ARRAY_BEGIN
   | OBJECT => JSON_T_OBJECT_BEGIN
   end, v).

(** A value for the events that carry none, on the reference store. *)
Definition no_value : @JSON_value RefStore.store :=
  {| integer_value := 0; float_value := tt; str_value := EmptyString |}.

(** The reference setting: the build without backlinking, the
    reference store with room for [n] records and [w] field writes,
    [m] list cells. *)
Definition ref_context (n w m : nat) (param : bool) : parser_context :=
  @initial_context build_plain RefStore.store (plain_env m)
    (RefStore.empty n w) param None.

Definition ref_parse_document (n w m : nat) (buf : string) : outcome :=
  @wg_parse_json_document build_plain RefStore.store ref_tokenizer
    (plain_env m) (RefStore.empty n w) buf.

Definition ref_parse_param (n w m : nat) (buf : string)
  (doc : option nat) : outcome :=
  @wg_parse_json_param build_plain RefStore.store ref_tokenizer
    (plain_env m) (RefStore.empty n w) buf doc.

(** Events on the reference store. *)
Definition ev (ty : JSON_type) : JSON_type * JSON_value := (ty, no_value).

Definition ev_int (z : Z) : JSON_type * JSON_value :=
  (JSON_T_INTEGER,
   {| integer_value := z; float_value := tt; str_value := EmptyString |}).

Definition ev_string (s : string) : JSON_type * JSON_value :=
  (JSON_T_STRING, {| integer_value := 0; float_value := tt; str_value := s |}).

Definition ev_key (s : string) : JSON_type * JSON_value :=
  (JSON_T_KEY, {| integer_value := 0; float_value := tt; str_value := s |}).

(** The context in the middle of [{"b":[2,3]}], before the array is
    closed: an object frame with pending key [b], and above it an array
    frame with the elements 2 and 3. *)
Definition ctx_array_in_object : parser_context :=
  fst (deliver (@parse_json_cb build_plain RefStore.store)
         (ref_context 8 8 8 false)
         [ev JSON_T_OBJECT_BEGIN; ev_key "b"; ev JSON_T_ARRAY_BEGIN;
          ev_int 2; ev_int 3]).

(** The creation call of [pop] for an entry. *)
Definition create_for `{Store} (e : stack_entry) (d : db)
  (istoplevel param : bool) : db * option rec_ptr :=
  match type e with
  | ARRAY => wg_create_array d (size e) istoplevel param
  | OBJECT => wg_create_object d (size e) istoplevel param
  end.

(** ** What the tokenizer makes of a text *)

Section Traces.
Context `{St : Store} `{Tk : !Tokenizer}.

(** Whether the tokenizer alone, with no callback to fail, takes every
    character up to the terminator and is done then. *)
Fixpoint lex_accepts (jc : JSON_parser_struct) (iptr : list ascii) : bool :=
  match iptr with
  | [] => JSON_parser_done jc
  | c :: iptr' =>
      if Ascii.eqb c NUL then JSON_parser_done jc
      else
        match snd (JSON_parser_lex jc c) with
        | Some jc' => lex_accepts jc' iptr'
        | None => false
        end
  end.

(** The events of a text, in order, up to the terminator or to the
    character the tokenizer rejects. *)
Fixpoint lex_events (jc : JSON_parser_struct) (iptr : list ascii)
  : list (JSON_type * JSON_value) :=
  match iptr with
  | [] => []
  | c :: iptr' =>
      if Ascii.eqb c NUL then []
      else
        fst (JSON_parser_lex jc c) ++
        match snd (JSON_parser_lex jc c) with
        | Some jc' => lex_events jc' iptr'
        | None => []
        end
  end.

End Traces.

Definition tokenizer_accepts `{B : Build} `{St : Store} `{Tk : !Tokenizer}
  (buf : string) : bool :=
  lex_accepts (new_JSON_parser parser_config) (list_ascii_of_string buf).

Definition tokenizer_events `{B : Build} `{St : Store} `{Tk : !Tokenizer}
  (buf : string) : list (JSON_type * JSON_value) :=
  lex_events (new_JSON_parser parser_config) (list_ascii_of_string buf).

(** The text of the spec's malformed example: an object whose key [a]
    has no value. *)
Definition malformed_object : string :=
  "{" +:+ dquote +:+ "a" +:+ dquote +:+ ": }".

(** The record [wg_print_json_document] is asked to print in the
    examples: the database after [[[1]]], where record 0 is the inner
    array and record 1 the document. *)
Definition nested_db : RefStore.database :=
  out_db (ref_parse_document 8 8 8 "[[1]]").

(** ** Literals on the reference store *)

Definition is_literal_type (ty : JSON_type) : bool :=
  match ty with
  | JSON_T_INTEGER | JSON_T_FLOAT | JSON_T_STRING => true
  | _ => false
  end.

(** The encoding of a literal event on the reference store. *)
Definition literal_encoding (event : JSON_type * @JSON_value RefStore.store)
  : RefStore.enc :=
  match fst event with
  | JSON_T_INTEGER => RefStore.EInt (integer_value (snd event))
  | JSON_T_FLOAT => RefStore.EDouble
  | JSON_T_STRING => RefStore.EStr (as_c_string (str_value (snd event)))
  | _ => RefStore.EIllegal
  end.

(** The kind of record a frame becomes. *)
Definition kind_of (ty : stack_entry_t) : RefStore.rec_kind :=
  match ty with
  | ARRAY => RefStore.KArray
  | OBJECT => RefStore.KObject
  end.

(** The elements of an entry are counted by its [size]. *)
Definition counted `{Store} (e : stack_entry) : Prop :=
  size e = Z.of_nat (length (elems e)).

(** Events that are all integers, floats or strings. *)
Definition all_literals (lits : list (JSON_type * @JSON_value RefStore.store))
  : Prop :=
  Forall (fun event => is_literal_type (fst event) = true) lits.

(** The text of an array of three literals: two integers and a string. *)
Definition three_literals : string :=
  "[1, -20, " +:+ dquote +:+ "x" +:+ dquote +:+ "]".

(** ** Objects of literal members *)

(** What the key buffer holds, read as a C string, after [add_key]. *)
Definition stored_key (key : string) : string :=
  c_str (<[79%nat := NUL]> (strncpy key 80)).

(** A member of an object: the value of its key event and its literal
    event. *)
Definition member : Type :=
  @JSON_value RefStore.store * (JSON_type * @JSON_value RefStore.store).

Definition member_events (m : member)
  : list (JSON_type * @JSON_value RefStore.store) :=
  [(JSON_T_KEY, fst m); snd m].

(** The key-value pair record of a member. *)
Definition member_record (param : bool) (m : member) : RefStore.record :=
  RefStore.kvpair_record (stored_key (str_value (fst m)))
    (literal_encoding (snd m)) param.

(** The database with more records. *)
Definition add_records (d : RefStore.database) (l : list RefStore.record)
  : RefStore.database :=
  {| RefStore.records := RefStore.records d ++ l;
     RefStore.free_records := (RefStore.free_records d - length l)%nat;
     RefStore.free_writes := RefStore.free_writes d |}.

(** The handles of [n] records in a row, from position [base]. *)
Definition handles (base n : nat) : list RefStore.enc :=
  map RefStore.ERecord (seq base n).

(** The text of the spec's example object. *)
Definition example_object : string :=
  "{" +:+ dquote +:+ "a" +:+ dquote +:+ ":1," +:+ dquote +:+ "b" +:+ dquote
  +:+ ":[2,3]}".

(** The text of an object with a short key and a key of 100
    characters. *)
Definition long_key_object : string :=
  "{" +:+ dquote +:+ "a" +:+ dquote +:+ ":1," +:+ dquote
  +:+ key_of_length 100 +:+ dquote +:+ ":7}".

Definition long_key_members : list member :=
  [ (snd (ev_key "a"), ev_int 1); (snd (ev_key (key_of_length 100)), ev_int 7) ].

(** ** JSON values as trees *)

(** The values the round trip is about: integers, strings, arrays and
    objects. *)
Inductive json :=
  | JInt (z : Z)
  | JStr (s : string)
  | JArr (l : jlist)
  | JObj (m : jmembers)
with jlist :=
  | JNil
  | JCons (j : json) (l : jlist)
with jmembers :=
  | MNil
  | MCons (k : string) (j : json) (m : jmembers).

Scheme json_ind' := Induction for json Sort Prop
  with jlist_ind' := Induction for jlist Sort Prop
  with jmembers_ind' := Induction for jmembers Sort Prop.

Combined Scheme json_mutind from json_ind', jlist_ind', jmembers_ind'.

(** The events of a value, in source order. *)
Fixpoint events_json (j : json) : list (JSON_type * @JSON_value RefStore.store) :=
  match j with
  | JInt z => [ev_int z]
  | JStr s => [ev_string s]
  | JArr l => ev JSON_T_ARRAY_BEGIN :: events_list l ++ [ev JSON_T_ARRAY_END]
  | JObj m => ev JSON_T_OBJECT_BEGIN :: events_members m ++ [ev JSON_T_OBJECT_END]
  end
with events_list (l : jlist) : list (JSON_type * @JSON_value RefStore.store) :=
  match l with
  | JNil => []
  | JCons j l' => events_json j ++ events_list l'
  end
with events_members (m : jmembers)
  : list (JSON_type * @JSON_value RefStore.store) :=
  match m with
  | MNil => []
  | MCons k j m' => ev_key k :: events_json j ++ events_members m'
  end.

Fixpoint jlist_length (l : jlist) : nat :=
  match l with JNil => O | JCons _ l' => S (jlist_length l') end.

Fixpoint jmembers_length (m : jmembers) : nat :=
  match m with MNil => O | MCons _ _ m' => S (jmembers_length m') end.

(** The number of values in a value: a bound on the list cells a parse
    of it holds at any time. *)
Fixpoint cells (j : json) : nat :=
  match j with
  | JInt _ | JStr _ => 1
  | JArr l => S (cells_list l)
  | JObj m => S (cells_members m)
  end
with cells_list (l : jlist) : nat :=
  match l with JNil => O | JCons j l' => (cells j + cells_list l')%nat end
with cells_members (m : jmembers) : nat :=
  match m with MNil => O | MCons _ j m' => (cells j + cells_members m')%nat end.

(** The records a value takes: one for each container, one for each
    member of an object. *)
Fixpoint records_of (j : json) : nat :=
  match j with
  | JInt _ | JStr _ => O
  | JArr l => S (records_of_list l)
  | JObj m => S (records_of_members m)
  end
with records_of_list (l : jlist) : nat :=
  match l with
  | JNil => O
  | JCons j l' => (records_of j + records_of_list l')%nat
  end
with records_of_members (m : jmembers) : nat :=
  match m with
  | MNil => O
  | MCons _ j m' => (S (records_of j) + records_of_members m')%nat
  end.

(** The field writes a value takes: one for each element of a
    container. *)
Fixpoint writes_of (j : json) : nat :=
  match j with
  | JInt _ | JStr _ => O
  | JArr l => (jlist_length l + writes_of_list l)%nat
  | JObj m => (jmembers_length m + writes_of_members m)%nat
  end
with writes_of_list (l : jlist) : nat :=
  match l with
  | JNil => O
  | JCons j l' => (writes_of j + writes_of_list l')%nat
  end
with writes_of_members (m : jmembers) : nat :=
  match m with
  | MNil => O
  | MCons _ j m' => (writes_of j + writes_of_members m')%nat
  end.

(** The nesting of containers in a value. *)
Fixpoint height (j : json) : nat :=
  match j with
  | JInt _ | JStr _ => O
  | JArr l => S (height_list l)
  | JObj m => S (height_members m)
  end
with height_list (l : jlist) : nat :=
  match l with JNil => O | JCons j l' => Nat.max (height j) (height_list l') end
with height_members (m : jmembers) : nat :=
  match m with
  | MNil => O
  | MCons _ j m' => Nat.max (height j) (height_members m')
  end.

Definition is_container (j : json) : bool :=
  match j with JArr _ | JObj _ => true | _ => false end.

(** A character the printer and the tokenizer agree on inside quotes:
    no control character, no double quote, no backslash. *)
Definition plain_char (c : ascii) : bool :=
  (32 <=? nat_of_ascii c)%nat && negb (Ascii.eqb c (ascii_of_nat 34))
  && negb (Ascii.eqb c (ascii_of_nat 92)).

Fixpoint plain_string (s : string) : bool :=
  match s with
  | EmptyString => true
  | String c s' => plain_char c && plain_string s'
  end.

(** A value whose strings and keys are plain, whose keys fit the key
    buffer, and whose integers are those of a 64 bit [long]. *)
Fixpoint plain_json (j : json) : Prop :=
  match j with
  | JInt z => - 2 ^ 63 <= z < 2 ^ 63
  | JStr s => plain_string s = true
  | JArr l => plain_list l
  | JObj m => plain_members m
  end
with plain_list (l : jlist) : Prop :=
  match l with
  | JNil => True
  | JCons j l' => plain_json j /\ plain_list l'
  end
with plain_members (m : jmembers) : Prop :=
  match m with
  | MNil => True
  | MCons k j m' =>
      (plain_string k = true /\ (String.length k <= 79)%nat)
      /\ plain_json j /\ plain_members m'
  end.

(** A record graph of the reference store that has the shape and the
    values of a tree: [rep_val d j v] for the encoded value [v]. *)
Fixpoint rep_val (d : RefStore.database) (j : json) (v : RefStore.enc) : Prop :=
  match j with
  | JInt z => v = RefStore.EInt z
  | JStr s => v = RefStore.EStr s
  | JArr l =>
      exists p rec,
        v = RefStore.ERecord p /\ RefStore.records d !! p = Some rec /\
        RefStore.kind rec = RefStore.KArray /\
        rep_list d l (RefStore.fields rec)
  | JObj m =>
      exists p rec,
        v = RefStore.ERecord p /\ RefStore.records d !! p = Some rec /\
        RefStore.kind rec = RefStore.KObject /\
        rep_members d m (RefStore.fields rec)
  end
with rep_list (d : RefStore.database) (l : jlist) (fs : list RefStore.enc)
  : Prop :=
  match l with
  | JNil => fs = []
  | JCons j l' =>
      exists f fs', fs = f :: fs' /\ rep_val d j f /\ rep_list d l' fs'
  end
with rep_members (d : RefStore.database) (m : jmembers)
  (fs : list RefStore.enc) : Prop :=
  match m with
  | MNil => fs = []
  | MCons k j m' =>
      exists q pair v fs',
        fs = RefStore.ERecord q :: fs' /\
        RefStore.records d !! q = Some pair /\
        RefStore.kind pair = RefStore.KKVPair /\
        RefStore.fields pair = [RefStore.EStr k; v] /\
        rep_val d j v /\ rep_members d m' fs'
  end.

(** ** The text the printer writes for a tree *)

Fixpoint indent_text (n : nat) : string :=
  match n with
  | O => EmptyString
  | S n' => "  " +:+ indent_text n'
  end.

Definition comma_str (comma : Z) : string :=
  if comma =? 0 then EmptyString else ",".

Definition newline_str (nl : Z) : string :=
  if nl =? 0 then EmptyString else String (ascii_of_nat 10) EmptyString.

(** [render j indent comma nl]: the text for a container; [render_elems]
    the text for the elements of an array from index [i];
    [render_members] the text for the members of an object from index
    [i]. *)
Fixpoint render (j : json) (indent : nat) (comma nl : Z) : string :=
  match j with
  | JArr l =>
      comma_str comma +:+ "[" +:+ render_elems l indent 0 +:+ "]"
      +:+ newline_str nl
  | JObj m =>
      comma_str comma +:+ "{" +:+ String (ascii_of_nat 10) EmptyString
      +:+ render_members m indent 0 +:+ indent_text indent +:+ "}"
      +:+ newline_str nl
  | _ => EmptyString
  end
with render_elems (l : jlist) (indent : nat) (i : Z) : string :=
  match l with
  | JNil => EmptyString
  | JCons j l' =>
      match j with
      | JInt z => comma_str i +:+ decimal z
      | JStr s => comma_str i +:+ dquote +:+ s +:+ dquote
      | _ => render j indent i 0
      end +:+ render_elems l' indent (i + 1)
  end
with render_members (m : jmembers) (indent : nat) (i : Z) : string :=
  match m with
  | MNil => EmptyString
  | MCons k j m' =>
      indent_text (S indent) +:+ comma_str i +:+ dquote +:+ k +:+ dquote
      +:+ ": " +:+
      match j with
      | JInt z => decimal z +:+ String (ascii_of_nat 10) EmptyString
      | JStr s => dquote +:+ s +:+ dquote +:+ String (ascii_of_nat 10) EmptyString
      | _ => render j (S indent) 0 1
      end +:+ render_members m' indent (i + 1)
  end.

(** A text of decimal digits only. *)
Fixpoint all_digits (s : string) : bool :=
  match s with
  | EmptyString => true
  | String c s' => RefTokenizer.is_digit c && all_digits s'
  end.

(** [grown d d' n w]: [d'] is [d] with [n] more records, after [w]
    field writes. *)
Definition grown (d d' : RefStore.database) (n w : nat) : Prop :=
  (exists l, RefStore.records d' = RefStore.records d ++ l /\ length l = n) /\
  RefStore.free_records d' = (RefStore.free_records d - n)%nat /\
  RefStore.free_writes d' = (RefStore.free_writes d - w)%nat.

(** The rest of a delivery after a call that returned [res]. *)
Definition then_deliver `{B : Build} `{St : Store}
  (res : parser_context * Z) (rest : list (JSON_type * JSON_value))
  : parser_context * bool :=
  let '(c, r) := res in
  if r =? 0 then (c, false) else deliver parse_json_cb c rest.

(** ** The tokenizer on a text, and the reference tokenizer on the
    printer's text *)

Section TextRuns.
Context `{St : Store} `{Tk : !Tokenizer}.

(** The events of a text and the state after it; there is no state
    when a character is rejected or is the terminator. *)
Fixpoint lex_text (jc : JSON_parser_struct) (s : string)
  : list (JSON_type * JSON_value) * option JSON_parser_struct :=
  match s with
  | EmptyString => ([], Some jc)
  | String c s' =>
      if Ascii.eqb c NUL then ([], None)
      else
        match snd (JSON_parser_lex jc c) with
        | Some jc' =>
            (fst (JSON_parser_lex jc c) ++ fst (lex_text jc' s'),
             snd (lex_text jc' s'))
        | None => (fst (JSON_parser_lex jc c), None)
        end
  end.

(** The tokenizer takes the text [s] from [jc] to [jc'] and emits
    [evs]. *)
Definition reads (jc : JSON_parser_struct) (s : string)
  (evs : list (JSON_type * JSON_value)) (jc' : JSON_parser_struct) : Prop :=
  lex_text jc s = (evs, Some jc').

End TextRuns.

(** A state of the reference tokenizer between tokens. *)
Definition at_state (s : RefTokenizer.tstate) (ms : list RefTokenizer.mode)
  (D : Z) : RefTokenizer.parser :=
  {| RefTokenizer.jstate := s; RefTokenizer.modes := ms;
     RefTokenizer.jtype := JSON_T_NONE;
     RefTokenizer.buffer := EmptyString; RefTokenizer.jdepth := D |}.

(** A state after a complete value inside the containers [ms]; [pend]
    is the event the tokenizer still holds back. *)
Definition after_value (jc : RefTokenizer.parser)
  (ms : list RefTokenizer.mode) (D : Z)
  (pend : list (JSON_type * @JSON_value RefStore.store)) : Prop :=
  RefTokenizer.modes jc = ms /\ RefTokenizer.jdepth jc = D /\
  @RefTokenizer.flush RefStore.store (fun _ => tt) jc = pend /\
  (RefTokenizer.jstate jc = RefTokenizer.OK \/
   RefTokenizer.jstate jc = RefTokenizer.ZE \/
   RefTokenizer.jstate jc = RefTokenizer.IT).

(** The state before element [i] of an array, and before member [i] of
    an object. *)
Definition array_pos (jc : RefTokenizer.parser) (i : Z)
  (ms : list RefTokenizer.mode) (D : Z)
  (pend : list (JSON_type * @JSON_value RefStore.store)) : Prop :=
  if i =? 0
  then jc = at_state RefTokenizer.AR (RefTokenizer.MODE_ARRAY :: ms) D /\
       pend = []
  else after_value jc (RefTokenizer.MODE_ARRAY :: ms) D pend.

Definition object_pos (jc : RefTokenizer.parser) (i : Z)
  (ms : list RefTokenizer.mode) (D : Z)
  (pend : list (JSON_type * @JSON_value RefStore.store)) : Prop :=
  if i =? 0
  then jc = at_state RefTokenizer.OB (RefTokenizer.MODE_KEY :: ms) D /\
       pend = []
  else after_value jc (RefTokenizer.MODE_OBJECT :: ms) D pend.

(** The text of a value without the comma before it and the newline
    after it. *)
Definition value_text (j : json) (indent : nat) : string :=
  match j with
  | JInt z => decimal z
  | JStr s => dquote +:+ s +:+ dquote
  | _ => render j indent 0 0
  end.

(** Where a value may start: after a colon or a comma or at the start
    of an array, inside an array or an object; a container also at the
    start of the text. *)
Definition value_position (s0 : RefTokenizer.tstate)
  (ms : list RefTokenizer.mode) (j : json) : Prop :=
  match s0 with
  | RefTokenizer.VA | RefTokenizer.AR =>
      match ms with
      | RefTokenizer.MODE_ARRAY :: _ | RefTokenizer.MODE_OBJECT :: _ => True
      | _ => False
      end
  | RefTokenizer.GO => is_container j = true /\ ms = []
  | _ => False
  end.

(** A state of the reference tokenizer inside a token of type [ty]
    whose text so far is [buf]. *)
Definition in_token (s : RefTokenizer.tstate) (ms : list RefTokenizer.mode)
  (D : Z) (ty : JSON_type) (buf : string) : RefTokenizer.parser :=
  {| RefTokenizer.jstate := s; RefTokenizer.modes := ms;
     RefTokenizer.jtype := ty;
     RefTokenizer.buffer := buf; RefTokenizer.jdepth := D |}.

(** The white space the printer writes: spaces and newlines. *)
Definition is_blank (c : ascii) : Prop :=
  c = " "%char \/ c = ascii_of_nat 10.

(** ** Sample documents for printing and parsing again *)

(** The tree of the spec's example object. *)
Definition example_tree : json :=
  JObj (MCons "a" (JInt 1)
          (MCons "b" (JArr (JCons (JInt 2) (JCons (JInt 3) JNil))) MNil)).

Definition example_db : RefStore.database :=
  out_db (ref_parse_document 8 8 8 example_object).

Definition backslash : string := String (ascii_of_nat 92) EmptyString.

(** The text of an array with one string, the five characters a, double
    quote, comma, double quote, b, written with escapes. *)
Definition escaped_quote_array : string :=
  "[" +:+ dquote +:+ "a" +:+ backslash +:+ dquote +:+ "," +:+ backslash
  +:+ dquote +:+ "b" +:+ dquote +:+ "]".

(** The string of that array. *)
Definition quote_comma_quote : string :=
  "a" +:+ dquote +:+ "," +:+ dquote +:+ "b".

(** The text of an array with the two strings a and b, followed by a
    newline. *)
Definition two_strings_array : string :=
  "[" +:+ dquote +:+ "a" +:+ dquote +:+ "," +:+ dquote +:+ "b" +:+ dquote
  +:+ "]" +:+ newline.

(** ** The open frames as a transition system *)

Section FrameSteps.
Context `{St : Store}.

(** The list cells the open frames hold: one for each element. *)
Definition cells_held (fs : list stack_entry) : nat :=
  sum_list_with (fun e => length (elems e)) fs.

(** What one call of the callback can do to the open frames and to the
    number of free list cells: nothing, open a frame, append an
    element, store a key, close the top frame, close it and append its
    record to the frame below. *)
Inductive frames_step
  : list stack_entry * nat -> list stack_entry * nat -> Prop :=
  | step_none fs h : frames_step (fs, h) (fs, h)
  | step_push fs h ty k : frames_step (fs, h) (fs ++ [fresh_entry ty k], h)
  | step_elem below e h x :
      frames_step (below ++ [e], S h) (below ++ [with_elem e x], h)
  | step_key below e h k :
      frames_step (below ++ [e], h) (below ++ [with_key e k], h)
  | step_pop below e h :
      frames_step (below ++ [e], h) (below, (h + length (elems e))%nat)
  | step_pop_elem below p e h x n :
      (h + length (elems e))%nat = S n ->
      frames_step (below ++ [p; e], h) (below ++ [with_elem p x], n).

End FrameSteps.

(** Event types the callback hands to the stack manager without
    opening a frame: the ends, the key and the literals. *)
Definition needs_open_frame (ty : JSON_type) : bool :=
  match ty with
  | JSON_T_ARRAY_END | JSON_T_OBJECT_END | JSON_T_KEY
  | JSON_T_INTEGER | JSON_T_FLOAT | JSON_T_STRING => true
  | _ => false
  end.

(** The events of [[1,[2,3]] up to the error: an array with the
    element 1 and an open inner array with the elements 2 and 3. *)
Definition unfinished_events
  : list (JSON_type * @JSON_value RefStore.store) :=
  [ev JSON_T_ARRAY_BEGIN; ev_int 1; ev JSON_T_ARRAY_BEGIN; ev_int 2; ev_int 3].

(** A context with one open array frame on a reference store that has
    no room for a record. *)
Definition full_store_context : parser_context :=
  fst (@push build_plain RefStore.store
         (@initial_context build_plain RefStore.store (plain_env 8)
            (RefStore.empty 0 8) false None) ARRAY).

(** A context with one open object frame with the key k and no list
    cell left. *)
Definition no_cell_context : parser_context :=
  fst (deliver (@parse_json_cb build_plain RefStore.store)
         (ref_context 8 8 0 false) [ev JSON_T_OBJECT_BEGIN; ev_key "k"]).

(** ** What the printer does to its streams *)

(** [printer_extends out out' r]: a call that returned [r] has left
    the streams [out'] of [out]: the code is 0 or -1, the output
    stream has only grown, and stderr has grown by one diagnostic when
    the code is -1 and not at all when it is 0. *)
Definition printer_extends `{B : Build} (out out' : printer_state) (r : Z)
  : Prop :=
  (r = 0 \/ r = -1) /\
  (exists text, fst out' = fst out +:+ text) /\
  (r = 0 -> snd out' = snd out) /\
  (r = -1 ->
   exists errmsg, snd out' = snd out +:+ fst (show_json_error errmsg)).

(** A recursive call that keeps to [printer_extends]. *)
Definition pp_extends `{B : Build} `{St : Store} (pp : pp_call) : Prop :=
  forall out rec indent comma nl out' r,
    pp out rec indent comma nl = Some (out', r) -> printer_extends out out' r.

(** ** The characters a parse has taken *)

Section TakenChars.
Context `{B : Build} `{St : Store} `{Tk : !Tokenizer}.

(** The tokenizer and the context after the characters [cs], when
    [JSON_parser_char] has taken them all. *)
Fixpoint run_chars (cb : JSON_parser_callback) (jc : JSON_parser_struct)
  (ctx : parser_context) (cs : list ascii)
  : option (JSON_parser_struct * parser_context) :=
  match cs with
  | [] => Some (jc, ctx)
  | c :: cs' =>
      let '(jc', ctx', ok) := JSON_parser_char (Some cb) jc c ctx in
      if ok =? 0 then None else run_chars cb jc' ctx' cs'
  end.

End TakenChars.

(** A build like [build_plain] with [WG_NO_ERRPRINT] defined. *)
Definition build_silent : Build :=
  {| MAX_DEPTH := 99; MAX_DEPTH_min := ltac:(lia); WG_NO_ERRPRINT := true |}.

(** ** Reading a file: [wg_parse_json_file] *)

Definition WG_JSON_INPUT_CHUNK : Z := 16384.

Definition INT_MAX : Z := 2147483647.

(** What a call of [wg_parse_json_file] finds: the files [fopen] can
    open for reading, with their content, what stdin delivers, whether
    [malloc] gives the first buffer, how many of the [realloc] calls
    give a larger one, and the memory of the parse that follows. *)
Record file_env `{Store} := {
  fopen : string -> option (list ascii);
  stdin : list ascii;
  malloc_buf : bool;
  realloc_buf : nat;
  parse_env : c_env
}.

(** What the call leaves behind: the database, the text written to
    stdout and to stderr, and the returned code. *)
Record file_outcome `{Store} := {
  file_db : db;
  file_stdout : string;
  file_stderr : string;
  file_result : Z
}.

Section FileDriver.
Context `{B : Build} `{St : Store} `{Tk : !Tokenizer}.

(** Modelled from the spec: [JSON_parser_char] of json/JSON_parser.c
    for a parser configured with [callback = NULL], as in the first
    pass over a file: the events go nowhere, the result is 0 when the
    character is rejected and 1 otherwise. *)
Definition JSON_parser_char_null (jc : JSON_parser_struct) (next_char : ascii)
  : JSON_parser_struct * Z :=
  match snd (JSON_parser_lex jc next_char) with
  | Some jc' => (jc', 1)
  | None => (jc, 0)
  end.

(** How the reading loop ends: at the end of the file, with the
    tokenizer, the bytes stored, their number and the size of the
    buffer; at a character the tokenizer rejects; at a [realloc] that
    fails; or in undefined behaviour, which is a store outside the
    buffer or an [int] that overflows. *)
Inductive read_status :=
  | READ_EOF (jc : JSON_parser_struct) (buf : list ascii) (count bufsize : Z)
  | READ_SYNTAX (count : Z)
  | READ_NOMEM
  | READ_UNDEFINED.

(** The loop [while((next_char = fgetc(f)) != EOF)].  [buf] is the
    part of the buffer written so far, the bytes 0 to [count - 1];
    [bufsize] is the allocated size. *)
Fixpoint read_loop (jc : JSON_parser_struct) (f : list ascii)
  (buf : list ascii) (count bufsize : Z) (reallocs : nat) : read_status :=
  match f with
  | [] => READ_EOF jc buf count bufsize
  | next_char :: f' =>
      let '(jc', ok) := JSON_parser_char_null jc next_char in
      if ok =? 0 then READ_SYNTAX count
      else if (count <? 0) || (bufsize <=? count) then READ_UNDEFINED
      else
        let buf := buf ++ [next_char] in
        if INT_MAX <=? count then READ_UNDEFINED
        else
          let count := count + 1 in
          if bufsize <=? count then
            if INT_MAX <? bufsize + WG_JSON_INPUT_CHUNK then READ_UNDEFINED
            else
              match reallocs with
              | O => READ_NOMEM
              | S n =>
                  read_loop jc' f' buf count (bufsize + WG_JSON_INPUT_CHUNK) n
              end
          else read_loop jc' f' buf count bufsize reallocs
  end.

Definition file_failure (d : db) (stdout : string) (err : string * Z)
  : file_outcome :=
  {| file_db := d; file_stdout := stdout; file_stderr := fst err;
     file_result := -1 |}.

(** From the setup of the tokenizer to [done:], for the stream [f]. *)
Definition read_and_parse (env : file_env) (d : db) (stdout : string)
  (f : list ascii) : option file_outcome :=
  match read_loop (new_JSON_parser parser_config) f [] 0 WG_JSON_INPUT_CHUNK
          (realloc_buf env) with
  | READ_SYNTAX count =>
      Some (file_failure d stdout (show_json_error_byte "Syntax error" count))
  | READ_NOMEM =>
      Some (file_failure d stdout
              (show_json_error "Failed to allocate additional memory"))
  | READ_UNDEFINED => None
  | READ_EOF jc buf count bufsize =>
      if negb (JSON_parser_done jc)
      then Some (file_failure d stdout
                   (show_json_error
                      "Syntax error (JSON not properly terminated?)"))
      else if (count <? 0) || (bufsize <=? count) then None
      else
        let o := wg_parse_json_document (parse_env env) d
                   (c_str (buf ++ [NUL])) in
        Some {| file_db := out_db o; file_stdout := stdout;
                file_stderr := out_stderr o; file_result := out_result o |}
  end.

(** The prompt printed when the text is read from stdin. *)
Definition stdin_prompt : string :=
  "reading JSON from stdin, press CTRL-D when done" +:+ newline.

(** [wg_parse_json_file]; [filename] is [None] for a NULL pointer.
    The result is [None] when the call runs into undefined
    behaviour. *)
Definition wg_parse_json_file (env : file_env) (d : db)
  (filename : option string) : option file_outcome :=
  if negb (malloc_buf env)
  then Some (file_failure d EmptyString
               (show_json_error "Failed to allocate memory"))
  else
    match filename with
    | None => read_and_parse env d stdin_prompt (stdin env)
    | Some name =>
        match fopen env name with
        | None =>
            Some (file_failure d EmptyString
                    (show_json_error_fn "Failed to open input" name))
        | Some f => read_and_parse env d EmptyString f
        end
    end.

(** The stream the call reads, when there is one. *)
Definition input_stream (env : file_env) (filename : option string)
  : option (list ascii) :=
  match filename with
  | None => Some (stdin env)
  | Some name => fopen env name
  end.

(** The tokenizer alone over a list of characters. *)
Fixpoint lex_chars (jc : JSON_parser_struct) (f : list ascii)
  : option JSON_parser_struct :=
  match f with
  | [] => Some jc
  | c :: f' =>
      match snd (JSON_parser_lex jc c) with
      | Some jc' => lex_chars jc' f'
      | None => None
      end
  end.

End FileDriver.

(** ** What a parse adds to the reference store *)

(** [appended param d d']: the records of [d] are in [d'] as they
    were, followed by new ones that all carry the flag [param]. *)
Definition appended (param : bool) (d d' : RefStore.database) : Prop :=
  exists l, RefStore.records d' = RefStore.records d ++ l /\
            Forall (fun r => RefStore.is_param r = param) l.

(** A database whose only record is an array that holds a handle to
    itself. *)
Definition cyclic_db : RefStore.database :=
  {| RefStore.records :=
       [RefStore.container_record RefStore.KArray true false
          [RefStore.ERecord 0]];
     RefStore.free_records := 0; RefStore.free_writes := 0 |}.

(** ** Sample files *)

(** A file system with the one file doc.json, which holds the spec's
    example object; stdin delivers [[1,2]]; the first buffer can be
    allocated, no larger one. *)
Definition sample_files : @file_env RefStore.store :=
  {| fopen := fun name =>
       if String.eqb name "doc.json"
       then Some (list_ascii_of_string example_object) else None;
     stdin := list_ascii_of_string "[1,2]";
     malloc_buf := true;
     realloc_buf := 0;
     parse_env := plain_env 8 |}.

(** What the printer writes for the document of [nested_db]. *)
Definition nested_text : string := "[[1]]" +:+ newline.

(** ** Nesting *)

(** What an event does to the nesting depth. *)
Definition depth_change (ty : JSON_type) : Z :=
  match ty with
  | JSON_T_ARRAY_BEGIN | JSON_T_OBJECT_BEGIN => 1
  | JSON_T_ARRAY_END | JSON_T_OBJECT_END => -1
  | _ => 0
  end.

(** The begins of a list of events minus its ends. *)
Fixpoint depth_of `{Store} (evs : list (JSON_type * JSON_value)) : Z :=
  match evs with
  | [] => 0
  | (ty, _) :: evs' => depth_change ty + depth_of evs'
  end.

(** A context with an array open inside an array, the inner one with
    the element 1, on a reference store that has room for records but
    for no field write. *)
Definition no_write_context : parser_context :=
  fst (deliver (@parse_json_cb build_plain RefStore.store)
         (@initial_context build_plain RefStore.store (plain_env 8)
            (RefStore.empty 8 0) false None)
         [ev JSON_T_ARRAY_BEGIN; ev JSON_T_ARRAY_BEGIN; ev_int 1]).
(** * Properties *)

(** ** C strings and the key buffer *)

Lemma str_take_length (n : nat) (s : string) :
  String.length (str_take n s) = Nat.min n (String.length s).
Proof.
  revert s; induction n as [|n IH]; intros [|c s]; simpl; auto.
Qed.

Lemma str_take_all (n : nat) (s : string) :
  (String.length s <= n)%nat -> str_take n s = s.
Proof.
  revert s; induction n as [|n IH]; intros [|c s]; simpl; intros Hlen;
    try reflexivity; try lia.
  f_equal. apply IH. lia.
Qed.

Lemma no_NUL_str_take (n : nat) (s : string) :
  no_NUL s -> no_NUL (str_take n s).
Proof.
  revert s; induction n as [|n IH]; intros [|c s]; simpl; auto.
  intros [Hc Hs]. split; auto.
Qed.

Lemma c_str_padded (s : string) (k : nat) :
  no_NUL s ->
  c_str (list_ascii_of_string s ++ replicate (S k) NUL) = s.
Proof.
  induction s as [|c s IH]; simpl; intros Hs.
  - reflexivity.
  - destruct Hs as [Hc Hs].
    destruct (Ascii.eqb_spec c NUL) as [->|_]; [contradiction|].
    f_equal. auto.
Qed.

Lemma as_c_string_no_NUL (s : string) : no_NUL s -> as_c_string s = s.
Proof.
  unfold as_c_string.
  induction s as [|c s IH]; simpl; intros Hs; [reflexivity|].
  destruct Hs as [Hc Hs].
  destruct (Ascii.eqb_spec c NUL) as [->|_]; [contradiction|].
  f_equal; auto.
Qed.

(** The buffer after [strncpy(dst, key, n + 1); dst[n] = 0]: the first
    [n] characters of the key, then terminators up to the end. *)
Lemma strncpy_terminated (n : nat) (key : string) :
  no_NUL key ->
  <[n := NUL]> (strncpy key (S n)) =
  list_ascii_of_string (str_take n key)
    ++ replicate (S n - String.length (str_take n key)) NUL.
Proof.
  revert key; induction n as [|n IH]; intros key Hkey.
  - destruct key as [|c s]; simpl; [reflexivity|].
    destruct (Ascii.eqb c NUL); reflexivity.
  - destruct key as [|c s].
    + change (strncpy EmptyString (S (S n))) with (replicate (S (S n)) NUL).
      rewrite insert_replicate. reflexivity.
    + destruct Hkey as [Hc Hs].
      change (strncpy (String c s) (S (S n)))
        with (if Ascii.eqb c NUL then replicate (S (S n)) NUL
              else c :: strncpy s (S n)).
      destruct (Ascii.eqb_spec c NUL) as [->|_]; [contradiction|].
      change (<[S n := NUL]> (c :: strncpy s (S n)))
        with (c :: <[n := NUL]> (strncpy s (S n))).
      rewrite (IH s Hs). reflexivity.
Qed.

(** ** Reading and writing stack entries *)

Section StackFacts.
Context `{B : Build} `{St : Store}.

Lemma entry_at_set_entry (ctx : parser_context) (i : Z) (e : stack_entry) :
  0 <= i < MAX_DEPTH -> stack_allocated ctx ->
  entry_at (set_entry ctx i e) i = e.
Proof.
  intros Hi Hlen. unfold entry_at, set_entry; simpl.
  rewrite list_lookup_insert_eq; [reflexivity|].
  unfold stack_allocated in Hlen. lia.
Qed.

Lemma entry_at_set_entry_other (ctx : parser_context) (i j : Z)
  (e : stack_entry) :
  0 <= i -> 0 <= j -> i <> j ->
  entry_at (set_entry ctx i e) j = entry_at ctx j.
Proof.
  intros Hi Hj Hne. unfold entry_at, set_entry; simpl.
  rewrite list_lookup_insert_ne; [reflexivity|]. lia.
Qed.

Lemma set_entry_allocated (ctx : parser_context) (i : Z) (e : stack_entry) :
  stack_allocated ctx -> stack_allocated (set_entry ctx i e).
Proof.
  unfold stack_allocated, set_entry; simpl. rewrite length_insert. auto.
Qed.

Lemma open_frame_test (ctx : parser_context) :
  0 <= stack_ptr ctx < MAX_DEPTH ->
  (stack_ptr ctx <? 0) || (MAX_DEPTH <=? stack_ptr ctx) = false.
Proof.
  intros H. apply orb_false_iff; split;
    [apply Z.ltb_ge | apply Z.leb_gt]; lia.
Qed.

End StackFacts.

(** ** The pending key *)

(** C6: [add_key] succeeds whenever a frame is open, and the key buffer
    then holds the first 79 characters of the key followed by
    terminators: read as a C string it is the key itself when the key
    has at most 79 characters, and its first 79 characters otherwise. *)
Theorem add_key_stores_truncated_key `{B : Build} `{St : Store}
  (ctx : parser_context) (key : string) :
  0 <= stack_ptr ctx < MAX_DEPTH ->
  stack_allocated ctx ->
  no_NUL key ->
  exists ctx',
    add_key ctx key = (ctx', 1) /\
    stack_ptr ctx' = stack_ptr ctx /\
    last_key (entry_at ctx' (stack_ptr ctx)) =
      list_ascii_of_string (str_take 79 key)
        ++ replicate (80 - String.length (str_take 79 key)) NUL /\
    c_str (last_key (entry_at ctx' (stack_ptr ctx))) =
      (if decide (String.length key <= 79)%nat then key
       else str_take 79 key) /\
    type (entry_at ctx' (stack_ptr ctx)) = type (entry_at ctx (stack_ptr ctx)) /\
    elems (entry_at ctx' (stack_ptr ctx)) = elems (entry_at ctx (stack_ptr ctx)).
Proof.
  intros Hsp Hlen Hkey. unfold add_key.
  rewrite (open_frame_test ctx Hsp).
  eexists; split; [reflexivity|].
  rewrite entry_at_set_entry by assumption.
  cbn [last_key type elems fst snd].
  rewrite (strncpy_terminated 79 key Hkey).
  repeat split.
  pose proof (str_take_length 79 key) as Htl.
  replace (80 - String.length (str_take 79 key))%nat
    with (S (79 - String.length (str_take 79 key))) by lia.
  rewrite c_str_padded by (apply no_NUL_str_take; assumption).
  destruct (decide (String.length key <= 79)%nat) as [Hle|_];
    [apply str_take_all; assumption | reflexivity].
Qed.

Lemma add_key_stores_truncated_key_witness :
  let ctx := one_frame_context OBJECT in
  let key := key_of_length 100 in
  exists ctx',
    @add_key build_plain RefStore.store ctx key = (ctx', 1) /\
    stack_ptr ctx' = stack_ptr ctx /\
    last_key (entry_at ctx' (stack_ptr ctx)) =
      list_ascii_of_string (str_take 79 key)
        ++ replicate (80 - String.length (str_take 79 key)) NUL /\
    c_str (last_key (entry_at ctx' (stack_ptr ctx))) =
      (if decide (String.length key <= 79)%nat then key
       else str_take 79 key) /\
    type (entry_at ctx' (stack_ptr ctx)) = type (entry_at ctx (stack_ptr ctx)) /\
    elems (entry_at ctx' (stack_ptr ctx)) = elems (entry_at ctx (stack_ptr ctx)).
Proof.
  intros ctx key.
  apply (@add_key_stores_truncated_key build_plain RefStore.store ctx key).
  - split; vm_compute; [discriminate | reflexivity].
  - reflexivity.
  - vm_compute. repeat (split; [discriminate|]). exact I.
Defined.

(** ** What each operation does to the stack pointer and the array *)

Section Frames.
Context `{B : Build} `{St : Store}.

Lemma set_entry_stack_ptr (ctx : parser_context) (i : Z) (e : stack_entry) :
  stack_ptr (set_entry ctx i e) = stack_ptr ctx.
Proof. reflexivity. Qed.

Lemma push_stack_ptr (ctx : parser_context) (ty : stack_entry_t) :
  stack_ptr (fst (push ctx ty)) = stack_ptr ctx + 1.
Proof. unfold push; cbn. case_match; reflexivity. Qed.

Lemma push_result (ctx : parser_context) (ty : stack_entry_t) :
  snd (push ctx ty) = if MAX_DEPTH <=? stack_ptr ctx + 1 then 0 else 1.
Proof. unfold push; cbn. case_match; reflexivity. Qed.

Lemma push_allocated (ctx : parser_context) (ty : stack_entry_t) :
  stack_allocated ctx -> stack_allocated (fst (push ctx ty)).
Proof.
  intros H. unfold push; cbn. case_match; cbn; [exact H|].
  apply set_entry_allocated. exact H.
Qed.

Lemma add_elem_stack_ptr (ctx : parser_context) (enc : gint) :
  stack_ptr (fst (add_elem ctx enc)) = stack_ptr ctx.
Proof. unfold add_elem. repeat case_match; reflexivity. Qed.

Lemma add_elem_allocated (ctx : parser_context) (enc : gint) :
  stack_allocated ctx -> stack_allocated (fst (add_elem ctx enc)).
Proof.
  intros H. unfold add_elem. repeat case_match; cbn; try exact H.
  apply set_entry_allocated. exact H.
Qed.

Lemma add_key_stack_ptr (ctx : parser_context) (key : string) :
  stack_ptr (fst (add_key ctx key)) = stack_ptr ctx.
Proof. unfold add_key. case_match; reflexivity. Qed.

Lemma add_key_allocated (ctx : parser_context) (key : string) :
  stack_allocated ctx -> stack_allocated (fst (add_key ctx key)).
Proof.
  intros H. unfold add_key. case_match; cbn -[strncpy]; [exact H|].
  apply set_entry_allocated. exact H.
Qed.

Lemma add_literal_stack_ptr (ctx : parser_context) (val : gint) :
  stack_ptr (fst (add_literal ctx val)) = stack_ptr ctx.
Proof.
  unfold add_literal.
  repeat case_match; try reflexivity; rewrite add_elem_stack_ptr; reflexivity.
Qed.

Lemma add_literal_allocated (ctx : parser_context) (val : gint) :
  stack_allocated ctx -> stack_allocated (fst (add_literal ctx val)).
Proof.
  intros H. unfold add_literal.
  repeat case_match; try exact H; apply add_elem_allocated; exact H.
Qed.

Lemma add_elem_document (ctx : parser_context) (enc : gint) :
  document (fst (add_elem ctx enc)) = document ctx.
Proof. unfold add_elem. repeat case_match; reflexivity. Qed.

Lemma add_literal_document (ctx : parser_context) (val : gint) :
  document (fst (add_literal ctx val)) = document ctx.
Proof.
  unfold add_literal.
  repeat case_match; try reflexivity; rewrite add_elem_document; reflexivity.
Qed.

Lemma pop_stack_ptr (ctx : parser_context) :
  stack_ptr (fst (pop ctx)) =
  if stack_ptr ctx <? 0 then stack_ptr ctx else stack_ptr ctx - 1.
Proof.
  unfold pop. destruct (stack_ptr ctx <? 0); [reflexivity|].
  repeat case_match; simplify_eq; try reflexivity;
    rewrite ?add_literal_stack_ptr; reflexivity.
Qed.

Lemma pop_allocated (ctx : parser_context) :
  stack_allocated ctx -> stack_allocated (fst (pop ctx)).
Proof.
  intros H. unfold pop. destruct (stack_ptr ctx <? 0); [exact H|].
  repeat case_match; simplify_eq; cbn;
    try apply add_literal_allocated;
    try (apply set_entry_allocated; exact H).
Qed.

End Frames.

(** ** The callback *)

Section Callback.
Context `{B : Build} `{St : Store}.

Lemma deliver_app (cb : JSON_parser_callback) (ctx : parser_context)
  (evs1 evs2 : list (JSON_type * JSON_value)) :
  deliver cb ctx (evs1 ++ evs2) =
  (let '(ctx1, ok) := deliver cb ctx evs1 in
   if ok then deliver cb ctx1 evs2 else (ctx1, false)).
Proof.
  revert ctx; induction evs1 as [|[ty v] evs1 IH]; intros ctx; simpl.
  - reflexivity.
  - destruct (cb ctx ty v) as [ctx' r]. destruct (r =? 0); [reflexivity|].
    apply IH.
Qed.

(** One call of the callback keeps the array allocated and the stack
    pointer between -1 and [MAX_DEPTH]; the pointer equals [MAX_DEPTH]
    only after a [push] that failed. *)
Lemma parse_json_cb_bounds (ctx : parser_context) (ty : JSON_type)
  (v : JSON_value) :
  stack_allocated ctx -> -1 <= stack_ptr ctx < MAX_DEPTH ->
  stack_allocated (fst (parse_json_cb ctx ty v)) /\
  -1 <= stack_ptr (fst (parse_json_cb ctx ty v)) <= MAX_DEPTH /\
  (snd (parse_json_cb ctx ty v) <> 0 ->
   stack_ptr (fst (parse_json_cb ctx ty v)) < MAX_DEPTH).
Proof.
  intros Hal Hsp.
  pose proof (push_stack_ptr ctx ARRAY) as Hpa.
  pose proof (push_result ctx ARRAY) as Hra.
  pose proof (push_allocated ctx ARRAY Hal) as Hla.
  pose proof (push_stack_ptr ctx OBJECT) as Hpo.
  pose proof (push_result ctx OBJECT) as Hro.
  pose proof (push_allocated ctx OBJECT Hal) as Hlo.
  pose proof (pop_stack_ptr ctx) as Hpp.
  pose proof (pop_allocated ctx Hal) as Hlp.
  pose proof (add_key_stack_ptr ctx (str_value v)) as Hk.
  pose proof (add_key_allocated ctx (str_value v) Hal) as Hlk.
  assert (Hlit : forall d val,
            stack_allocated (fst (add_literal (set_db ctx d) val)) /\
            stack_ptr (fst (add_literal (set_db ctx d) val)) = stack_ptr ctx).
  { intros d val. split.
    - apply add_literal_allocated. exact Hal.
    - rewrite add_literal_stack_ptr. reflexivity. }
  unfold parse_json_cb.
  destruct ty; cbn [fst snd]; try (repeat split; (lia || assumption)).
  - destruct (push ctx ARRAY) as [c r]; cbn [fst snd] in *.
    destruct (MAX_DEPTH <=? stack_ptr ctx + 1) eqn:E; subst r; cbn;
      repeat split; try assumption; lia.
  - destruct (pop ctx) as [c r]; cbn [fst snd] in *.
    destruct (stack_ptr ctx <? 0) eqn:E;
      destruct (r =? 0); cbn; repeat split; try assumption; lia.
  - destruct (push ctx OBJECT) as [c r]; cbn [fst snd] in *.
    destruct (MAX_DEPTH <=? stack_ptr ctx + 1) eqn:E; subst r; cbn;
      repeat split; try assumption; lia.
  - destruct (pop ctx) as [c r]; cbn [fst snd] in *.
    destruct (stack_ptr ctx <? 0) eqn:E;
      destruct (r =? 0); cbn; repeat split; try assumption; lia.
  - destruct (wg_encode_int (ctx_db ctx) (integer_value v)) as [d val].
    destruct (decide (val = WG_ILLEGAL)); cbn;
      [repeat split; (assumption || lia)|].
    destruct (Hlit d val) as [H1 H2].
    destruct (add_literal (set_db ctx d) val) as [c r]; cbn [fst snd] in *.
    destruct (r =? 0); cbn; repeat split; try assumption; lia.
  - destruct (wg_encode_double (ctx_db ctx) (float_value v)) as [d val].
    destruct (decide (val = WG_ILLEGAL)); cbn;
      [repeat split; (assumption || lia)|].
    destruct (Hlit d val) as [H1 H2].
    destruct (add_literal (set_db ctx d) val) as [c r]; cbn [fst snd] in *.
    destruct (r =? 0); cbn; repeat split; try assumption; lia.
  - destruct (wg_encode_str (ctx_db ctx) (as_c_string (str_value v)))
      as [d val].
    destruct (decide (val = WG_ILLEGAL)); cbn;
      [repeat split; (assumption || lia)|].
    destruct (Hlit d val) as [H1 H2].
    destruct (add_literal (set_db ctx d) val) as [c r]; cbn [fst snd] in *.
    destruct (r =? 0); cbn; repeat split; try assumption; lia.
  - destruct (add_key ctx (str_value v)) as [c r]; cbn [fst snd] in *.
    destruct (r =? 0); cbn; repeat split; try assumption; lia.
Qed.

(** The same for any number of events, delivered until one fails. *)
Lemma deliver_bounds (evs : list (JSON_type * JSON_value))
  (ctx : parser_context) :
  stack_allocated ctx -> -1 <= stack_ptr ctx < MAX_DEPTH ->
  stack_allocated (fst (deliver parse_json_cb ctx evs)) /\
  -1 <= stack_ptr (fst (deliver parse_json_cb ctx evs)) <= MAX_DEPTH /\
  (snd (deliver parse_json_cb ctx evs) = true ->
   stack_ptr (fst (deliver parse_json_cb ctx evs)) < MAX_DEPTH).
Proof.
  revert ctx; induction evs as [|[ty v] evs IH]; intros ctx Hal Hsp; simpl.
  - repeat split; (assumption || lia).
  - destruct (parse_json_cb_bounds ctx ty v Hal Hsp) as (H1 & H2 & H3).
    destruct (parse_json_cb ctx ty v) as [c r]; cbn [fst snd] in *.
    destruct (Z.eqb_spec r 0) as [->|Hr]; cbn.
    + repeat split; try assumption; try lia.
    + apply IH; [assumption|]. specialize (H3 Hr). lia.
Qed.

Lemma initial_context_allocated (env : c_env) (d : db) (param : bool)
  (doc : option rec_ptr) :
  stack_allocated (initial_context env d param doc).
Proof.
  unfold stack_allocated, initial_context; cbn.
  rewrite length_map, length_seq. reflexivity.
Qed.

(** Nested container begins: they all pass [push] exactly when the
    stack pointer stays below [MAX_DEPTH]. *)
Lemma deliver_begins (kinds : list stack_entry_t) (v : JSON_value)
  (ctx : parser_context) :
  stack_ptr ctx < MAX_DEPTH ->
  snd (deliver parse_json_cb ctx (map (begin_event v) kinds)) = true <->
  stack_ptr ctx + Z.of_nat (length kinds) < MAX_DEPTH.
Proof.
  revert ctx; induction kinds as [|k kinds IH]; intros ctx Hsp.
  - simpl. split; [intros _; lia | reflexivity].
  - cbn [map deliver begin_event length].
    assert (Hcb : parse_json_cb ctx (fst (begin_event v k)) v =
                  (fst (push ctx k),
                   if MAX_DEPTH <=? stack_ptr ctx + 1 then 0 else 1)).
    { pose proof (push_result ctx k) as Hr.
      destruct k; cbn; destruct (push ctx _) as [c r]; cbn in *; subst r;
        destruct (MAX_DEPTH <=? stack_ptr ctx + 1); reflexivity. }
    cbn [fst begin_event] in Hcb. rewrite Hcb.
    destruct (Z.leb_spec MAX_DEPTH (stack_ptr ctx + 1)) as [Hge|Hlt]; cbn.
    + split; [discriminate | lia].
    + rewrite IH by (rewrite push_stack_ptr; lia).
      rewrite push_stack_ptr. lia.
Qed.

End Callback.

(** ** Events the callback does not handle *)

(** C9: an event whose type is none of array-begin, array-end,
    object-begin, object-end, key, integer, float and string makes the
    callback return success with the context, and so the stack and the
    store, unchanged; in a sequence of events it is as if the event had
    not been there.  With the reference tokenizer and store, the text
    [[true]] gives one array record of length 0 and the result 0. *)
Theorem other_events_are_dropped `{B : Build} `{St : Store}
  (ty : JSON_type) (v : JSON_value) :
  ty <> JSON_T_ARRAY_BEGIN -> ty <> JSON_T_ARRAY_END ->
  ty <> JSON_T_OBJECT_BEGIN -> ty <> JSON_T_OBJECT_END ->
  ty <> JSON_T_KEY -> ty <> JSON_T_INTEGER ->
  ty <> JSON_T_FLOAT -> ty <> JSON_T_STRING ->
  (forall ctx, parse_json_cb ctx ty v = (ctx, 1)) /\
  (forall ctx evs1 evs2,
     deliver parse_json_cb ctx (evs1 ++ (ty, v) :: evs2) =
     deliver parse_json_cb ctx (evs1 ++ evs2)) /\
  (out_result (ref_parse_document 1 0 0 "[true]") = 0 /\
   RefStore.records (out_db (ref_parse_document 1 0 0 "[true]")) =
     [ {| RefStore.kind := RefStore.KArray; RefStore.is_document := true;
          RefStore.is_param := false; RefStore.fields := [] |} ]).
Proof.
  intros H1 H2 H3 H4 H5 H6 H7 H8.
  assert (Hcb : forall ctx, parse_json_cb ctx ty v = (ctx, 1)).
  { intros ctx. destruct ty; try reflexivity; congruence. }
  split; [exact Hcb|]. split.
  - intros ctx evs1 evs2. rewrite !deliver_app.
    destruct (deliver parse_json_cb ctx evs1) as [ctx1 [|]]; [|reflexivity].
    simpl. rewrite Hcb. reflexivity.
  - split; vm_compute; reflexivity.
Qed.

Lemma other_events_are_dropped_witness :
  (forall ctx,
     @parse_json_cb build_plain RefStore.store ctx JSON_T_TRUE no_value
     = (ctx, 1)) /\
  (forall ctx evs1 evs2,
     deliver (@parse_json_cb build_plain RefStore.store) ctx
       (evs1 ++ (JSON_T_TRUE, no_value) :: evs2) =
     deliver (@parse_json_cb build_plain RefStore.store) ctx (evs1 ++ evs2)) /\
  (out_result (ref_parse_document 1 0 0 "[true]") = 0 /\
   RefStore.records (out_db (ref_parse_document 1 0 0 "[true]")) =
     [ {| RefStore.kind := RefStore.KArray; RefStore.is_document := true;
          RefStore.is_param := false; RefStore.fields := [] |} ]).
Proof.
  apply (@other_events_are_dropped build_plain RefStore.store
           JSON_T_TRUE no_value); discriminate.
Defined.

(** ** The depth bound *)




(** ** Popping a frame *)

Section Pop.
Context `{B : Build} `{St : Store}.

(** [pop] on an open frame, once the creation has given a record and
    the field loop has ended with [ret]: the entry is cleared, its cells
    are given back, and either the document slot is written (outermost
    frame) or, if [ret] is 1, the handle goes to [add_literal]. *)
Lemma pop_created (ctx : parser_context) (d1 d2 : db) (r : rec_ptr) (ret : Z) :
  0 <= stack_ptr ctx ->
  create_for (entry_at ctx (stack_ptr ctx)) (ctx_db ctx)
    (stack_ptr ctx - 1 <? 0) (isparam ctx) = (d1, Some r) ->
  set_fields d1 r 0 (elems (entry_at ctx (stack_ptr ctx))) = (d2, ret) ->
  let e := entry_at ctx (stack_ptr ctx) in
  let top := stack_ptr ctx - 1 <? 0 in
  let freed :=
    set_entry
      (set_heap_nodes
         (let c := set_db (set_db (set_stack_ptr ctx (stack_ptr ctx - 1)) d1) d2 in
          if top then set_document c (Some r) else c)
         (heap_nodes ctx + length (elems e))%nat)
      (stack_ptr ctx)
      {| type := type e; elems := []; last_key := last_key e; size := 0 |} in
  pop ctx =
  if negb top && negb (ret =? 0)
  then add_literal freed (wg_encode_record d2 r)
  else (freed, ret).
Proof.
  intros Hsp Hcreate Hset. unfold pop, create_for in *.
  destruct (Z.ltb_spec (stack_ptr ctx) 0) as [Hneg|_]; [lia|].
  cbn [stack_ptr set_stack_ptr ctx_db isparam].
  destruct (type (entry_at ctx (stack_ptr ctx)));
    rewrite Hcreate; cbn [ctx_db set_db]; rewrite Hset;
    destruct (stack_ptr ctx - 1 <? 0); reflexivity.
Qed.

(** [pop] when the creation gives no record. *)
Lemma pop_not_created (ctx : parser_context) (d1 : db) :
  0 <= stack_ptr ctx ->
  create_for (entry_at ctx (stack_ptr ctx)) (ctx_db ctx)
    (stack_ptr ctx - 1 <? 0) (isparam ctx) = (d1, None) ->
  snd (pop ctx) = 0 /\
  document (fst (pop ctx)) = document ctx /\
  ctx_db (fst (pop ctx)) = d1.
Proof.
  intros Hsp Hcreate. unfold pop, create_for in *.
  destruct (Z.ltb_spec (stack_ptr ctx) 0) as [Hneg|_]; [lia|].
  cbn [stack_ptr set_stack_ptr ctx_db isparam].
  destruct (type (entry_at ctx (stack_ptr ctx)));
    rewrite Hcreate; repeat split.
Qed.

End Pop.

Section PopClaims.
Context `{B : Build} `{St : Store}.

Lemma add_elem_open (ctx : parser_context) (enc : gint) (n : nat) :
  0 <= stack_ptr ctx < MAX_DEPTH ->
  heap_nodes ctx = S n ->
  add_elem ctx enc =
  (set_entry (set_heap_nodes ctx n) (stack_ptr ctx)
     {| type := type (entry_at ctx (stack_ptr ctx));
        elems := elems (entry_at ctx (stack_ptr ctx)) ++ [enc];
        last_key := last_key (entry_at ctx (stack_ptr ctx));
        size := size (entry_at ctx (stack_ptr ctx)) + 1 |}, 1).
Proof.
  intros Hsp Hn. unfold add_elem.
  rewrite (open_frame_test ctx Hsp), Hn. reflexivity.
Qed.

(** What [add_elem] leaves in the entry it appends to. *)
Lemma add_elem_appends (ctx : parser_context) (enc : gint) :
  0 <= stack_ptr ctx < MAX_DEPTH -> stack_allocated ctx ->
  (0 < heap_nodes ctx)%nat ->
  snd (add_elem ctx enc) = 1 /\
  ctx_db (fst (add_elem ctx enc)) = ctx_db ctx /\
  document (fst (add_elem ctx enc)) = document ctx /\
  elems (entry_at (fst (add_elem ctx enc)) (stack_ptr ctx)) =
    elems (entry_at ctx (stack_ptr ctx)) ++ [enc] /\
  size (entry_at (fst (add_elem ctx enc)) (stack_ptr ctx)) =
    size (entry_at ctx (stack_ptr ctx)) + 1.
Proof.
  intros Hsp Hal Hn.
  destruct (heap_nodes ctx) as [|n] eqn:Hh; [lia|].
  rewrite (add_elem_open ctx enc n Hsp Hh). cbn [fst snd].
  rewrite entry_at_set_entry by assumption.
  repeat split.
Qed.

Lemma add_literal_array (ctx : parser_context) (val : gint) :
  0 <= stack_ptr ctx < MAX_DEPTH ->
  type (entry_at ctx (stack_ptr ctx)) = ARRAY ->
  add_literal ctx val = add_elem ctx val.
Proof.
  intros Hsp Hty. unfold add_literal.
  rewrite (open_frame_test ctx Hsp), Hty. reflexivity.
Qed.

Lemma add_literal_object (ctx : parser_context) (val key : gint)
  (d3 d4 : db) (kv : rec_ptr) :
  0 <= stack_ptr ctx < MAX_DEPTH ->
  type (entry_at ctx (stack_ptr ctx)) = OBJECT ->
  wg_encode_str (ctx_db ctx) (c_str (last_key (entry_at ctx (stack_ptr ctx))))
    = (d3, key) ->
  key <> WG_ILLEGAL ->
  wg_create_kvpair d3 key val (isparam ctx) = (d4, Some kv) ->
  add_literal ctx val = add_elem (set_db ctx d4) (wg_encode_record d4 kv).
Proof.
  intros Hsp Hty Hkey Hlegal Hkv. unfold add_literal.
  rewrite (open_frame_test ctx Hsp), Hty, Hkey.
  destruct (decide (key = WG_ILLEGAL)) as [Heq|_]; [contradiction|].
  cbn [ctx_db set_db isparam]. rewrite Hkv. reflexivity.
Qed.

(** C2, amended: a pop that leaves the stack non-empty, after the
    record has been created and filled, hands the record's encoded
    handle to [add_literal] on the new top frame.  If that frame is an
    array the handle itself is appended as one child.  If it is an
    object, a key-value pair of the frame's pending key and the handle
    is created, and the handle of the pair is the child that is
    appended.  The outermost pop appends nothing and stores the record
    in the document slot. *)
Theorem pop_hands_record_to_add_literal (ctx : parser_context)
  (d1 d2 : db) (r : rec_ptr) :
  let e := entry_at ctx (stack_ptr ctx) in
  let parent := entry_at ctx (stack_ptr ctx - 1) in
  let enc := wg_encode_record d2 r in
  0 <= stack_ptr ctx < MAX_DEPTH ->
  stack_allocated ctx ->
  create_for e (ctx_db ctx) (stack_ptr ctx - 1 <? 0) (isparam ctx)
    = (d1, Some r) ->
  set_fields d1 r 0 (elems e) = (d2, 1) ->
  (0 < heap_nodes ctx + length (elems e))%nat ->
  stack_ptr (fst (pop ctx)) = stack_ptr ctx - 1 /\
  (stack_ptr ctx = 0 ->
   snd (pop ctx) = 1 /\ document (fst (pop ctx)) = Some r /\
   ctx_db (fst (pop ctx)) = d2) /\
  (0 < stack_ptr ctx ->
   document (fst (pop ctx)) = document ctx /\
   match type parent with
   | ARRAY =>
       snd (pop ctx) = 1 /\ ctx_db (fst (pop ctx)) = d2 /\
       elems (entry_at (fst (pop ctx)) (stack_ptr ctx - 1)) =
         elems parent ++ [enc]
   | OBJECT =>
       forall d3 key d4 kv,
         wg_encode_str d2 (c_str (last_key parent)) = (d3, key) ->
         key <> WG_ILLEGAL ->
         wg_create_kvpair d3 key enc (isparam ctx) = (d4, Some kv) ->
         snd (pop ctx) = 1 /\ ctx_db (fst (pop ctx)) = d4 /\
         elems (entry_at (fst (pop ctx)) (stack_ptr ctx - 1)) =
           elems parent ++ [wg_encode_record d4 kv]
   end).
Proof.
  intros e parent enc Hsp Hal Hcreate Hset Hheap. subst enc.
  split; [rewrite pop_stack_ptr; destruct (Z.ltb_spec (stack_ptr ctx) 0); lia|].
  rewrite (pop_created ctx d1 d2 r 1 ltac:(lia) Hcreate Hset).
  fold e. cbn [Z.eqb negb andb].
  split.
  - intros Hzero. rewrite Hzero. cbn. repeat split.
  - intros Hpos.
    destruct (Z.ltb_spec (stack_ptr ctx - 1) 0) as [Hneg|_]; [lia|].
    cbn [negb andb].
    set (freed := set_entry _ (stack_ptr ctx) _).
    assert (Hfsp : stack_ptr freed = stack_ptr ctx - 1) by reflexivity.
    assert (Hfal : stack_allocated freed)
      by (apply set_entry_allocated; exact Hal).
    assert (Hfparent : entry_at freed (stack_ptr freed) = parent).
    { rewrite Hfsp. unfold freed.
      rewrite entry_at_set_entry_other by lia. reflexivity. }
    assert (Hfh : (0 < heap_nodes freed)%nat) by exact Hheap.
    split; [rewrite add_literal_document; reflexivity|].
    destruct (type parent) eqn:Hty.
    + rewrite add_literal_array by (rewrite ?Hfparent, ?Hfsp; (lia || assumption)).
      destruct (add_elem_appends freed (wg_encode_record d2 r)
                  ltac:(lia) Hfal Hfh)
        as (H1 & H2 & _ & H4 & _).
      rewrite Hfparent in H4. rewrite Hfsp in H4. auto.
    + intros d3 key d4 kv Hkey Hlegal Hkv.
      rewrite (add_literal_object freed (wg_encode_record d2 r) key d3 d4 kv)
        by (rewrite ?Hfparent, ?Hfsp; (lia || assumption)).
      destruct (add_elem_appends (set_db freed d4) (wg_encode_record d4 kv)
                  ltac:(cbn; lia) Hfal Hfh) as (H1 & H2 & _ & H4 & _).
      change (entry_at (set_db freed d4) (stack_ptr (set_db freed d4)))
        with (entry_at freed (stack_ptr freed)) in H4.
      rewrite Hfparent in H4.
      change (stack_ptr (set_db freed d4)) with (stack_ptr ctx - 1) in H4.
      auto.
Qed.

End PopClaims.

(** C2, the claim as stated fails: in the middle of [{"b":[2,3]}] the
    pop of the array leaves the object frame on top.  The array is
    record 0, and the child appended to the object frame is not its
    handle but the handle of record 1, a key-value pair made of the key
    [b] and the handle of record 0. *)
Lemma pop_into_object_wraps_handle :
  let ctx := ctx_array_in_object in
  let ctx' := fst (@pop build_plain RefStore.store ctx) in
  snd (@pop build_plain RefStore.store ctx) = 1 /\
  stack_ptr ctx = 1 /\ stack_ptr ctx' = 0 /\
  type (entry_at ctx' 0) = OBJECT /\
  RefStore.records (ctx_db ctx') =
    [ {| RefStore.kind := RefStore.KArray; RefStore.is_document := false;
         RefStore.is_param := false;
         RefStore.fields := [RefStore.EInt 2; RefStore.EInt 3] |};
      {| RefStore.kind := RefStore.KKVPair; RefStore.is_document := false;
         RefStore.is_param := false;
         RefStore.fields := [RefStore.EStr "b"; RefStore.ERecord 0] |} ] /\
  elems (entry_at ctx 0) = [] /\
  elems (entry_at ctx' 0) = [RefStore.ERecord 1] /\
  elems (entry_at ctx' 0) <>
    elems (entry_at ctx 0) ++ [wg_encode_record (ctx_db ctx') 0%nat].
Proof.
  cbv zeta. repeat split; try (vm_compute; reflexivity).
  vm_compute. discriminate.
Qed.

Lemma pop_hands_record_to_add_literal_witness :
  snd (@pop build_plain RefStore.store ctx_array_in_object) = 1 /\
  elems (entry_at (fst (@pop build_plain RefStore.store ctx_array_in_object)) 0)
  = [RefStore.ERecord 1].
Proof.
  pose (d1 := fst (@create_for RefStore.store
                     (entry_at ctx_array_in_object 1)
                     (ctx_db ctx_array_in_object) false false)).
  pose (d2 := fst (@set_fields RefStore.store d1 0%nat 0
                     [RefStore.EInt 2; RefStore.EInt 3])).
  destruct (@pop_hands_record_to_add_literal build_plain RefStore.store
              ctx_array_in_object d1 d2 0%nat) as (_ & _ & Hinner).
  - split; vm_compute; [discriminate | reflexivity].
  - reflexivity.
  - vm_compute. reflexivity.
  - vm_compute. reflexivity.
  - vm_compute. lia.
  - destruct Hinner as [_ Hparent]; [vm_compute; reflexivity|].
    change (type (entry_at ctx_array_in_object
                    (stack_ptr ctx_array_in_object - 1)))
      with OBJECT in Hparent.
    destruct (Hparent d2 (RefStore.EStr "b")
                (fst (RefStore.create_kvpair d2 (RefStore.EStr "b")
                        (RefStore.ERecord 0) false)) 1%nat)
      as (H1 & _ & H3).
    + vm_compute. reflexivity.
    + discriminate.
    + vm_compute. reflexivity.
    + split; [exact H1 | exact H3].
Defined.

(** ** A field write that fails in the outermost pop *)

Section FailedWrite.
Context `{B : Build} `{St : Store}.

Lemma set_fields_result (d : db) (r : rec_ptr) (i : Z) (l : list gint) :
  snd (set_fields d r i l) = 0 \/ snd (set_fields d r i l) = 1.
Proof.
  revert d i; induction l as [|enc l IH]; intros d i; simpl.
  - right; reflexivity.
  - destruct (wg_set_field d r i enc) as [d' rc].
    destruct (rc =? 0); [apply IH | left; reflexivity].
Qed.

(** The loop gives 0 exactly when one of its [wg_set_field] calls
    returned nonzero: the call for the element after a prefix whose
    calls all returned 0. *)
Lemma set_fields_fails (d : db) (r : rec_ptr) (i : Z) (l : list gint) (d' : db) :
  set_fields d r i l = (d', 0) <->
  exists done enc rest dm rc,
    l = done ++ enc :: rest /\
    set_fields d r i done = (dm, 1) /\
    wg_set_field dm r (i + Z.of_nat (length done)) enc = (d', rc) /\
    rc <> 0.
Proof.
  revert d i; induction l as [|enc l IH]; intros d i.
  - simpl. split; [discriminate|].
    intros (done & e & rest & dm & rc & Hl & _). destruct done; discriminate.
  - simpl. destruct (wg_set_field d r i enc) as [d1 rc] eqn:Hw.
    destruct (Z.eqb_spec rc 0) as [->|Hrc].
    + rewrite IH. split.
      * intros (done & e & rest & dm & rc & Hl & Hdone & Hcall & Hrc).
        exists (enc :: done), e, rest, dm, rc. simpl. rewrite Hw. simpl.
        repeat split; try assumption; [congruence|].
        match goal with
        | |- wg_set_field _ _ ?x _ = _ =>
            replace x with (i + 1 + Z.of_nat (length done)) by lia
        end. exact Hcall.
      * intros (done & e & rest & dm & rc & Hl & Hdone & Hcall & Hrc).
        destruct done as [|x done].
        -- simpl in *. simplify_eq. rewrite Z.add_0_r in Hcall.
           rewrite Hw in Hcall. simplify_eq.
        -- simpl in Hl, Hdone. simplify_eq. rewrite Hw in Hdone.
           simpl in Hdone.
           exists done, e, rest, dm, rc. repeat split; try assumption.
           match goal with
           | |- wg_set_field _ _ ?x _ = _ =>
               replace x with (i + Z.of_nat (S (length done))) by lia
           end. exact Hcall.
    + split.
      * intros Heq. simplify_eq.
        exists [], enc, l, d, rc. simpl. rewrite Z.add_0_r.
        repeat split; assumption.
      * intros (done & e & rest & dm & rc' & Hl & Hdone & Hcall & Hrc').
        destruct done as [|x done].
        -- simpl in *. simplify_eq. rewrite Z.add_0_r in Hcall.
           rewrite Hw in Hcall. simplify_eq. reflexivity.
        -- simpl in Hl, Hdone. simplify_eq. rewrite Hw in Hdone.
           destruct (Z.eqb_spec rc 0); [contradiction|discriminate].
Qed.

(** C10: when the outermost frame is popped, the record is created,
    and the field loop ends at a [wg_set_field] that returns nonzero,
    [pop] returns 0 and the document slot holds the new record all the
    same; the end event makes the callback fail with the slot written.
    With the reference tokenizer, and a reference store that takes one
    field write only, [wg_parse_json_param] on [[1,2]] returns -2 and
    leaves in the slot a record whose second field was never set. *)
Theorem failed_field_write_leaves_document (ctx : parser_context)
  (d1 d2 : db) (r : rec_ptr) (done rest : list gint) (enc : gint) (rc : Z)
  (dm : db) :
  let e := entry_at ctx (stack_ptr ctx) in
  stack_ptr ctx = 0 ->
  create_for e (ctx_db ctx) true (isparam ctx) = (d1, Some r) ->
  elems e = done ++ enc :: rest ->
  set_fields d1 r 0 done = (dm, 1) ->
  wg_set_field dm r (Z.of_nat (length done)) enc = (d2, rc) ->
  rc <> 0 ->
  (snd (pop ctx) = 0 /\
   document (fst (pop ctx)) = Some r /\
   ctx_db (fst (pop ctx)) = d2 /\
   forall ty v,
     ty = JSON_T_ARRAY_END \/ ty = JSON_T_OBJECT_END ->
     snd (parse_json_cb ctx ty v) = 0 /\
     document (fst (parse_json_cb ctx ty v)) = Some r) /\
  (out_result (ref_parse_param 8 1 8 "[1,2]" None) = -2 /\
   out_document (ref_parse_param 8 1 8 "[1,2]" None) = Some 0%nat /\
   RefStore.records (out_db (ref_parse_param 8 1 8 "[1,2]" None)) =
     [ {| RefStore.kind := RefStore.KArray; RefStore.is_document := true;
          RefStore.is_param := true;
          RefStore.fields := [RefStore.EInt 1; RefStore.ENull] |} ]).
Proof.
  intros e Hsp Hcreate Helems Hdone Hcall Hrc.
  assert (Hset : set_fields d1 r 0 (elems e) = (d2, 0)).
  { apply set_fields_fails.
    exists done, enc, rest, dm, rc. rewrite Z.add_0_l.
    repeat split; assumption. }
  assert (Hpop : snd (pop ctx) = 0 /\ document (fst (pop ctx)) = Some r /\
                 ctx_db (fst (pop ctx)) = d2).
  { assert (Htop : (stack_ptr ctx - 1 <? 0) = true)
      by (rewrite Hsp; reflexivity).
    pose proof (pop_created ctx d1 d2 r 0 ltac:(lia)) as Hp.
    rewrite Htop in Hp. specialize (Hp Hcreate Hset).
    cbv zeta in Hp. rewrite Hp. cbn. repeat split. }
  split; [|repeat split; vm_compute; reflexivity].
  destruct Hpop as (Hp1 & Hp2 & Hp3).
  repeat split; try assumption;
    destruct H as [-> | ->]; unfold parse_json_cb;
    destruct (pop ctx) as [c ret]; cbn [fst snd] in *; subst ret;
    cbn; (reflexivity || assumption).
Qed.

End FailedWrite.

Lemma failed_field_write_leaves_document_witness :
  let ctx :=
    fst (deliver (@parse_json_cb build_plain RefStore.store)
           (ref_context 8 1 8 true)
           [ev JSON_T_ARRAY_BEGIN; ev_int 1; ev_int 2]) in
  snd (@pop build_plain RefStore.store ctx) = 0 /\
  document (fst (@pop build_plain RefStore.store ctx)) = Some 0%nat.
Proof.
  intros ctx.
  pose (d1 := fst (@create_for RefStore.store (entry_at ctx 0)
                     (ctx_db ctx) true true)).
  pose (dm := fst (RefStore.set_field d1 0 0 (RefStore.EInt 1))).
  destruct (@failed_field_write_leaves_document build_plain RefStore.store
              ctx d1 dm 0%nat [RefStore.EInt 1] [] (RefStore.EInt 2) (-1) dm)
    as [(H1 & H2 & _) _].
  - reflexivity.
  - reflexivity.
  - reflexivity.
  - reflexivity.
  - reflexivity.
  - discriminate.
  - split; assumption.
Defined.

(** ** The in-memory drivers *)

Section DriverFacts.
Context `{B : Build} `{St : Store} `{Tk : !Tokenizer}.

(** The loop of [run_json_parser] against the events of the text: the
    result is 0 or -2; it is 0 exactly when the tokenizer accepts the
    text and no callback fails; the context left behind is the one the
    callback has made of the events, up to the first failure. *)
Lemma parser_loop_spec (cb : JSON_parser_callback) (iptr : list ascii) :
  forall (jc : JSON_parser_struct) (ctx : parser_context) (count : Z),
    (snd (parser_loop cb jc ctx iptr count) = 0 \/
     snd (parser_loop cb jc ctx iptr count) = -2) /\
    (snd (parser_loop cb jc ctx iptr count) = 0 <->
     lex_accepts jc iptr = true /\
     snd (deliver cb ctx (lex_events jc iptr)) = true) /\
    fst (fst (parser_loop cb jc ctx iptr count)) =
      fst (deliver cb ctx (lex_events jc iptr)).
Proof.
  assert (Hend : forall (jc : JSON_parser_struct) (ctx : parser_context),
    let at_end : parser_context * string * Z :=
      if JSON_parser_done jc then (ctx, EmptyString, 0)
      else (ctx, fst (show_json_error "JSON parsing failed"), -2) in
    (snd at_end = 0 \/ snd at_end = -2) /\
    (snd at_end = 0 <-> JSON_parser_done jc = true /\ true = true) /\
    fst (fst at_end) = ctx).
  { intros jc ctx. destruct (JSON_parser_done jc); cbn; intuition congruence. }
  induction iptr as [|c iptr IH]; intros jc ctx count.
  - cbn [parser_loop lex_accepts lex_events deliver fst snd]. apply Hend.
  - cbn [parser_loop lex_accepts lex_events].
    destruct (Ascii.eqb c NUL); [apply Hend|].
    unfold JSON_parser_char.
    destruct (JSON_parser_lex jc c) as [evs next]. cbn [fst snd].
    rewrite deliver_app.
    destruct (deliver cb ctx evs) as [ctx1 ok].
    destruct ok.
    + destruct next as [jc'|].
      * cbn [Z.eqb]. apply IH.
      * cbn. repeat split; try (right; reflexivity); try discriminate.
        intros [? _]; discriminate.
    + cbn. repeat split; try (right; reflexivity); try discriminate.
      intros [_ ?]; discriminate.
Qed.

Lemma run_json_parser_spec (env : c_env) (d : db) (buf : string)
  (param : bool) (doc : option rec_ptr) :
  let o := run_json_parser env d buf parse_json_cb param doc in
  let run := deliver parse_json_cb (initial_context env d param doc)
               (tokenizer_events buf) in
  (out_result o = 0 \/ out_result o = -2) /\
  (out_result o = 0 <-> tokenizer_accepts buf = true /\ snd run = true) /\
  out_db o = ctx_db (fst run) /\
  out_document o = document (fst run).
Proof.
  cbv zeta. unfold run_json_parser, tokenizer_accepts, tokenizer_events.
  pose proof (parser_loop_spec parse_json_cb (list_ascii_of_string buf)
                (new_JSON_parser parser_config)
                (initial_context env d param doc) 0) as (H1 & H2 & H3).
  destruct (parser_loop parse_json_cb _ _ _ 0) as [[ctx' err] res].
  cbn [fst snd out_result out_db out_document] in *.
  subst ctx'. split; [exact H1|]. split; [exact H2|]. split; reflexivity.
Qed.

End DriverFacts.

(** C1, the claim as stated fails: the reference tokenizer rejects the
    malformed object; both in-memory drivers return -2 for it, not -1,
    and the store is as it was. *)
Lemma malformed_object_is_fatal :
  @tokenizer_accepts build_plain RefStore.store ref_tokenizer
    malformed_object = false /\
  out_result (ref_parse_document 8 8 8 malformed_object) = -2 /\
  out_result (ref_parse_param 8 8 8 malformed_object None) = -2 /\
  out_result (ref_parse_document 8 8 8 malformed_object) <> -1 /\
  out_result (ref_parse_param 8 8 8 malformed_object None) <> -1 /\
  out_db (ref_parse_document 8 8 8 malformed_object) = RefStore.empty 8 8 /\
  out_db (ref_parse_param 8 8 8 malformed_object None) = RefStore.empty 8 8.
Proof. repeat split; vm_compute; (reflexivity || discriminate). Qed.

(** C1, amended: for every in-memory buffer the document driver and
    the parameter driver return 0 or Fatal (-2), never NonFatal (-1).
    The result is 0 exactly when the tokenizer accepts the buffer and
    every call of the callback succeeds, and -2 otherwise: a buffer the
    tokenizer rejects as syntactically invalid gets -2 like a failure
    of a store-mutation step, whether or not the store was touched. *)
Theorem in_memory_drivers_return_0_or_fatal
  `{B : Build} `{St : Store} `{Tk : !Tokenizer}
  (env : c_env) (d : db) (buf : string) (doc : option rec_ptr) :
  let od := wg_parse_json_document env d buf in
  let op := wg_parse_json_param env d buf doc in
  (out_result od = 0 \/ out_result od = -2) /\
  (out_result op = 0 \/ out_result op = -2) /\
  (tokenizer_accepts buf = false ->
   out_result od = -2 /\ out_result op = -2) /\
  (out_result od = 0 <->
   tokenizer_accepts buf = true /\
   snd (deliver parse_json_cb (initial_context env d false None)
          (tokenizer_events buf)) = true) /\
  (out_result op = 0 <->
   tokenizer_accepts buf = true /\
   snd (deliver parse_json_cb (initial_context env d true doc)
          (tokenizer_events buf)) = true).
Proof.
  cbv zeta. unfold wg_parse_json_document, wg_parse_json_param.
  destruct (run_json_parser_spec env d buf false None) as (Hd1 & Hd2 & _).
  destruct (run_json_parser_spec env d buf true doc) as (Hp1 & Hp2 & _).
  cbv zeta in *.
  split; [exact Hd1|]. split; [exact Hp1|].
  split; [|split; [exact Hd2 | exact Hp2]].
  intros Hrej. split.
  - destruct Hd1 as [H0|H0]; [|exact H0].
    apply Hd2 in H0. destruct H0 as [Hacc _]. congruence.
  - destruct Hp1 as [H0|H0]; [|exact H0].
    apply Hp2 in H0. destruct H0 as [Hacc _]. congruence.
Qed.

Lemma in_memory_drivers_return_0_or_fatal_witness :
  out_result (ref_parse_document 8 8 8 malformed_object) = -2 /\
  out_result (ref_parse_param 8 8 8 malformed_object None) = -2.
Proof.
  destruct (@in_memory_drivers_return_0_or_fatal build_plain RefStore.store
              ref_tokenizer (plain_env 8) (RefStore.empty 8 8)
              malformed_object None) as (_ & _ & H & _).
  apply H. vm_compute. reflexivity.
Defined.

(** ** Printing *)

(** C8: for a record that is not a document, [wg_print_json_document]
    writes nothing to the output stream, whatever was written before
    stays as it is, and the diagnostic goes to stderr; for a record
    that is a document it does what [pretty_print_json] does from
    indent 0, without comma, with newline. *)
Theorem print_rejects_non_document `{B : Build} `{St : Store}
  (fuel : nat) (d : db) (out : printer_state) (document : rec_ptr) :
  (is_schema_document d document = false ->
   wg_print_json_document fuel d out document =
   Some (fst out,
         snd out +:+ fst (show_json_error "Given record is not a document")))
  /\
  (is_schema_document d document = true ->
   wg_print_json_document fuel d out document =
   option_map fst (pretty_print_json fuel d out document 0 0 1)).
Proof.
  unfold wg_print_json_document. split; intros ->; cbn [negb].
  - reflexivity.
  - destruct (pretty_print_json fuel d out document 0 0 1) as [[o r]|];
      reflexivity.
Qed.

Lemma print_rejects_non_document_witness :
  @wg_print_json_document build_plain RefStore.store 0 nested_db
    (EmptyString, EmptyString) 0%nat =
  Some (EmptyString,
        EmptyString +:+
        fst (@show_json_error build_plain "Given record is not a document")) /\
  @wg_print_json_document build_plain RefStore.store 4 nested_db
    (EmptyString, EmptyString) 1%nat =
  option_map fst
    (@pretty_print_json build_plain RefStore.store 4 nested_db
       (EmptyString, EmptyString) 1%nat 0 0 1).
Proof.
  destruct (@print_rejects_non_document build_plain RefStore.store
              0 nested_db (EmptyString, EmptyString) 0%nat) as [Hno _].
  destruct (@print_rejects_non_document build_plain RefStore.store
              4 nested_db (EmptyString, EmptyString) 1%nat) as [_ Hyes].
  split; [apply Hno | apply Hyes]; vm_compute; reflexivity.
Defined.

(** ** The open frames under each operation *)

Section OpenFrames.
Context `{B : Build} `{St : Store}.

Lemma open_frames_top (ctx : parser_context) (below : list stack_entry)
  (e : stack_entry) :
  well_formed ctx -> open_frames ctx = below ++ [e] ->
  stack_ptr ctx = Z.of_nat (length below) /\
  entry_at ctx (stack_ptr ctx) = e.
Proof.
  intros [Hal Hsp] Hof. unfold open_frames in Hof.
  unfold stack_allocated in Hal.
  assert (Hlen : length (take (Z.to_nat (stack_ptr ctx + 1)) (stack ctx))
                 = S (length below)).
  { rewrite Hof, length_app. simpl. lia. }
  rewrite length_take in Hlen.
  assert (Hptr : stack_ptr ctx = Z.of_nat (length below)) by lia.
  split; [exact Hptr|].
  unfold entry_at. rewrite Hptr, Nat2Z.id.
  assert (Hl : (below ++ [e]) !! length below = Some e).
  { rewrite lookup_app_r by lia. rewrite Nat.sub_diag. reflexivity. }
  rewrite <- Hof in Hl. rewrite lookup_take_lt in Hl by lia.
  rewrite Hl. reflexivity.
Qed.

Lemma open_frames_set_top (ctx : parser_context) (below : list stack_entry)
  (e e' : stack_entry) :
  well_formed ctx -> open_frames ctx = below ++ [e] ->
  open_frames (set_entry ctx (stack_ptr ctx) e') = below ++ [e'].
Proof.
  intros Hwf Hof.
  destruct (open_frames_top ctx below e Hwf Hof) as [Hptr _].
  destruct Hwf as [Hal Hsp]. unfold stack_allocated in Hal.
  unfold open_frames, set_entry in *. cbn [stack stack_ptr set_stack].
  rewrite Hptr in *. rewrite Nat2Z.id.
  replace (Z.to_nat (Z.of_nat (length below) + 1)) with (S (length below))
    in * by lia.
  rewrite take_insert_lt by lia. rewrite Hof.
  rewrite insert_app_r_alt by lia. rewrite Nat.sub_diag. reflexivity.
Qed.

Lemma open_frames_below (ctx : parser_context) (below : list stack_entry)
  (e e' : stack_entry) :
  well_formed ctx -> open_frames ctx = below ++ [e] ->
  open_frames (set_entry (set_stack_ptr ctx (stack_ptr ctx - 1))
                 (stack_ptr ctx) e') = below.
Proof.
  intros Hwf Hof.
  destruct (open_frames_top ctx below e Hwf Hof) as [Hptr _].
  destruct Hwf as [Hal Hsp]. unfold stack_allocated in Hal.
  unfold open_frames, set_entry in *.
  cbn [stack stack_ptr set_stack set_stack_ptr].
  rewrite Hptr in *.
  replace (Z.to_nat (Z.of_nat (length below) + 1)) with (S (length below))
    in * by lia.
  replace (Z.to_nat (Z.of_nat (length below) - 1 + 1)) with (length below)
    by lia.
  rewrite Nat2Z.id. rewrite take_insert_ge by lia.
  assert (Ht : take (length below) (take (S (length below)) (stack ctx))
               = take (length below) (below ++ [e])) by (rewrite Hof; reflexivity).
  rewrite take_take in Ht. rewrite Nat.min_l in Ht by lia.
  rewrite Ht. rewrite take_app_length. reflexivity.
Qed.

Lemma open_frames_push (ctx : parser_context) (ty : stack_entry_t) :
  well_formed ctx -> stack_ptr ctx + 1 < MAX_DEPTH ->
  snd (push ctx ty) = 1 /\
  well_formed (fst (push ctx ty)) /\
  obs (fst (push ctx ty)) =
    (open_frames ctx ++
       [fresh_entry ty (last_key (entry_at ctx (stack_ptr ctx + 1)))],
     ctx_db ctx, heap_nodes ctx, document ctx, isparam ctx).
Proof.
  intros [Hal Hsp] Hroom. unfold stack_allocated in Hal.
  unfold push. cbn [stack_ptr set_stack_ptr].
  destruct (Z.leb_spec MAX_DEPTH (stack_ptr ctx + 1)) as [|_]; [lia|].
  cbn [fst snd]. split; [reflexivity|]. split.
  - split; [apply set_entry_allocated; exact Hal | cbn; lia].
  - unfold obs, open_frames, set_entry, entry_at.
    cbn [stack stack_ptr set_stack set_stack_ptr ctx_db heap_nodes
         document isparam].
    repeat f_equal.
    replace (Z.to_nat (stack_ptr ctx + 1 + 1))
      with (S (Z.to_nat (stack_ptr ctx + 1))) by lia.
    set (n := Z.to_nat (stack_ptr ctx + 1)).
    assert (Hn : (n < length (stack ctx))%nat) by (unfold n; lia).
    rewrite (take_S_r _ _ (fresh_entry ty
               (last_key (default no_entry (stack ctx !! n))))).
    + rewrite take_insert_ge by lia. reflexivity.
    + apply list_lookup_insert_eq. exact Hn.
Qed.

End OpenFrames.

Section OpenFramesOps.
Context `{B : Build} `{St : Store}.

Lemma well_formed_top (ctx : parser_context) (below : list stack_entry)
  (e : stack_entry) :
  well_formed ctx -> open_frames ctx = below ++ [e] ->
  0 <= stack_ptr ctx < MAX_DEPTH.
Proof.
  intros Hwf Hof. destruct (open_frames_top ctx below e Hwf Hof) as [Hp _].
  destruct Hwf as [_ Hsp]. lia.
Qed.

(** [add_elem] seen through [obs]: with no cell left it fails, with a
    cell the top frame gets the element. *)
Lemma obs_add_elem (ctx : parser_context) (below : list stack_entry)
  (e : stack_entry) (d : db) (h : nat) (doc : option rec_ptr) (p : bool)
  (enc : gint) :
  well_formed ctx -> obs ctx = (below ++ [e], d, h, doc, p) ->
  match h with
  | O => snd (add_elem ctx enc) = 0
  | S n =>
      snd (add_elem ctx enc) = 1 /\
      well_formed (fst (add_elem ctx enc)) /\
      obs (fst (add_elem ctx enc)) = (below ++ [with_elem e enc], d, n, doc, p)
  end.
Proof.
  intros Hwf Hobs. unfold obs in Hobs. simplify_eq.
  rename H into Hof.
  pose proof (well_formed_top ctx below e Hwf Hof) as Hsp.
  destruct (open_frames_top ctx below e Hwf Hof) as [_ Htop].
  unfold add_elem. rewrite (open_frame_test ctx Hsp).
  destruct (heap_nodes ctx) as [|n]; [reflexivity|].
  cbn [fst snd]. split; [reflexivity|]. split.
  - destruct Hwf as [Hal Hb]. split; [apply set_entry_allocated; exact Hal|].
    exact Hb.
  - unfold obs. rewrite Htop.
    change (stack_ptr ctx) with (stack_ptr (set_heap_nodes ctx n)).
    rewrite (open_frames_set_top (set_heap_nodes ctx n) below e);
      [reflexivity | exact Hwf | exact Hof].
Qed.

(** [add_key] seen through [obs]. *)
Lemma obs_add_key (ctx : parser_context) (below : list stack_entry)
  (e : stack_entry) (d : db) (h : nat) (doc : option rec_ptr) (p : bool)
  (key : string) :
  well_formed ctx -> obs ctx = (below ++ [e], d, h, doc, p) ->
  snd (add_key ctx key) = 1 /\
  well_formed (fst (add_key ctx key)) /\
  obs (fst (add_key ctx key)) = (below ++ [with_key e key], d, h, doc, p).
Proof.
  intros Hwf Hobs. unfold obs in Hobs. simplify_eq.
  rename H into Hof.
  pose proof (well_formed_top ctx below e Hwf Hof) as Hsp.
  destruct (open_frames_top ctx below e Hwf Hof) as [_ Htop].
  unfold add_key. rewrite (open_frame_test ctx Hsp).
  cbn [fst snd]. split; [reflexivity|]. split.
  - destruct Hwf as [Hal Hb]. split; [apply set_entry_allocated; exact Hal|].
    exact Hb.
  - unfold obs. rewrite Htop.
    rewrite (open_frames_set_top ctx below e); [reflexivity | exact Hwf | exact Hof].
Qed.

(** [pop] seen through [obs], once the record is created and filled:
    the frame is gone, its cells are free again; the outermost pop
    writes the document slot and is done, any other pop goes on with
    [add_literal] of the handle. *)
Lemma obs_pop_created (ctx : parser_context) (below : list stack_entry)
  (e : stack_entry) (d : db) (h : nat) (doc : option rec_ptr) (p : bool)
  (d1 d2 : db) (r : rec_ptr) :
  well_formed ctx -> obs ctx = (below ++ [e], d, h, doc, p) ->
  create_for e d (bool_decide (below = [])) p = (d1, Some r) ->
  set_fields d1 r 0 (elems e) = (d2, 1) ->
  exists freed,
    well_formed freed /\
    obs freed = (below, d2, (h + length (elems e))%nat,
                 (if bool_decide (below = []) then Some r else doc), p) /\
    pop ctx = if bool_decide (below = []) then (freed, 1)
              else add_literal freed (wg_encode_record d2 r).
Proof.
  intros Hwf Hobs Hcreate Hset. unfold obs in Hobs. simplify_eq.
  rename H into Hof.
  pose proof (well_formed_top ctx below e Hwf Hof) as Hsp.
  destruct (open_frames_top ctx below e Hwf Hof) as [Hptr Htop].
  assert (Htest : (stack_ptr ctx - 1 <? 0) = bool_decide (below = [])).
  { destruct below as [|b below]; cbn [length] in Hptr.
    - rewrite Hptr. reflexivity.
    - rewrite bool_decide_eq_false_2 by discriminate.
      apply Z.ltb_ge. lia. }
  assert (Hc : create_for (entry_at ctx (stack_ptr ctx)) (ctx_db ctx)
                 (stack_ptr ctx - 1 <? 0) (isparam ctx) = (d1, Some r))
    by (rewrite Htop, Htest; exact Hcreate).
  assert (Hs : set_fields d1 r 0 (elems (entry_at ctx (stack_ptr ctx)))
               = (d2, 1)) by (rewrite Htop; exact Hset).
  pose proof (pop_created ctx d1 d2 r 1 ltac:(lia) Hc Hs) as Hpop.
  cbv zeta in Hpop. rewrite Htop, Htest in Hpop.
  assert (Hfr : forall c : parser_context,
            stack c = stack ctx -> stack_ptr c = stack_ptr ctx - 1 ->
            open_frames (set_entry c (stack_ptr ctx)
                           {| type := type e; elems := [];
                              last_key := last_key e; size := 0 |}) = below).
  { intros c Hst Hp.
    pose proof (open_frames_below ctx below e
                  {| type := type e; elems := [];
                     last_key := last_key e; size := 0 |} Hwf Hof) as Hb.
    unfold open_frames, set_entry in *.
    cbn [stack stack_ptr set_stack set_stack_ptr] in *.
    rewrite Hst, Hp. exact Hb. }
  destruct Hwf as [Hal Hb].
  destruct (bool_decide (below = [])); cbn [negb andb Z.eqb] in Hpop;
    eexists; (split; [|split]).
  3, 6: exact Hpop.
  - split; [apply set_entry_allocated; exact Hal | cbn; lia].
  - unfold obs. rewrite Hfr by reflexivity. reflexivity.
  - split; [apply set_entry_allocated; exact Hal | cbn; lia].
  - unfold obs. rewrite Hfr by reflexivity. reflexivity.
Qed.

End OpenFramesOps.

(** ** The reference store under the field loop *)

Section RefStoreFacts.
Import RefStore.

Lemma ref_set_fields_fresh (l : list enc) :
  forall (d : database) (r : nat) (rec : record) (done : list enc),
    records d !! r = Some rec ->
    fields rec = done ++ replicate (length l) ENull ->
    ((length l <= free_writes d)%nat ->
     set_fields d r (Z.of_nat (length done)) l =
     ({| records := <[r := with_fields rec (done ++ l)]> (records d);
         free_records := free_records d;
         free_writes := (free_writes d - length l)%nat |}, 1)) /\
    ((free_writes d < length l)%nat ->
     snd (set_fields d r (Z.of_nat (length done)) l) = 0).
Proof.
  induction l as [|x l IH]; intros d r rec done Hr Hf.
  - split; [|cbn; lia]. intros _. cbn.
    rewrite app_nil_r in *. f_equal.
    destruct d as [rs fr fw]; cbn in *. f_equal; [|lia].
    symmetry. apply list_insert_id. rewrite Hr. f_equal.
    destruct rec; cbn in *. subst. reflexivity.
  - cbn [set_fields wg_set_field store length]. unfold set_field.
    assert (Hlen : length (fields rec) = (length done + S (length l))%nat).
    { rewrite Hf, length_app, length_replicate. reflexivity. }
    destruct (free_writes d) as [|fw] eqn:Hfw.
    + split; [lia|]. intros _. reflexivity.
    + rewrite Hr.
      destruct ((0 <=? Z.of_nat (length done)) &&
                (Z.of_nat (length done) <? Z.of_nat (length (fields rec))))
        eqn:Hin.
      2:{ apply andb_false_iff in Hin.
          destruct Hin as [Hin|Hin];
            [apply Z.leb_gt in Hin | apply Z.ltb_ge in Hin]; lia. }
      cbn [Z.eqb]. rewrite Nat2Z.id.
      set (rec' := with_fields rec (<[length done := x]> (fields rec))).
      set (d' := {| records := <[r := rec']> (records d);
                    free_records := free_records d; free_writes := fw |}).
      assert (Hr' : records d' !! r = Some rec').
      { cbn. apply list_lookup_insert_eq. apply lookup_lt_Some in Hr. exact Hr. }
      assert (Hf' : fields rec' = (done ++ [x]) ++ replicate (length l) ENull).
      { cbn. rewrite Hf. cbn [length replicate].
        rewrite insert_app_r_alt by lia. rewrite Nat.sub_diag. cbn.
        rewrite <- app_assoc. reflexivity. }
      destruct (IH d' r rec' (done ++ [x]) Hr' Hf') as [Hok Hfail].
      replace (Z.of_nat (length done) + 1)
        with (Z.of_nat (length (done ++ [x])))
        by (rewrite length_app; cbn; lia).
      split.
      * intros Hle. rewrite Hok by (cbn; lia). f_equal.
        cbn. rewrite list_insert_insert_eq. rewrite <- app_assoc. reflexivity.
      * intros Hlt. apply Hfail. cbn. lia.
Qed.

(** A container record is created empty and filled from the elements
    of its frame: when a record is free and the writes suffice, the
    database gets one record with the elements as fields. *)
Lemma ref_materialize `{B : Build} (e : stack_entry) (d : database)
  (top param : bool) :
  counted e ->
  match free_records d with
  | O => create_for e d top param = (d, None)
  | S m =>
      exists d1,
        create_for e d top param = (d1, Some (length (records d))) /\
        if (length (elems e) <=? free_writes d)%nat then
          set_fields d1 (length (records d)) 0 (elems e) =
          (spend_writes
             (add_record d (container_record (kind_of (type e)) top param
                              (elems e)))
             (length (elems e)), 1)
        else snd (set_fields d1 (length (records d)) 0 (elems e)) = 0
  end.
Proof.
  intros Hcount. unfold counted in Hcount.
  unfold create_for. cbn [wg_create_array wg_create_object store].
  unfold create_array, create_object, create.
  destruct (free_records d) as [|m] eqn:Hfr.
  - destruct (type e); reflexivity.
  - set (rec0 := container_record (kind_of (type e)) top param
                   (replicate (length (elems e)) ENull)).
    exists {| records := records d ++ [rec0]; free_records := m;
              free_writes := free_writes d |}.
    split.
    + rewrite Hcount, Nat2Z.id. destruct (type e); reflexivity.
    + pose proof (ref_set_fields_fresh (elems e)
                    {| records := records d ++ [rec0]; free_records := m;
                       free_writes := free_writes d |}
                    (length (records d)) rec0 []) as Hset.
      cbn [length app records free_writes] in Hset.
      change (Z.of_nat 0) with 0 in Hset.
      destruct Hset as [Hok Hfail].
      * rewrite lookup_app_r by lia. rewrite Nat.sub_diag. reflexivity.
      * reflexivity.
      * destruct (Nat.leb_spec (length (elems e)) (free_writes d)) as [Hle|Hgt].
        -- rewrite Hok by exact Hle. unfold spend_writes, add_record. cbn.
           rewrite Hfr. cbn. f_equal. f_equal.
           rewrite insert_app_r_alt by lia. rewrite Nat.sub_diag. reflexivity.
        -- apply Hfail. exact Hgt.
Qed.

End RefStoreFacts.

(** ** The callback on the reference store *)

Section RefSteps.
Import RefStore.
Context `{B : Build}.

(** [add_literal] through [obs]: into an array the value itself, into
    an object the handle of a new key-value pair of the pending key and
    the value; it fails when no list cell or no record is left. *)
Lemma ref_add_literal (ctx : parser_context) (below : list stack_entry)
  (e : stack_entry) (d : database) (h : nat) (doc : option nat) (p : bool)
  (val : enc) :
  well_formed ctx -> obs ctx = (below ++ [e], d, h, doc, p) ->
  val <> EIllegal ->
  match type e with
  | ARRAY =>
      match h with
      | O => snd (add_literal ctx val) = 0
      | S n =>
          snd (add_literal ctx val) = 1 /\
          well_formed (fst (add_literal ctx val)) /\
          obs (fst (add_literal ctx val)) =
            (below ++ [with_elem e val], d, n, doc, p)
      end
  | OBJECT =>
      match free_records d, h with
      | S m, S n =>
          snd (add_literal ctx val) = 1 /\
          well_formed (fst (add_literal ctx val)) /\
          obs (fst (add_literal ctx val)) =
            (below ++ [with_elem e (ERecord (length (records d)))],
             add_record d (kvpair_record (c_str (last_key e)) val p),
             n, doc, p)
      | _, _ => snd (add_literal ctx val) = 0
      end
  end.
Proof.
  intros Hwf Hobs Hval.
  assert (Hof : open_frames ctx = below ++ [e])
    by (unfold obs in Hobs; congruence).
  pose proof (well_formed_top ctx below e Hwf Hof) as Hsp.
  destruct (open_frames_top ctx below e Hwf Hof) as [_ Htop].
  destruct (type e) eqn:Hty.
  - rewrite add_literal_array by (rewrite ?Htop; assumption).
    exact (obs_add_elem ctx below e d h doc p val Hwf Hobs).
  - unfold add_literal. rewrite (open_frame_test ctx Hsp), Htop, Hty.
    cbn [wg_encode_str wg_create_kvpair wg_encode_record store WG_ILLEGAL].
    destruct (decide (EStr (c_str (last_key e)) = EIllegal)) as [Hk|_];
      [discriminate|].
    assert (Hd : ctx_db ctx = d) by (unfold obs in Hobs; congruence).
    assert (Hp : isparam ctx = p) by (unfold obs in Hobs; congruence).
    cbn [ctx_db set_db isparam]. rewrite Hd, Hp.
    unfold create_kvpair, create.
    destruct (free_records d) as [|m] eqn:Hfr; [reflexivity|].
    cbn [ctx_db set_db].
    match goal with
    | |- context [add_elem ?c ?v] =>
        pose proof (obs_add_elem c below e
                      (add_record d (kvpair_record (c_str (last_key e)) val p))
                      h doc p v) as Hadd
    end.
    assert (Hh : heap_nodes ctx = h) by (unfold obs in Hobs; congruence).
    assert (Hdoc : document ctx = doc) by (unfold obs in Hobs; congruence).
    assert (Hobs' : forall k, h = k ->
              obs (set_db (set_db ctx d)
                     {| records := records d ++
                                   [{| kind := KKVPair; is_document := false;
                                       is_param := p;
                                       fields := [EStr (c_str (last_key e)); val] |}];
                        free_records := m;
                        free_writes := free_writes d |})
              = (below ++ [e],
                 add_record d (kvpair_record (c_str (last_key e)) val p),
                 k, doc, p)).
    { intros k Hk. unfold obs, add_record, kvpair_record. rewrite Hfr.
      cbn [pred]. subst k.
      change (open_frames (set_db (set_db ctx d) _)) with (open_frames ctx).
      cbn [ctx_db heap_nodes document isparam set_db].
      rewrite Hof, Hh, Hdoc, Hp. reflexivity. }
    destruct h as [|n]; (apply Hadd; [exact Hwf|]); apply Hobs'; reflexivity.
Qed.

(** A literal event is [add_literal] of its encoding. *)
Lemma ref_cb_literal (ctx : parser_context) (ty : JSON_type)
  (v : JSON_value) :
  is_literal_type ty = true ->
  exists c,
    obs c = obs ctx /\ (well_formed ctx -> well_formed c) /\
    literal_encoding (ty, v) <> EIllegal /\
    snd (parse_json_cb ctx ty v) = snd (add_literal c (literal_encoding (ty, v))) /\
    fst (parse_json_cb ctx ty v) = fst (add_literal c (literal_encoding (ty, v))) /\
    (snd (add_literal c (literal_encoding (ty, v))) = 0 \/
     snd (add_literal c (literal_encoding (ty, v))) = 1).
Proof.
  intros Hlit. exists (set_db ctx (ctx_db ctx)).
  split; [reflexivity|]. split; [intros H; exact H|].
  assert (Hres : forall c val, snd (add_literal c val) = 0 \/
                               snd (add_literal c val) = 1).
  { intros c val. unfold add_literal, add_elem.
    repeat case_match; cbn; auto. }
  destruct ty; try discriminate; unfold parse_json_cb, literal_encoding;
    cbn [fst snd wg_encode_int wg_encode_double wg_encode_str store WG_ILLEGAL];
    (split; [discriminate|]);
    match goal with
    | |- context [decide (?x = EIllegal)] =>
        destruct (decide (x = EIllegal)) as [Hx|_]; [discriminate|]
    end;
    match goal with
    | |- context [add_literal ?c ?val] =>
        destruct (Hres c val) as [Hr|Hr];
        destruct (add_literal c val) as [c' r'];
        cbn [fst snd] in *; subst r'; cbn; auto
    end.
Qed.

End RefSteps.

Section RefArrays.
Import RefStore.
Context `{B : Build}.

(** Literal events into an array frame: with enough list cells each
    appends its encoding, in order; otherwise the delivery fails. *)
Lemma ref_deliver_literals (lits : list (JSON_type * JSON_value)) :
  forall (ctx : parser_context) (below : list stack_entry) (e : stack_entry)
         (d : database) (h : nat) (doc : option nat) (p : bool),
    well_formed ctx -> obs ctx = (below ++ [e], d, h, doc, p) ->
    type e = ARRAY -> all_literals lits ->
    if (length lits <=? h)%nat then
      snd (deliver parse_json_cb ctx lits) = true /\
      well_formed (fst (deliver parse_json_cb ctx lits)) /\
      obs (fst (deliver parse_json_cb ctx lits)) =
        (below ++ [ {| type := ARRAY;
                       elems := elems e ++ map literal_encoding lits;
                       last_key := last_key e;
                       size := size e + Z.of_nat (length lits) |} ],
         d, (h - length lits)%nat, doc, p)
    else snd (deliver parse_json_cb ctx lits) = false.
Proof.
  induction lits as [|[ty v] lits IH];
    intros ctx below e d h doc p Hwf Hobs Hty Hlits.
  - cbn. split; [reflexivity|]. split; [exact Hwf|].
    rewrite Hobs, app_nil_r, Z.add_0_r, Nat.sub_0_r.
    destruct e; cbn in *; subst; reflexivity.
  - inversion Hlits as [|? ? Hlit Hrest]; subst. cbn [fst] in Hlit.
    destruct (ref_cb_literal ctx ty v Hlit)
      as (c & Hc & Hcwf & Hlegal & Hsnd & Hfst & _).
    pose proof (ref_add_literal c below e d h doc p (literal_encoding (ty, v))
                  (Hcwf Hwf) ltac:(congruence) Hlegal) as Hadd.
    rewrite Hty in Hadd.
    cbn [deliver length].
    destruct (parse_json_cb ctx ty v) as [c' r'] eqn:Hcb.
    cbn [fst snd] in Hsnd, Hfst. rewrite <- Hsnd, <- Hfst in Hadd.
    destruct h as [|n].
    + rewrite Hadd. reflexivity.
    + destruct Hadd as (-> & Hwf' & Hobs').
      cbn [Z.eqb].
      specialize (IH c' below (with_elem e (literal_encoding (ty, v)))
                    d n doc p Hwf' Hobs' Hty Hrest).
      change (S (length lits) <=? S n)%nat with (length lits <=? n)%nat.
      destruct (length lits <=? n)%nat; [|exact IH].
      destruct IH as (H1 & H2 & H3). split; [exact H1|]. split; [exact H2|].
      rewrite H3. cbn [with_elem elems size last_key map].
      rewrite <- app_assoc. cbn [app].
      replace (size e + 1 + Z.of_nat (length lits))
        with (size e + Z.of_nat (S (length lits))) by lia.
      reflexivity.
Qed.

(** The outermost pop on the reference store. *)
Lemma ref_pop_outermost (ctx : parser_context) (e : stack_entry)
  (d : database) (h : nat) (doc : option nat) (p : bool) :
  well_formed ctx -> obs ctx = ([e], d, h, doc, p) -> counted e ->
  if (1 <=? free_records d)%nat && (length (elems e) <=? free_writes d)%nat
  then
    snd (pop ctx) = 1 /\
    well_formed (fst (pop ctx)) /\
    obs (fst (pop ctx)) =
      ([], spend_writes
             (add_record d (container_record (kind_of (type e)) true p
                              (elems e)))
             (length (elems e)),
       (h + length (elems e))%nat, Some (length (records d)), p)
  else snd (pop ctx) = 0.
Proof.
  intros Hwf Hobs Hcount.
  assert (Hof : open_frames ctx = [] ++ [e])
    by (unfold obs in Hobs; cbn; congruence).
  assert (Hd : ctx_db ctx = d) by (unfold obs in Hobs; congruence).
  assert (Hp : isparam ctx = p) by (unfold obs in Hobs; congruence).
  pose proof (well_formed_top ctx [] e Hwf Hof) as Hsp.
  destruct (open_frames_top ctx [] e Hwf Hof) as [Hptr Htop].
  cbn [length Z.of_nat] in Hptr.
  pose proof (ref_materialize e d true p Hcount) as Hm.
  destruct (free_records d) as [|m] eqn:Hfr.
  - cbn [Nat.leb andb].
    apply (pop_not_created ctx d); [lia|].
    rewrite Htop, Hptr, Hd, Hp. exact Hm.
  - destruct Hm as (d1 & Hcreate & Hset).
    change (1 <=? S m)%nat with true. cbn [andb].
    destruct (length (elems e) <=? free_writes d)%nat.
    + destruct (obs_pop_created ctx [] e d h doc p d1 _ _ Hwf Hobs
                  Hcreate Hset) as (freed & Hfw & Hfo & Hpop).
      rewrite Hpop. cbn [bool_decide decide_rel fst snd].
      rewrite bool_decide_eq_true_2 by reflexivity. cbn [fst snd].
      split; [reflexivity|]. split; [exact Hfw|].
      rewrite Hfo. rewrite bool_decide_eq_true_2 by reflexivity. reflexivity.
    + destruct (set_fields d1 (length (records d)) 0 (elems e))
        as [d2 ret] eqn:Hsf. cbn [snd] in Hset. subst ret.
      rewrite (pop_created ctx d1 d2 (length (records d)) 0); [| lia | | ].
      * rewrite Hptr. reflexivity.
      * rewrite Htop, Hptr, Hd, Hp. exact Hcreate.
      * rewrite Htop. exact Hsf.
Qed.

End RefArrays.

Section RefArrayRun.
Import RefStore.
Context `{B : Build}.

Lemma initial_context_obs (env : c_env) (d : database) (param : bool)
  (doc : option nat) :
  well_formed (initial_context env d param doc) /\
  obs (initial_context env d param doc) = ([], d, free_cells env, doc, param).
Proof.
  pose proof MAX_DEPTH_min. split.
  - split; [apply initial_context_allocated | cbn; lia].
  - reflexivity.
Qed.

(** A begin event from the context [run_json_parser] sets up. *)
Lemma ref_cb_begin_outermost (env : c_env) (d : database) (param : bool)
  (doc : option nat) (ty : stack_entry_t) (v : JSON_value) :
  exists c k,
    parse_json_cb (initial_context env d param doc) (fst (begin_event v ty)) v
      = (c, 1) /\
    well_formed c /\
    obs c = ([fresh_entry ty k], d, free_cells env, doc, param).
Proof.
  pose proof MAX_DEPTH_min as Hmin.
  destruct (initial_context_obs env d param doc) as [Hwf Hobs].
  destruct (open_frames_push (initial_context env d param doc) ty Hwf
              ltac:(cbn; lia)) as (Hr & Hwf' & Hobs').
  exists (fst (push (initial_context env d param doc) ty)).
  eexists. split; [|split; [exact Hwf' | exact Hobs']].
  destruct ty; cbn [begin_event fst parse_json_cb];
    destruct (push (initial_context env d param doc) _) as [c r];
    cbn [fst snd] in *; subst r; reflexivity.
Qed.

(** An array of literals, event by event: it succeeds exactly when the
    list cells, one record and the field writes are there, and then
    leaves one more record, an array with the encodings as fields, and
    its pointer in the document slot. *)
Lemma ref_array_run (env : c_env) (d : database) (param : bool)
  (doc : option nat) (v1 v2 : JSON_value)
  (lits : list (JSON_type * JSON_value)) :
  all_literals lits ->
  let run :=
    deliver parse_json_cb (initial_context env d param doc)
      ((JSON_T_ARRAY_BEGIN, v1) :: lits ++ [(JSON_T_ARRAY_END, v2)]) in
  if (length lits <=? free_cells env)%nat && (1 <=? free_records d)%nat
     && (length lits <=? free_writes d)%nat
  then
    snd run = true /\
    document (fst run) = Some (length (records d)) /\
    ctx_db (fst run) =
      spend_writes
        (add_record d (container_record KArray true param
                         (map literal_encoding lits)))
        (length lits)
  else snd run = false.
Proof.
  intros Hlits. cbv zeta.
  destruct (ref_cb_begin_outermost env d param doc ARRAY v1)
    as (c & k & Hcb & Hwf & Hobs).
  cbn [begin_event fst] in Hcb.
  cbn [deliver]. rewrite Hcb. cbn [Z.eqb]. rewrite deliver_app.
  pose proof (ref_deliver_literals lits c [] (fresh_entry ARRAY k) d
                (free_cells env) doc param Hwf Hobs eq_refl Hlits) as Hl.
  destruct (deliver parse_json_cb c lits) as [c1 ok1]. cbn [fst snd] in Hl.
  destruct (length lits <=? free_cells env)%nat; cbn [andb];
    [|subst ok1; reflexivity].
  destruct Hl as (-> & Hwf1 & Hobs1). cbn [app fresh_entry elems size] in Hobs1.
  cbn [deliver].
  pose proof (ref_pop_outermost c1 _ d _ doc param Hwf1 Hobs1) as Hpop.
  cbn [elems type kind_of] in Hpop. rewrite length_map in Hpop.
  specialize (Hpop ltac:(unfold counted; cbn; rewrite length_map; lia)).
  cbn [parse_json_cb].
  destruct (pop c1) as [c2 r2]. cbn [fst snd] in Hpop.
  destruct ((1 <=? free_records d)%nat && (length lits <=? free_writes d)%nat).
  - destruct Hpop as (-> & _ & Hobs2). cbn.
    unfold obs in Hobs2. split; [reflexivity|]. split; congruence.
  - subst r2. reflexivity.
Qed.

End RefArrayRun.

(** ** Arrays of literals *)

Section RefRead.
Import RefStore.

Lemma ref_record_at_new (d : database) (rec : record) (n : nat) :
  record_at (spend_writes (add_record d rec) n) (length (records d)) = rec.
Proof.
  unfold record_at, spend_writes, add_record. cbn.
  rewrite lookup_app_r by lia. rewrite Nat.sub_diag. reflexivity.
Qed.

Lemma ref_get_field_lookup (d : database) (r i : nat) (v : enc) :
  fields (record_at d r) !! i = Some v ->
  get_field d r (Z.of_nat i) = v.
Proof.
  intros Hl. unfold get_field.
  destruct (Z.ltb_spec (Z.of_nat i) 0) as [|_]; [lia|].
  rewrite Nat2Z.id, Hl. reflexivity.
Qed.

End RefRead.



(** ** Objects of literal members *)

Lemma stored_key_spec (key : string) :
  no_NUL key ->
  stored_key key =
  if decide (String.length key <= 79)%nat then key else str_take 79 key.
Proof.
  intros Hkey. unfold stored_key.
  rewrite (strncpy_terminated 79 key Hkey).
  pose proof (str_take_length 79 key) as Htl.
  replace (80 - String.length (str_take 79 key))%nat
    with (S (79 - String.length (str_take 79 key))) by lia.
  rewrite c_str_padded by (apply no_NUL_str_take; assumption).
  destruct (decide (String.length key <= 79)%nat) as [Hle|_];
    [apply str_take_all; assumption | reflexivity].
Qed.

Section RefObjects.
Import RefStore.
Context `{B : Build}.

Lemma add_records_cons (d : database) (rec : record) (l : list record) :
  (1 <= free_records d)%nat ->
  add_records (add_record d rec) l = add_records d (rec :: l).
Proof.
  intros Hfree. unfold add_records, add_record. cbn.
  rewrite <- app_assoc. f_equal. lia.
Qed.

(** A key event through [obs]. *)
Lemma ref_cb_key (ctx : parser_context) (below : list stack_entry)
  (e : stack_entry) (d : database) (h : nat) (doc : option nat) (p : bool)
  (v : JSON_value) :
  well_formed ctx -> obs ctx = (below ++ [e], d, h, doc, p) ->
  exists c,
    parse_json_cb ctx JSON_T_KEY v = (c, 1) /\
    well_formed c /\
    obs c = (below ++ [with_key e (str_value v)], d, h, doc, p).
Proof.
  intros Hwf Hobs.
  destruct (obs_add_key ctx below e d h doc p (str_value v) Hwf Hobs)
    as (Hr & Hwf' & Hobs').
  exists (fst (add_key ctx (str_value v))).
  split; [|split; assumption].
  cbn [parse_json_cb]. destruct (add_key ctx (str_value v)) as [c r].
  cbn [fst snd] in *. subst r. reflexivity.
Qed.

(** The members of an object into its frame: each makes a key-value
    pair record of the stored key and the encoded literal and appends
    its handle; the delivery succeeds exactly when there are a list
    cell and a record for each. *)
Lemma ref_deliver_members (members : list member) :
  forall (ctx : parser_context) (below : list stack_entry) (e : stack_entry)
         (d : database) (h : nat) (doc : option nat) (p : bool),
    well_formed ctx -> obs ctx = (below ++ [e], d, h, doc, p) ->
    type e = OBJECT -> all_literals (map snd members) ->
    let run := deliver parse_json_cb ctx (concat (map member_events members)) in
    if (length members <=? h)%nat && (length members <=? free_records d)%nat
    then
      snd run = true /\
      well_formed (fst run) /\
      exists k,
        obs (fst run) =
          (below ++ [ {| type := OBJECT;
                         elems := elems e
                                  ++ handles (length (records d)) (length members);
                         last_key := k;
                         size := size e + Z.of_nat (length members) |} ],
           add_records d (map (member_record p) members),
           (h - length members)%nat, doc, p)
    else snd run = false.
Proof.
  induction members as [|[kv [ty v]] members IH];
    intros ctx below e d h doc p Hwf Hobs Hty Hlits.
  - cbn. split; [reflexivity|]. split; [exact Hwf|].
    exists (last_key e).
    rewrite Hobs. unfold handles, add_records. cbn.
    rewrite !app_nil_r, Z.add_0_r, !Nat.sub_0_r.
    destruct e, d; cbn in *; subst; reflexivity.
  - inversion Hlits as [|? ? Hlit Hrest]; subst. cbn [fst snd] in Hlit.
    cbn [map concat member_events app fst snd length].
    cbn [deliver].
    destruct (ref_cb_key ctx below e d h doc p kv Hwf Hobs)
      as (c1 & Hk & Hwf1 & Hobs1).
    rewrite Hk. cbn [Z.eqb].
    destruct (ref_cb_literal c1 ty v Hlit)
      as (c & Hc & Hcwf & Hlegal & Hsnd & Hfst & _).
    pose proof (ref_add_literal c below (with_key e (str_value kv)) d h doc p
                  (literal_encoding (ty, v))
                  (Hcwf Hwf1) ltac:(congruence) Hlegal) as Hadd.
    cbn [with_key type] in Hadd. rewrite Hty in Hadd.
    destruct (parse_json_cb c1 ty v) as [c' r'] eqn:Hcb.
    cbn [fst snd] in Hsnd, Hfst. rewrite <- Hsnd, <- Hfst in Hadd.
    destruct (free_records d) as [|m] eqn:Hfr.
    { rewrite Hadd. cbn [Z.eqb snd]. rewrite andb_false_r. reflexivity. }
    destruct h as [|n].
    { rewrite Hadd. reflexivity. }
    destruct Hadd as (-> & Hwf' & Hobs').
    cbn [Z.eqb].
    specialize (IH c' below _ _ n doc p Hwf' Hobs' Hty Hrest).
    cbv zeta in IH.
    change (S (length members) <=? S n)%nat with (length members <=? n)%nat.
    change (S (length members) <=? S m)%nat with (length members <=? m)%nat.
    assert (Hfr' : free_records
                     (add_record d
                        (kvpair_record
                           (c_str (last_key (with_key e (str_value kv))))
                           (literal_encoding (ty, v)) p)) = m)
      by (cbn; rewrite Hfr; reflexivity).
    rewrite Hfr' in IH.
    destruct ((length members <=? n)%nat && (length members <=? m)%nat);
      [|exact IH].
    destruct IH as (H1 & H2 & k & H3). split; [exact H1|]. split; [exact H2|].
    exists k. rewrite H3. cbn [with_elem with_key elems size last_key type].
    rewrite add_records_cons by lia.
    unfold handles. cbn [records add_record seq map].
    rewrite length_app. cbn [length].
    replace (length (records d) + 1)%nat with (S (length (records d))) by lia.
    rewrite <- app_assoc. cbn [app].
    replace (size e + 1 + Z.of_nat (length members))
      with (size e + Z.of_nat (S (length members))) by lia.
    reflexivity.
Qed.

End RefObjects.

Section RefObjectRun.
Import RefStore.
Context `{B : Build}.

(** An object of literal members, event by event. *)
Lemma ref_object_run (env : c_env) (d : database) (param : bool)
  (doc : option nat) (v1 v2 : JSON_value) (members : list member) :
  all_literals (map snd members) ->
  let n := length members in
  let run :=
    deliver parse_json_cb (initial_context env d param doc)
      ((JSON_T_OBJECT_BEGIN, v1) :: concat (map member_events members)
       ++ [(JSON_T_OBJECT_END, v2)]) in
  if (n <=? free_cells env)%nat && (S n <=? free_records d)%nat
     && (n <=? free_writes d)%nat
  then
    snd run = true /\
    document (fst run) = Some (length (records d) + n)%nat /\
    ctx_db (fst run) =
      spend_writes
        (add_record (add_records d (map (member_record param) members))
           (container_record KObject true param
              (handles (length (records d)) n)))
        n
  else snd run = false.
Proof.
  intros Hlits. cbv zeta.
  destruct (ref_cb_begin_outermost env d param doc OBJECT v1)
    as (c & k & Hcb & Hwf & Hobs).
  cbn [begin_event fst] in Hcb.
  cbn [deliver]. rewrite Hcb. cbn [Z.eqb]. rewrite deliver_app.
  pose proof (ref_deliver_members members c [] (fresh_entry OBJECT k) d
                (free_cells env) doc param Hwf Hobs eq_refl Hlits) as Hl.
  cbv zeta in Hl.
  destruct (deliver parse_json_cb c (concat (map member_events members)))
    as [c1 ok1]. cbn [fst snd] in Hl.
  destruct (Nat.leb_spec (length members) (free_cells env)) as [Hcells|Hcells];
    cbn [andb] in *; [|subst ok1; reflexivity].
  destruct (Nat.leb_spec (length members) (free_records d)) as [Hrec|Hrec];
    cbn [andb] in Hl.
  2:{ subst ok1.
      destruct (Nat.leb_spec (S (length members)) (free_records d)); [lia|].
      reflexivity. }
  destruct Hl as (-> & Hwf1 & k1 & Hobs1).
  cbn [app fresh_entry elems size] in Hobs1.
  cbn [deliver].
  pose proof (ref_pop_outermost c1 _ _ _ doc param Hwf1 Hobs1) as Hpop.
  cbn [elems type kind_of] in Hpop.
  assert (Hh : length (handles (length (records d)) (length members))
               = length members)
    by (unfold handles; rewrite length_map, length_seq; reflexivity).
  assert (Hfr : free_records
                  (add_records d (map (member_record param) members))
                = (free_records d - length members)%nat)
    by (cbn; rewrite length_map; reflexivity).
  assert (Hfw : free_writes
                  (add_records d (map (member_record param) members))
                = free_writes d) by reflexivity.
  assert (Hrl : length (records
                          (add_records d (map (member_record param) members)))
                = (length (records d) + length members)%nat)
    by (cbn; rewrite length_app, length_map; reflexivity).
  specialize (Hpop ltac:(unfold counted; cbn; rewrite Hh; lia)).
  change (@gint store) with enc in Hpop.
  rewrite Hh, Hfr, Hfw, Hrl in Hpop.
  cbn [parse_json_cb].
  destruct (pop c1) as [c2 r2]. cbn [fst snd] in Hpop.
  destruct (Nat.leb_spec (S (length members)) (free_records d)) as [Hr1|Hr1].
  - replace (1 <=? free_records d - length members)%nat with true in Hpop
      by (symmetry; apply Nat.leb_le; lia).
    cbn [andb] in *.
    destruct (length members <=? free_writes d)%nat.
    + destruct Hpop as (-> & _ & Hobs2). cbn.
      unfold obs in Hobs2. split; [reflexivity|]. split; congruence.
    + subst r2. reflexivity.
  - replace (1 <=? free_records d - length members)%nat with false in Hpop
      by (symmetry; apply Nat.leb_gt; lia).
    cbn [andb] in *. subst r2. reflexivity.
Qed.

End RefObjectRun.

Section RefReadObject.
Import RefStore.

Lemma ref_object_record (d : database) (pairs : list record) (obj : record)
  (n : nat) :
  record_at (spend_writes (add_record (add_records d pairs) obj) n)
    (length (records d) + length pairs) = obj.
Proof.
  unfold record_at, spend_writes, add_record, add_records. cbn.
  rewrite lookup_app_r by (rewrite length_app; lia).
  rewrite length_app, Nat.sub_diag. reflexivity.
Qed.

Lemma ref_pair_record (d : database) (pairs : list record) (obj : record)
  (n i : nat) (pair : record) :
  pairs !! i = Some pair ->
  record_at (spend_writes (add_record (add_records d pairs) obj) n)
    (length (records d) + i) = pair.
Proof.
  intros Hi. unfold record_at, spend_writes, add_record, add_records. cbn.
  pose proof (lookup_lt_Some _ _ _ Hi) as Hlt.
  rewrite lookup_app_l by (rewrite length_app; lia).
  rewrite lookup_app_r by lia.
  replace (length (records d) + i - length (records d))%nat with i by lia.
  rewrite Hi. reflexivity.
Qed.

Lemma handles_lookup (base n i : nat) :
  (i < n)%nat -> handles base n !! i = Some (ERecord (base + i)).
Proof.
  intros Hi. unfold handles. rewrite list_lookup_fmap.
  rewrite lookup_seq_lt by exact Hi. reflexivity.
Qed.

End RefReadObject.



(** ** Decimal text *)

Section Decimal.
Import RefTokenizer.

Lemma append_cons (c : ascii) (s t : string) :
  String c s +:+ t = String c (s +:+ t).
Proof. reflexivity. Qed.

Lemma append_length (s t : string) :
  String.length (s +:+ t) = (String.length s + String.length t)%nat.
Proof.
  induction s as [|c s IH]; [reflexivity|].
  rewrite append_cons. simpl. rewrite IH. reflexivity.
Qed.

Lemma append_assoc (s t u : string) : (s +:+ t) +:+ u = s +:+ (t +:+ u).
Proof.
  induction s as [|c s IH]; [reflexivity|].
  rewrite !append_cons, IH. reflexivity.
Qed.

Lemma append_nil_r (s : string) : s +:+ EmptyString = s.
Proof.
  induction s as [|c s IH]; [reflexivity|].
  rewrite append_cons, IH. reflexivity.
Qed.

Lemma digit_char_code (k : Z) :
  0 <= k < 10 -> nat_of_ascii (digit_char k) = (48 + Z.to_nat k)%nat.
Proof.
  intros Hk. unfold digit_char. apply nat_ascii_embedding. lia.
Qed.

Lemma digit_char_is_digit (k : Z) : 0 <= k < 10 -> is_digit (digit_char k) = true.
Proof.
  intros Hk. unfold is_digit. rewrite (digit_char_code k Hk).
  apply andb_true_iff; split; apply Nat.leb_le; lia.
Qed.

Lemma digit_char_is_digit19 (k : Z) :
  1 <= k < 10 -> is_digit19 (digit_char k) = true.
Proof.
  intros Hk. unfold is_digit19. rewrite (digit_char_code k) by lia.
  apply andb_true_iff; split; apply Nat.leb_le; lia.
Qed.

Lemma all_digits_app (s t : string) :
  all_digits (s +:+ t) = all_digits s && all_digits t.
Proof.
  induction s as [|c s IH]; [reflexivity|].
  rewrite append_cons. cbn [all_digits]. rewrite IH, andb_assoc. reflexivity.
Qed.

Lemma digits_fuel_all_digits (f : nat) :
  forall n, 0 <= n -> all_digits (digits_fuel f n) = true.
Proof.
  induction f as [|f IH]; intros n Hn; cbn [digits_fuel]; [reflexivity|].
  destruct (Z.ltb_spec n 10).
  - cbn [all_digits]. rewrite digit_char_is_digit by lia. reflexivity.
  - rewrite all_digits_app, IH by (apply Z.div_pos; lia). cbn [all_digits].
    rewrite digit_char_is_digit; [reflexivity|].
    apply Z.mod_pos_bound. lia.
Qed.

Lemma digits_value_app (s t : string) :
  forall a, all_digits s = true ->
            digits_value a (s +:+ t) = digits_value (digits_value a s) t.
Proof.
  induction s as [|c s IH]; intros a Hs; [reflexivity|].
  rewrite append_cons. cbn [all_digits digits_value] in *.
  apply andb_true_iff in Hs. destruct Hs as [Hc Hs]. rewrite Hc.
  apply IH. exact Hs.
Qed.

Lemma digits_value_digit (a k : Z) :
  0 <= k < 10 ->
  digits_value a (String (digit_char k) EmptyString) = 10 * a + k.
Proof.
  intros Hk. cbn [digits_value]. rewrite digit_char_is_digit by exact Hk.
  rewrite (digit_char_code k Hk). lia.
Qed.

Lemma digits_fuel_value (f : nat) :
  forall n, 0 <= n < 2 ^ Z.of_nat f -> digits_value 0 (digits_fuel f n) = n.
Proof.
  induction f as [|f IH]; intros n Hn.
  - change (2 ^ Z.of_nat 0) with 1 in Hn. cbn [digits_fuel digits_value]. lia.
  - cbn [digits_fuel]. destruct (Z.ltb_spec n 10).
    + rewrite digits_value_digit by lia. lia.
    + rewrite digits_value_app by (apply digits_fuel_all_digits, Z.div_pos; lia).
      assert (Hpow : 2 ^ Z.of_nat (S f) = 2 * 2 ^ Z.of_nat f).
      { rewrite Nat2Z.inj_succ, Z.pow_succ_r by lia. reflexivity. }
      rewrite IH.
      * rewrite digits_value_digit by (apply Z.mod_pos_bound; lia).
        pose proof (Z.div_mod n 10 ltac:(lia)). lia.
      * split; [apply Z.div_pos; lia|].
        apply Z.div_lt_upper_bound; lia.
Qed.

Lemma digits_fuel_first (f : nat) :
  forall n, 0 < n < 2 ^ Z.of_nat f ->
  exists c rest,
    digits_fuel f n = String c rest /\
    is_digit19 c = true /\ all_digits rest = true.
Proof.
  induction f as [|f IH]; intros n Hn.
  - change (2 ^ Z.of_nat 0) with 1 in Hn. lia.
  - cbn [digits_fuel]. destruct (Z.ltb_spec n 10).
    + exists (digit_char n), EmptyString.
      split; [reflexivity|]. split; [|reflexivity].
      apply digit_char_is_digit19. lia.
    + assert (Hpow : 2 ^ Z.of_nat (S f) = 2 * 2 ^ Z.of_nat f).
      { rewrite Nat2Z.inj_succ, Z.pow_succ_r by lia. reflexivity. }
      destruct (IH (n / 10)) as (c & rest & Heq & Hc & Hrest).
      { split; [apply Z.div_str_pos; lia|].
        apply Z.div_lt_upper_bound; lia. }
      rewrite Heq. exists c, (rest +:+ String (digit_char (n mod 10)) EmptyString).
      split; [reflexivity|]. split; [exact Hc|].
      rewrite all_digits_app, Hrest. cbn [all_digits andb].
      rewrite digit_char_is_digit; [reflexivity|].
      apply Z.mod_pos_bound. lia.
Qed.

Lemma digits_fuel_length (f : nat) :
  forall n k, 0 <= n < 10 ^ Z.of_nat (S k) ->
              (String.length (digits_fuel f n) <= S k)%nat.
Proof.
  induction f as [|f IH]; intros n k Hn; cbn [digits_fuel String.length];
    [lia|].
  destruct (Z.ltb_spec n 10); [cbn [String.length]; lia|].
  rewrite append_length. cbn [String.length].
  destruct k as [|k].
  - change (10 ^ Z.of_nat 1) with 10 in Hn. lia.
  - assert (Hpow : 10 ^ Z.of_nat (S (S k)) = 10 * 10 ^ Z.of_nat (S k)).
    { rewrite (Nat2Z.inj_succ (S k)), Z.pow_succ_r by lia. reflexivity. }
    specialize (IH (n / 10) k).
    assert (0 <= n / 10 < 10 ^ Z.of_nat (S k)).
    { split; [apply Z.div_pos; lia|]. apply Z.div_lt_upper_bound; lia. }
    specialize (IH ltac:(assumption)). lia.
Qed.

Lemma digits_bound (n : Z) : 0 <= n -> n < 2 ^ Z.of_nat (S (Z.to_nat (Z.log2 n))).
Proof.
  intros Hn. destruct (Z.eq_dec n 0) as [->|Hne]; [reflexivity|].
  rewrite Nat2Z.inj_succ, Z2Nat.id by apply Z.log2_nonneg.
  apply Z.log2_spec. lia.
Qed.

(** The digits of a natural number: its value read back, its shape,
    and its length for a 64 bit number. *)
Lemma digits_value_digits (n : Z) : 0 <= n -> digits_value 0 (digits n) = n.
Proof.
  intros Hn. unfold digits. apply digits_fuel_value.
  split; [exact Hn | apply digits_bound; exact Hn].
Qed.

Lemma digits_shape (n : Z) :
  0 <= n ->
  (n = 0 /\ digits n = "0") \/
  (0 < n /\ exists c rest, digits n = String c rest /\
                           is_digit19 c = true /\ all_digits rest = true).
Proof.
  intros Hn. destruct (Z.eq_dec n 0) as [->|Hne].
  - left. split; reflexivity.
  - right. split; [lia|]. unfold digits. apply digits_fuel_first.
    split; [lia | apply digits_bound; exact Hn].
Qed.

Lemma decimal_length (z : Z) :
  - 2 ^ 63 <= z < 2 ^ 63 -> (String.length (decimal z) <= 79)%nat.
Proof.
  intros Hz. unfold decimal.
  assert (Hlen : forall n, 0 <= n <= 2 ^ 63 ->
                           (String.length (digits n) <= 19)%nat).
  { intros n Hn. unfold digits. apply (digits_fuel_length _ n 18).
    change (10 ^ Z.of_nat 19) with 10000000000000000000.
    change (2 ^ 63) with 9223372036854775808 in Hn. lia. }
  destruct (Z.ltb_spec z 0).
  - cbn [String.length]. specialize (Hlen (- z) ltac:(lia)). lia.
  - specialize (Hlen z ltac:(lia)). lia.
Qed.

Lemma sscanf_integer_decimal (z : Z) : sscanf_integer (decimal z) = z.
Proof.
  unfold decimal. destruct (Z.ltb_spec z 0).
  - unfold sscanf_integer. change (is_char "-" "-") with true. cbv iota.
    rewrite digits_value_digits by lia. lia.
  - destruct (digits_shape z ltac:(lia)) as [[-> ->] | (Hpos & c & rest & Heq & Hc & _)].
    + reflexivity.
    + pose proof (digits_value_digits z ltac:(lia)) as Hv.
      rewrite Heq in *. unfold sscanf_integer.
      assert (Hminus : is_char c "-" = false).
      { unfold is_char, is_digit19 in *.
        destruct (Ascii.eqb_spec c "-") as [->|]; [discriminate Hc|reflexivity]. }
      rewrite Hminus. exact Hv.
Qed.

End Decimal.

(** ** The printer on a graph that represents a tree *)

Section PrintRender.
Import RefStore.
Context `{B : Build}.

Lemma fprintf_fprintf (out : printer_state) (s t : string) :
  fprintf (fprintf out s) t = fprintf out (s +:+ t).
Proof. unfold fprintf. cbn. rewrite append_assoc. reflexivity. Qed.

Lemma fprintf_empty (out : printer_state) : fprintf out EmptyString = out.
Proof. unfold fprintf. rewrite append_nil_r. destruct out; reflexivity. Qed.

Lemma OUT_INDENT_text (n : nat) :
  forall out, OUT_INDENT n out = fprintf out (indent_text n).
Proof.
  induction n as [|n IH]; intros out; cbn [OUT_INDENT indent_text].
  - rewrite fprintf_empty. reflexivity.
  - rewrite IH, fprintf_fprintf. reflexivity.
Qed.

Lemma rep_list_length (d : database) (l : jlist) :
  forall fs, rep_list d l fs -> length fs = jlist_length l.
Proof.
  induction l as [|j l IH]; intros fs Hrep; cbn in Hrep.
  - subst. reflexivity.
  - destruct Hrep as (f & fs' & -> & _ & Hrest). cbn. f_equal. auto.
Qed.

Lemma rep_members_length (d : database) (m : jmembers) :
  forall fs, rep_members d m fs -> length fs = jmembers_length m.
Proof.
  induction m as [|k j m IH]; intros fs Hrep; cbn in Hrep.
  - subst. reflexivity.
  - destruct Hrep as (q & pair & v & fs' & -> & _ & _ & _ & _ & Hrest).
    cbn. f_equal. auto.
Qed.

Lemma record_at_lookup (d : database) (p : nat) (rec : record) :
  records d !! p = Some rec -> record_at d p = rec.
Proof. intros H. unfold record_at. rewrite H. reflexivity. Qed.

Lemma get_field_drop (d : database) (p : nat) (rec : record) (i : nat)
  (f : enc) (fs : list enc) :
  records d !! p = Some rec -> drop i (fields rec) = f :: fs ->
  get_field d p (Z.of_nat i) = f /\ drop (S i) (fields rec) = fs.
Proof.
  intros Hp Hdrop. split.
  - apply ref_get_field_lookup. rewrite (record_at_lookup d p rec Hp).
    assert (H0 : drop i (fields rec) !! 0%nat = Some f)
      by (rewrite Hdrop; reflexivity).
    rewrite lookup_drop, Nat.add_0_r in H0. exact H0.
  - assert (H1 : drop 1 (drop i (fields rec)) = fs)
      by (rewrite Hdrop; reflexivity).
    rewrite drop_drop in H1. rewrite <- H1. f_equal. lia.
Qed.

Lemma snprint_int (z : Z) :
  - 2 ^ 63 <= z < 2 ^ 63 -> snprint_value (EInt z) 79 = decimal z.
Proof.
  intros Hz. unfold snprint_value. apply str_take_all.
  apply decimal_length. exact Hz.
Qed.

(** The printer writes [render] of the tree, for a graph that
    represents a tree of plain values, given fuel for its nesting. *)
Lemma print_render :
  (forall j d p rec fuel out indent comma nl,
     records d !! p = Some rec ->
     rep_val d j (ERecord p) -> plain_json j ->
     (2 * height j <= fuel)%nat ->
     pretty_print_json fuel d out p (Z.of_nat indent) comma nl =
     Some (fprintf out (render j indent comma nl), 0)) /\
  (forall l d p rec fuel out indent i,
     records d !! p = Some rec ->
     rep_list d l (drop i (fields rec)) -> plain_list l ->
     (2 * height_list l <= fuel)%nat ->
     array_loop (pretty_print_json fuel d) d p (Z.of_nat indent)
       (jlist_length l) (Z.of_nat i) out =
     Some (fprintf out (render_elems l indent (Z.of_nat i)), 0)) /\
  (forall m d p rec fuel out indent i,
     records d !! p = Some rec ->
     rep_members d m (drop i (fields rec)) -> plain_members m ->
     (2 * height_members m <= fuel)%nat ->
     object_loop (pretty_print_json (S fuel) d) d p (Z.of_nat indent)
       (jmembers_length m) (Z.of_nat i) out =
     Some (fprintf out (render_members m indent (Z.of_nat i)), 0)).
Proof.
  apply json_mutind.
  - (* JInt *)
    intros z d p rec fuel out indent comma nl Hp Hrep. discriminate Hrep.
  - (* JStr *)
    intros s d p rec fuel out indent comma nl Hp Hrep. discriminate Hrep.
  - (* JArr *)
    intros l IHl d p rec fuel out indent comma nl Hp Hrep Hplain Hfuel.
    cbn [rep_val] in Hrep.
    destruct Hrep as (p' & rec' & Heq & Hp' & Hkind & Hfields).
    injection Heq as <-. rewrite Hp in Hp'. injection Hp' as <-.
    cbn [height] in Hfuel. destruct fuel as [|fuel]; [lia|].
    cbn [pretty_print_json].
    cbn [is_schema_object is_schema_array wg_get_record_len store].
    rewrite (record_at_lookup d p rec Hp), Hkind.
    cbn [bool_decide decide_rel]. 
    rewrite bool_decide_eq_false_2 by discriminate.
    rewrite bool_decide_eq_true_2 by reflexivity.
    rewrite Nat2Z.id, (rep_list_length d l _ Hfields).
    rewrite (IHl d p rec fuel _ indent 0%nat Hp Hfields Hplain ltac:(lia)).
    cbn [Z.eqb]. rewrite !fprintf_fprintf. cbn [render].
    rewrite !append_assoc. reflexivity.
  - (* JObj *)
    intros m IHm d p rec fuel out indent comma nl Hp Hrep Hplain Hfuel.
    cbn [rep_val] in Hrep.
    destruct Hrep as (p' & rec' & Heq & Hp' & Hkind & Hfields).
    injection Heq as <-. rewrite Hp in Hp'. injection Hp' as <-.
    cbn [height] in Hfuel.
    destruct fuel as [|[|fuel]]; [lia|lia|].
    cbn [pretty_print_json].
    cbn [is_schema_object is_schema_array wg_get_record_len store].
    rewrite (record_at_lookup d p rec Hp), Hkind.
    rewrite bool_decide_eq_true_2 by reflexivity.
    rewrite Nat2Z.id, (rep_members_length d m _ Hfields).
    rewrite (IHm d p rec fuel _ indent 0%nat Hp Hfields Hplain ltac:(lia)).
    cbn [Z.eqb]. rewrite OUT_INDENT_text, Nat2Z.id, !fprintf_fprintf.
    cbn [render]. rewrite !append_assoc. reflexivity.
  - (* JNil *)
    intros d p rec fuel out indent i Hp Hrep Hplain Hfuel.
    cbn. rewrite fprintf_empty. reflexivity.
  - (* JCons *)
    intros j IHj l IHl d p rec fuel out indent i Hp Hrep Hplain Hfuel.
    cbn [rep_list] in Hrep. destruct Hrep as (f & fs & Hdrop & Hj & Hl).
    destruct (get_field_drop d p rec i f fs Hp Hdrop) as [Hget Hdrop'].
    rewrite <- Hdrop' in Hl.
    destruct Hplain as [Hpj Hpl]. cbn [height_list] in Hfuel.
    cbn [jlist_length array_loop].
    cbn [wg_get_field wg_get_encoded_type wg_decode_record wg_decode_str
         wg_snprint_value WG_RECORDTYPE WG_STRTYPE store].
    rewrite Hget.
    replace (Z.of_nat i + 1) with (Z.of_nat (S i)) by lia.
    destruct j as [z | s | l0 | m0]; cbn [rep_val] in Hj.
    + subst f. cbn [encoded_type Z.eqb Pos.eqb].
      rewrite (IHl d p rec fuel _ indent (S i) Hp Hl Hpl ltac:(lia)).
      rewrite fprintf_fprintf. cbn [render_elems].
      rewrite snprint_int by exact Hpj.
      replace (Z.of_nat i + 1) with (Z.of_nat (S i)) by lia.
      rewrite !append_assoc. reflexivity.
    + subst f. cbn [encoded_type Z.eqb Pos.eqb decode_str].
      rewrite (IHl d p rec fuel _ indent (S i) Hp Hl Hpl ltac:(lia)).
      rewrite fprintf_fprintf. cbn [render_elems].
      replace (Z.of_nat i + 1) with (Z.of_nat (S i)) by lia.
      rewrite !append_assoc. reflexivity.
    + destruct Hj as (p' & rec' & -> & Hp' & Hrest).
      cbn [encoded_type Z.eqb Pos.eqb decode_record].
      rewrite (IHj d p' rec' fuel out indent (Z.of_nat i) 0 Hp'
                 ltac:(cbn [rep_val]; eauto) Hpj ltac:(lia)).
      cbn [Z.eqb].
      rewrite (IHl d p rec fuel _ indent (S i) Hp Hl Hpl ltac:(lia)).
      rewrite fprintf_fprintf. cbn [render_elems].
      replace (Z.of_nat i + 1) with (Z.of_nat (S i)) by lia.
      reflexivity.
    + destruct Hj as (p' & rec' & -> & Hp' & Hrest).
      cbn [encoded_type Z.eqb Pos.eqb decode_record].
      rewrite (IHj d p' rec' fuel out indent (Z.of_nat i) 0 Hp'
                 ltac:(cbn [rep_val]; eauto) Hpj ltac:(lia)).
      cbn [Z.eqb].
      rewrite (IHl d p rec fuel _ indent (S i) Hp Hl Hpl ltac:(lia)).
      rewrite fprintf_fprintf. cbn [render_elems].
      replace (Z.of_nat i + 1) with (Z.of_nat (S i)) by lia.
      reflexivity.
  - (* MNil *)
    intros d p rec fuel out indent i Hp Hrep Hplain Hfuel.
    cbn. rewrite fprintf_empty. reflexivity.
  - (* MCons *)
    intros k j IHj m IHm d p rec fuel out indent i Hp Hrep Hplain Hfuel.
    cbn [rep_members] in Hrep.
    destruct Hrep as (q & pair & v & fs & Hdrop & Hq & Hkind & Hpf & Hj & Hm).
    destruct (get_field_drop d p rec i _ fs Hp Hdrop) as [Hget Hdrop'].
    rewrite <- Hdrop' in Hm.
    destruct Hplain as (Hpk & Hpj & Hpm). cbn [height_members] in Hfuel.
    cbn [jmembers_length object_loop].
    cbn [wg_get_field wg_get_encoded_type wg_decode_record WG_RECORDTYPE store].
    rewrite Hget. cbn [encoded_type Z.eqb Pos.eqb negb decode_record].
    replace (Z.of_nat indent + 1) with (Z.of_nat (S indent)) by lia.
    assert (Hpair :
      pretty_print_json (S fuel) d out q (Z.of_nat (S indent)) (Z.of_nat i) 1 =
      Some (fprintf out
              (indent_text (S indent) +:+ comma_str (Z.of_nat i) +:+ dquote
               +:+ k +:+ dquote +:+ ": " +:+
               match j with
               | JInt z => decimal z +:+ String (ascii_of_nat 10) EmptyString
               | JStr s => dquote +:+ s +:+ dquote
                           +:+ String (ascii_of_nat 10) EmptyString
               | _ => render j (S indent) 0 1
               end), 0)).
    { cbn [pretty_print_json].
      cbn [is_schema_object is_schema_array wg_get_field wg_get_encoded_type
           wg_decode_record wg_decode_str wg_snprint_value WG_RECORDTYPE
           WG_STRTYPE WG_SCHEMA_KEY_OFFSET WG_SCHEMA_VALUE_OFFSET store].
      rewrite (record_at_lookup d q pair Hq), Hkind.
      rewrite !bool_decide_eq_false_2 by discriminate.
      assert (Hkey : get_field d q 0 = EStr k).
      { apply (ref_get_field_lookup d q 0%nat).
        rewrite (record_at_lookup d q pair Hq), Hpf. reflexivity. }
      assert (Hval : get_field d q 1 = v).
      { apply (ref_get_field_lookup d q 1%nat).
        rewrite (record_at_lookup d q pair Hq), Hpf. reflexivity. }
      rewrite Hkey, Hval.
      cbn [encoded_type Z.eqb Pos.eqb negb decode_str].
      rewrite OUT_INDENT_text, Nat2Z.id, fprintf_fprintf.
      destruct j as [z | s | l0 | m0]; cbn [rep_val] in Hj.
      - subst v. cbn [encoded_type Z.eqb Pos.eqb].
        rewrite fprintf_fprintf, snprint_int by exact Hpj.
        unfold newline. rewrite !append_assoc. reflexivity.
      - subst v. cbn [encoded_type Z.eqb Pos.eqb decode_str].
        rewrite fprintf_fprintf. unfold newline.
        rewrite !append_assoc. reflexivity.
      - destruct Hj as (p' & rec' & -> & Hp' & Hrest).
        cbn [encoded_type Z.eqb Pos.eqb decode_record].
        rewrite (IHj d p' rec' fuel _ (S indent) 0 1 Hp'
                   ltac:(cbn [rep_val]; eauto) Hpj ltac:(lia)).
        cbn [Z.eqb]. rewrite fprintf_fprintf, !append_assoc. reflexivity.
      - destruct Hj as (p' & rec' & -> & Hp' & Hrest).
        cbn [encoded_type Z.eqb Pos.eqb decode_record].
        rewrite (IHj d p' rec' fuel _ (S indent) 0 1 Hp'
                   ltac:(cbn [rep_val]; eauto) Hpj ltac:(lia)).
        cbn [Z.eqb]. rewrite fprintf_fprintf, !append_assoc. reflexivity. }
    rewrite Hpair. cbn [Z.eqb].
    replace (Z.of_nat i + 1) with (Z.of_nat (S i)) by lia.
    rewrite (IHm d p rec fuel _ indent (S i) Hp Hm Hpm ltac:(lia)).
    rewrite fprintf_fprintf. cbn [render_members].
    replace (Z.of_nat i + 1) with (Z.of_nat (S i)) by lia.
    rewrite !append_assoc. reflexivity.
Qed.

End PrintRender.

(** ** Building the graph of a tree *)

Section Grown.
Import RefStore.

Lemma grown_refl (d : database) : grown d d 0 0.
Proof.
  split; [exists []; rewrite app_nil_r; split; reflexivity|].
  split; lia.
Qed.

Lemma grown_trans (d1 d2 d3 : database) (n1 w1 n2 w2 : nat) :
  grown d1 d2 n1 w1 -> grown d2 d3 n2 w2 ->
  grown d1 d3 (n1 + n2) (w1 + w2).
Proof.
  intros ((l1 & H1 & Hl1) & Hr1 & Hw1) ((l2 & H2 & Hl2) & Hr2 & Hw2).
  split; [|split; lia].
  exists (l1 ++ l2). rewrite H2, H1, <- app_assoc, length_app.
  split; [reflexivity | lia].
Qed.

Lemma grown_add_record (d : database) (rec : record) (w : nat) :
  grown d (spend_writes (add_record d rec) w) 1 w.
Proof.
  split; [exists [rec]; split; reflexivity|].
  split; cbn; lia.
Qed.

Lemma grown_lookup (d d' : database) (n w p : nat) (rec : record) :
  grown d d' n w -> records d !! p = Some rec -> records d' !! p = Some rec.
Proof.
  intros ((l & Hl & _) & _) Hp. rewrite Hl.
  apply lookup_app_l_Some. exact Hp.
Qed.

(** A graph that represents a tree still does when the database
    grows. *)
Lemma rep_grown (d d' : database) (n w : nat) :
  grown d d' n w ->
  (forall j v, rep_val d j v -> rep_val d' j v) /\
  (forall l fs, rep_list d l fs -> rep_list d' l fs) /\
  (forall m fs, rep_members d m fs -> rep_members d' m fs).
Proof.
  intros Hg. apply json_mutind.
  - intros z v H. exact H.
  - intros s v H. exact H.
  - intros l IH v (p & rec & Hv & Hp & Hk & Hf). cbn [rep_val].
    exists p, rec. repeat split; try assumption.
    + eapply grown_lookup; eassumption.
    + apply IH. exact Hf.
  - intros m IH v (p & rec & Hv & Hp & Hk & Hf). cbn [rep_val].
    exists p, rec. repeat split; try assumption.
    + eapply grown_lookup; eassumption.
    + apply IH. exact Hf.
  - intros fs H. exact H.
  - intros j IHj l IHl fs (f & fs' & Hfs & Hj & Hl). cbn [rep_list].
    exists f, fs'. repeat split; auto.
  - intros fs H. exact H.
  - intros k j IHj m IHm fs (q & pair & v & fs' & Hfs & Hq & Hk & Hpf & Hj & Hm).
    cbn [rep_members]. exists q, pair, v, fs'. repeat split; auto.
    eapply grown_lookup; eassumption.
Qed.

Lemma plain_string_no_NUL (s : string) : plain_string s = true -> no_NUL s.
Proof.
  induction s as [|c s IH]; cbn [plain_string no_NUL]; [intros; exact I|].
  intros H. apply andb_true_iff in H. destruct H as [Hc Hs].
  split; [|apply IH; exact Hs].
  intros ->. discriminate Hc.
Qed.

Lemma rep_val_legal (d : database) (j : json) (v : enc) :
  rep_val d j v -> v <> EIllegal.
Proof.
  destruct j; cbn [rep_val].
  - intros ->. discriminate.
  - intros ->. discriminate.
  - intros (p & rec & -> & _). discriminate.
  - intros (p & rec & -> & _). discriminate.
Qed.

End Grown.

Section DeliverSteps.
Import RefStore.
Context `{B : Build}.

Lemma open_frames_length (ctx : parser_context) :
  well_formed ctx -> Z.of_nat (length (open_frames ctx)) = stack_ptr ctx + 1.
Proof.
  intros [Hal Hsp]. unfold open_frames, stack_allocated in *.
  rewrite length_take. lia.
Qed.

Lemma deliver_begin (ctx : parser_context) (frames : list stack_entry)
  (d : database) (h : nat) (doc : option nat) (p : bool)
  (ty : stack_entry_t) (v : JSON_value) :
  well_formed ctx -> obs ctx = (frames, d, h, doc, p) ->
  Z.of_nat (length frames) + 1 <= MAX_DEPTH ->
  exists c k,
    well_formed c /\
    obs c = (frames ++ [fresh_entry ty k], d, h, doc, p) /\
    forall rest,
      deliver parse_json_cb ctx (begin_event v ty :: rest) =
      deliver parse_json_cb c rest.
Proof.
  intros Hwf Hobs Hroom. unfold obs in Hobs. simplify_eq.
  pose proof (open_frames_length ctx Hwf) as Hlen.
  destruct (open_frames_push ctx ty Hwf ltac:(lia)) as (Hr & Hwf' & Hobs').
  exists (fst (push ctx ty)), (last_key (entry_at ctx (stack_ptr ctx + 1))).
  split; [exact Hwf'|]. split.
  - exact Hobs'.
  - intros rest. cbn [deliver begin_event].
    destruct ty; cbn [parse_json_cb];
      destruct (push ctx _) as [c r]; cbn [fst snd] in *; subst r;
      reflexivity.
Qed.

Lemma deliver_key (ctx : parser_context) (below : list stack_entry)
  (e : stack_entry) (d : database) (h : nat) (doc : option nat) (p : bool)
  (k : string) :
  well_formed ctx -> obs ctx = (below ++ [e], d, h, doc, p) ->
  exists c,
    well_formed c /\
    obs c = (below ++ [with_key e k], d, h, doc, p) /\
    forall rest,
      deliver parse_json_cb ctx (ev_key k :: rest) = deliver parse_json_cb c rest.
Proof.
  intros Hwf Hobs.
  destruct (ref_cb_key ctx below e d h doc p (snd (ev_key k)) Hwf Hobs)
    as (c & Hcb & Hwf' & Hobs').
  exists c. split; [exact Hwf'|]. split; [exact Hobs'|].
  intros rest. cbn [deliver ev_key]. cbn [ev_key snd] in Hcb. rewrite Hcb.
  reflexivity.
Qed.

Lemma deliver_end (ctx : parser_context) (ty : JSON_type) (v : JSON_value)
  (rest : list (JSON_type * JSON_value)) :
  ty = JSON_T_ARRAY_END \/ ty = JSON_T_OBJECT_END ->
  deliver parse_json_cb ctx ((ty, v) :: rest) = then_deliver (pop ctx) rest.
Proof.
  intros [-> | ->]; cbn [deliver parse_json_cb]; unfold then_deliver;
    destruct (pop ctx) as [c r]; destruct (r =? 0); reflexivity.
Qed.

Lemma deliver_literal (ctx : parser_context) (ty : JSON_type)
  (v : JSON_value) :
  is_literal_type ty = true ->
  exists c,
    obs c = obs ctx /\ (well_formed ctx -> well_formed c) /\
    forall rest,
      deliver parse_json_cb ctx ((ty, v) :: rest) =
      then_deliver (add_literal c (literal_encoding (ty, v))) rest.
Proof.
  intros Hlit.
  destruct (ref_cb_literal ctx ty v Hlit)
    as (c & Hobs & Hwf & _ & Hsnd & Hfst & Hres).
  exists c. split; [exact Hobs|]. split; [exact Hwf|].
  intros rest. cbn [deliver]. unfold then_deliver.
  destruct (parse_json_cb ctx ty v) as [c1 r1].
  destruct (add_literal c (literal_encoding (ty, v))) as [c2 r2].
  cbn [fst snd] in *. subst c2 r2. reflexivity.
Qed.

(** [add_literal] of a value with the cells and records at hand, and
    the delivery going on. *)
Lemma then_deliver_add_literal (c : parser_context)
  (below : list stack_entry) (e : stack_entry) (d : database) (h : nat)
  (doc : option nat) (p : bool) (v : enc)
  (rest : list (JSON_type * JSON_value)) :
  well_formed c -> obs c = (below ++ [e], d, h, doc, p) ->
  v <> EIllegal -> (1 <= h)%nat ->
  (type e = OBJECT -> (1 <= free_records d)%nat) ->
  exists c',
    well_formed c' /\
    obs c' =
      (match type e with
       | ARRAY => (below ++ [with_elem e v], d, (h - 1)%nat, doc, p)
       | OBJECT =>
           (below ++ [with_elem e (ERecord (length (records d)))],
            add_record d (kvpair_record (c_str (last_key e)) v p),
            (h - 1)%nat, doc, p)
       end) /\
    then_deliver (add_literal c v) rest = deliver parse_json_cb c' rest.
Proof.
  intros Hwf Hobs Hv Hh Hrec.
  pose proof (ref_add_literal c below e d h doc p v Hwf Hobs Hv) as Hadd.
  exists (fst (add_literal c v)).
  destruct h as [|n]; [lia|]. rewrite Nat.sub_succ, Nat.sub_0_r.
  unfold then_deliver.
  destruct (type e).
  - destruct Hadd as (Hr & Hwf' & Hobs').
    split; [exact Hwf'|]. split; [exact Hobs'|].
    destruct (add_literal c v) as [c' r]. cbn [fst snd] in *. subst r.
    reflexivity.
  - specialize (Hrec eq_refl).
    destruct (free_records d) as [|m]; [lia|].
    destruct Hadd as (Hr & Hwf' & Hobs').
    split; [exact Hwf'|]. split; [exact Hobs'|].
    destruct (add_literal c v) as [c' r]. cbn [fst snd] in *. subst r.
    reflexivity.
Qed.

(** Closing a container that is not the outermost: its record is
    created with the elements as fields and its handle goes to
    [add_literal] on the frame below. *)
Lemma ref_close_inner (ctx : parser_context) (below : list stack_entry)
  (parent : stack_entry) (ty : stack_entry_t) (vs : list enc)
  (k : list ascii) (d : database) (h : nat) (doc : option nat) (p : bool) :
  well_formed ctx ->
  obs ctx = ((below ++ [parent]) ++
             [ {| type := ty; elems := vs; last_key := k;
                  size := Z.of_nat (length vs) |} ], d, h, doc, p) ->
  (1 <= free_records d)%nat -> (length vs <= free_writes d)%nat ->
  exists freed,
    well_formed freed /\
    obs freed =
      (below ++ [parent],
       spend_writes (add_record d (container_record (kind_of ty) false p vs))
         (length vs),
       (h + length vs)%nat, doc, p) /\
    pop ctx = add_literal freed (ERecord (length (records d))).
Proof.
  intros Hwf Hobs Hrec Hwr.
  set (e := @Build_stack_entry store ty vs k (Z.of_nat (length vs))) in *.
  pose proof (ref_materialize e d false p ltac:(reflexivity)) as Hm.
  destruct (free_records d) as [|m] eqn:Hfr; [lia|].
  destruct Hm as (d1 & Hcreate & Hset).
  cbn [elems e] in Hset.
  match type of Hset with
  | (if ?b then _ else _) =>
      assert (Hb : b = true) by (apply Nat.leb_le; exact Hwr);
      rewrite Hb in Hset
  end.
  assert (Hne : bool_decide (below ++ [parent] = []) = false).
  { apply bool_decide_eq_false_2. intros H. apply app_eq_nil in H.
    destruct H as [_ H]. discriminate H. }
  destruct (obs_pop_created ctx (below ++ [parent]) e d h doc p d1 _ _
              Hwf Hobs ltac:(rewrite Hne; exact Hcreate) Hset)
    as (freed & Hfw & Hfo & Hpop).
  rewrite Hne in Hfo, Hpop.
  exists freed. split; [exact Hfw|]. split; [exact Hfo | exact Hpop].
Qed.

End DeliverSteps.

Section BuildTree.
Import RefStore.
Context `{B : Build}.

Lemma cells_pos (j : json) : (1 <= cells j)%nat.
Proof. destruct j; cbn; lia. Qed.

Lemma jlist_length_cells (l : jlist) : (jlist_length l <= cells_list l)%nat.
Proof.
  induction l as [|j l IH]; cbn; [lia|]. pose proof (cells_pos j). lia.
Qed.

Lemma jmembers_length_cells (m : jmembers) :
  (jmembers_length m <= cells_members m)%nat.
Proof.
  induction m as [|k j m IH]; cbn; [lia|]. pose proof (cells_pos j). lia.
Qed.

Lemma grown_add_pair (d : database) (rec : record) :
  (1 <= free_records d)%nat -> grown d (add_record d rec) 1 0.
Proof.
  intros H. split; [exists [rec]; split; reflexivity|].
  split; cbn; lia.
Qed.

Lemma grown_eq (d d' : database) (n w n' w' : nat) :
  grown d d' n w -> n = n' -> w = w' -> grown d d' n' w'.
Proof. intros H -> ->. exact H. Qed.

Lemma entry_eta_array (e : stack_entry) :
  type e = ARRAY ->
  e = {| type := ARRAY; elems := elems e ++ []; last_key := last_key e;
         size := size e + Z.of_nat 0 |}.
Proof.
  intros H. destruct e; cbn in *. subst.
  rewrite app_nil_r, Z.add_0_r. reflexivity.
Qed.

Lemma entry_eta_object (e : stack_entry) :
  type e = OBJECT ->
  e = {| type := OBJECT; elems := elems e ++ []; last_key := last_key e;
         size := size e + Z.of_nat 0 |}.
Proof.
  intros H. destruct e; cbn in *. subst.
  rewrite app_nil_r, Z.add_0_r. reflexivity.
Qed.

(** The record of a finished container represents the container. *)
Lemma rep_container (d1 : database) (p : bool) (vs : list enc) (k : rec_kind) :
  records (spend_writes (add_record d1 (container_record k false p vs))
             (length vs)) !! length (records d1)
  = Some (container_record k false p vs).
Proof.
  cbn. rewrite lookup_app_r by lia. rewrite Nat.sub_diag. reflexivity.
Qed.

(** The events of a tree, delivered into an open frame: the records of
    the tree are added to the database, and the value that represents
    the tree is handed to [add_literal] on that frame.  The elements of
    an array and the members of an object fill the frame in order. *)
Lemma build_tree :
  (forall j ctx below e d h doc p rest,
     well_formed ctx -> obs ctx = (below ++ [e], d, h, doc, p) ->
     plain_json j ->
     (cells j <= h)%nat ->
     (records_of j <= free_records d)%nat ->
     (writes_of j <= free_writes d)%nat ->
     Z.of_nat (length below + 1 + height j) <= MAX_DEPTH ->
     exists c v d1,
       well_formed c /\
       obs c = (below ++ [e], d1, h, doc, p) /\
       grown d d1 (records_of j) (writes_of j) /\
       rep_val d1 j v /\
       deliver parse_json_cb ctx (events_json j ++ rest) =
       then_deliver (add_literal c v) rest) /\
  (forall l ctx below e d h doc p rest,
     well_formed ctx -> obs ctx = (below ++ [e], d, h, doc, p) ->
     type e = ARRAY -> plain_list l ->
     (cells_list l <= h)%nat ->
     (records_of_list l <= free_records d)%nat ->
     (writes_of_list l <= free_writes d)%nat ->
     Z.of_nat (length below + 1 + height_list l) <= MAX_DEPTH ->
     exists c vs d1,
       well_formed c /\
       obs c =
         (below ++ [ {| type := ARRAY; elems := elems e ++ vs;
                        last_key := last_key e;
                        size := size e + Z.of_nat (jlist_length l) |} ],
          d1, (h - jlist_length l)%nat, doc, p) /\
       grown d d1 (records_of_list l) (writes_of_list l) /\
       rep_list d1 l vs /\
       deliver parse_json_cb ctx (events_list l ++ rest) =
       deliver parse_json_cb c rest) /\
  (forall m ctx below e d h doc p rest,
     well_formed ctx -> obs ctx = (below ++ [e], d, h, doc, p) ->
     type e = OBJECT -> plain_members m ->
     (cells_members m <= h)%nat ->
     (records_of_members m <= free_records d)%nat ->
     (writes_of_members m <= free_writes d)%nat ->
     Z.of_nat (length below + 1 + height_members m) <= MAX_DEPTH ->
     exists c vs d1 k',
       well_formed c /\
       obs c =
         (below ++ [ {| type := OBJECT; elems := elems e ++ vs;
                        last_key := k';
                        size := size e + Z.of_nat (jmembers_length m) |} ],
          d1, (h - jmembers_length m)%nat, doc, p) /\
       grown d d1 (records_of_members m) (writes_of_members m) /\
       rep_members d1 m vs /\
       deliver parse_json_cb ctx (events_members m ++ rest) =
       deliver parse_json_cb c rest).
Proof.
  apply json_mutind.
  - (* JInt *)
    intros z ctx below e d h doc p rest Hwf Hobs _ _ _ _ _.
    destruct (deliver_literal ctx JSON_T_INTEGER (snd (ev_int z)) eq_refl)
      as (c & Hc & Hcwf & Hdel).
    exists c, (EInt z), d.
    split; [exact (Hcwf Hwf)|]. split; [rewrite Hc; exact Hobs|].
    split; [apply grown_refl|]. split; [reflexivity|].
    exact (Hdel rest).
  - (* JStr *)
    intros s ctx below e d h doc p rest Hwf Hobs Hplain _ _ _ _.
    destruct (deliver_literal ctx JSON_T_STRING (snd (ev_string s)) eq_refl)
      as (c & Hc & Hcwf & Hdel).
    exists c, (EStr s), d.
    split; [exact (Hcwf Hwf)|]. split; [rewrite Hc; exact Hobs|].
    split; [apply grown_refl|]. split; [reflexivity|].
    specialize (Hdel rest). unfold literal_encoding in Hdel.
    cbn [fst snd ev_string str_value] in Hdel.
    rewrite as_c_string_no_NUL in Hdel
      by (apply plain_string_no_NUL; exact Hplain).
    exact Hdel.
  - (* JArr *)
    intros l IHl ctx below e d h doc p rest Hwf Hobs Hplain Hcells Hrec Hwr
      Hdepth.
    cbn [cells records_of writes_of height plain_json] in *.
    destruct (deliver_begin ctx (below ++ [e]) d h doc p ARRAY no_value
                Hwf Hobs ltac:(rewrite length_app; cbn [length]; lia))
      as (c1 & k & Hwf1 & Hobs1 & Hdel1).
    destruct (IHl c1 (below ++ [e]) (fresh_entry ARRAY k) d h doc p
                (ev JSON_T_ARRAY_END :: rest) Hwf1 Hobs1 eq_refl Hplain
                ltac:(lia) ltac:(lia) ltac:(lia)
                ltac:(rewrite length_app; cbn [length]; lia))
      as (c2 & vs & d1 & Hwf2 & Hobs2 & Hg & Hrepl & Hdel2).
    change (@gint store) with enc in *. change (@db store) with database in *.
    pose proof (rep_list_length d1 l vs Hrepl) as Hlen.
    pose proof (jlist_length_cells l) as Hlc.
    destruct Hg as (Hgl & Hgr & Hgw).
    cbn [fresh_entry elems size last_key app] in Hobs2.
    replace (0 + Z.of_nat (jlist_length l)) with (Z.of_nat (length vs))
      in Hobs2 by lia.
    destruct (ref_close_inner c2 below e ARRAY vs k d1
                (h - jlist_length l) doc p Hwf2 Hobs2 ltac:(lia) ltac:(lia))
      as (freed & Hfw & Hfo & Hpop).
    exists freed, (ERecord (length (records d1))),
      (spend_writes (add_record d1 (container_record KArray false p vs))
         (length vs)).
    split; [exact Hfw|]. split.
    { rewrite Hfo. cbn [kind_of]. repeat f_equal. lia. }
    split.
    { apply (grown_eq d _ (records_of_list l + 1) (writes_of_list l + length vs));
        [|lia|lia].
      eapply grown_trans; [split; [exact Hgl | split; [exact Hgr | exact Hgw]]|].
      apply grown_add_record. }
    split.
    { cbn [rep_val]. exists (length (records d1)),
        (container_record KArray false p vs).
      split; [reflexivity|]. split; [apply rep_container|].
      split; [reflexivity|].
      destruct (rep_grown d1 _ 1 (length vs)
                  (grown_add_record d1 (container_record KArray false p vs)
                     (length vs))) as (_ & Hl' & _).
      apply Hl'. exact Hrepl. }
    cbn [events_json]. rewrite <- app_comm_cons, <- app_assoc.
    cbn [app].
    change (ev JSON_T_ARRAY_BEGIN) with (begin_event no_value ARRAY).
    rewrite Hdel1, Hdel2.
    change (ev JSON_T_ARRAY_END) with (JSON_T_ARRAY_END, no_value).
    rewrite (deliver_end c2 JSON_T_ARRAY_END no_value rest ltac:(left; reflexivity)).
    rewrite Hpop. reflexivity.
  - (* JObj *)
    intros m IHm ctx below e d h doc p rest Hwf Hobs Hplain Hcells Hrec Hwr
      Hdepth.
    cbn [cells records_of writes_of height plain_json] in *.
    destruct (deliver_begin ctx (below ++ [e]) d h doc p OBJECT no_value
                Hwf Hobs ltac:(rewrite length_app; cbn [length]; lia))
      as (c1 & k & Hwf1 & Hobs1 & Hdel1).
    destruct (IHm c1 (below ++ [e]) (fresh_entry OBJECT k) d h doc p
                (ev JSON_T_OBJECT_END :: rest) Hwf1 Hobs1 eq_refl Hplain
                ltac:(lia) ltac:(lia) ltac:(lia)
                ltac:(rewrite length_app; cbn [length]; lia))
      as (c2 & vs & d1 & k' & Hwf2 & Hobs2 & Hg & Hrepl & Hdel2).
    change (@gint store) with enc in *. change (@db store) with database in *.
    pose proof (rep_members_length d1 m vs Hrepl) as Hlen.
    pose proof (jmembers_length_cells m) as Hlc.
    destruct Hg as (Hgl & Hgr & Hgw).
    cbn [fresh_entry elems size last_key app] in Hobs2.
    replace (0 + Z.of_nat (jmembers_length m)) with (Z.of_nat (length vs))
      in Hobs2 by lia.
    destruct (ref_close_inner c2 below e OBJECT vs k' d1
                (h - jmembers_length m) doc p Hwf2 Hobs2 ltac:(lia) ltac:(lia))
      as (freed & Hfw & Hfo & Hpop).
    exists freed, (ERecord (length (records d1))),
      (spend_writes (add_record d1 (container_record KObject false p vs))
         (length vs)).
    split; [exact Hfw|]. split.
    { rewrite Hfo. cbn [kind_of]. repeat f_equal. lia. }
    split.
    { apply (grown_eq d _ (records_of_members m + 1)
               (writes_of_members m + length vs)); [|lia|lia].
      eapply grown_trans; [split; [exact Hgl | split; [exact Hgr | exact Hgw]]|].
      apply grown_add_record. }
    split.
    { cbn [rep_val]. exists (length (records d1)),
        (container_record KObject false p vs).
      split; [reflexivity|]. split; [apply rep_container|].
      split; [reflexivity|].
      destruct (rep_grown d1 _ 1 (length vs)
                  (grown_add_record d1 (container_record KObject false p vs)
                     (length vs))) as (_ & _ & Hm').
      apply Hm'. exact Hrepl. }
    cbn [events_json]. rewrite <- app_comm_cons, <- app_assoc.
    cbn [app].
    change (ev JSON_T_OBJECT_BEGIN) with (begin_event no_value OBJECT).
    rewrite Hdel1, Hdel2.
    change (ev JSON_T_OBJECT_END) with (JSON_T_OBJECT_END, no_value).
    rewrite (deliver_end c2 JSON_T_OBJECT_END no_value rest ltac:(right; reflexivity)).
    rewrite Hpop. reflexivity.
  - (* JNil *)
    intros ctx below e d h doc p rest Hwf Hobs Hty _ _ _ _ _.
    exists ctx, [], d.
    split; [exact Hwf|]. split.
    { rewrite Hobs. cbn [jlist_length]. rewrite Nat.sub_0_r.
      rewrite <- (entry_eta_array e Hty). reflexivity. }
    split; [apply grown_refl|]. split; reflexivity.
  - (* JCons *)
    intros j IHj l IHl ctx below e d h doc p rest Hwf Hobs Hty Hplain Hcells
      Hrec Hwr Hdepth.
    cbn [cells_list records_of_list writes_of_list height_list plain_list] in *.
    destruct Hplain as [Hpj Hpl].
    pose proof (cells_pos j) as Hcp.
    destruct (IHj ctx below e d h doc p (events_list l ++ rest) Hwf Hobs Hpj
                ltac:(lia) ltac:(lia) ltac:(lia) ltac:(lia))
      as (c & v & d1 & Hwfc & Hobsc & Hg1 & Hrepj & Hdelj).
    destruct (then_deliver_add_literal c below e d1 h doc p v
                (events_list l ++ rest) Hwfc Hobsc
                (rep_val_legal d1 j v Hrepj) ltac:(lia)
                ltac:(intros H; congruence))
      as (c' & Hwf' & Hobs' & Hdel').
    rewrite Hty in Hobs'.
    pose proof Hg1 as (_ & Hg1r & Hg1w).
    destruct (IHl c' below (with_elem e v) d1 (h - 1)%nat doc p rest
                Hwf' Hobs' Hty Hpl ltac:(lia) ltac:(lia) ltac:(lia)
                ltac:(lia))
      as (c'' & vs & d2 & Hwf'' & Hobs'' & Hg2 & Hrepl & Hdel'').
    exists c'', (v :: vs), d2.
    split; [exact Hwf''|]. split.
    { rewrite Hobs''. cbn [with_elem elems size last_key jlist_length].
      rewrite <- app_assoc. cbn [app].
      replace (size e + 1 + Z.of_nat (jlist_length l))
        with (size e + Z.of_nat (S (jlist_length l))) by lia.
      replace (h - 1 - jlist_length l)%nat with (h - S (jlist_length l))%nat
        by lia.
      reflexivity. }
    split; [eapply grown_trans; eassumption|].
    split.
    { cbn [rep_list]. exists v, vs. split; [reflexivity|].
      split; [|exact Hrepl].
      destruct (rep_grown d1 d2 _ _ Hg2) as (Hj' & _). apply Hj'. exact Hrepj. }
    cbn [events_list]. rewrite <- app_assoc, Hdelj, Hdel', Hdel''.
    reflexivity.
  - (* MNil *)
    intros ctx below e d h doc p rest Hwf Hobs Hty _ _ _ _ _.
    exists ctx, [], d, (last_key e).
    split; [exact Hwf|]. split.
    { rewrite Hobs. cbn [jmembers_length]. rewrite Nat.sub_0_r.
      rewrite <- (entry_eta_object e Hty). reflexivity. }
    split; [apply grown_refl|]. split; reflexivity.
  - (* MCons *)
    intros k j IHj m IHm ctx below e d h doc p rest Hwf Hobs Hty Hplain Hcells
      Hrec Hwr Hdepth.
    cbn [cells_members records_of_members writes_of_members height_members
         plain_members] in *.
    destruct Hplain as ((Hpk & Hklen) & Hpj & Hpm).
    pose proof (cells_pos j) as Hcp.
    destruct (deliver_key ctx below e d h doc p k Hwf Hobs)
      as (c0 & Hwf0 & Hobs0 & Hdel0).
    destruct (IHj c0 below (with_key e k) d h doc p
                (events_members m ++ rest) Hwf0 Hobs0 Hpj
                ltac:(lia) ltac:(lia) ltac:(lia) ltac:(lia))
      as (c & v & d1 & Hwfc & Hobsc & Hg1 & Hrepj & Hdelj).
    pose proof Hg1 as (_ & Hg1r & Hg1w).
    destruct (then_deliver_add_literal c below (with_key e k) d1 h doc p v
                (events_members m ++ rest) Hwfc Hobsc
                (rep_val_legal d1 j v Hrepj) ltac:(lia)
                ltac:(intros _; lia))
      as (c' & Hwf' & Hobs' & Hdel').
    change (type (with_key e k)) with (type e) in Hobs'.
    rewrite Hty in Hobs'.
    assert (Hkey : stored_key k = k).
    { rewrite (stored_key_spec k (plain_string_no_NUL k Hpk)).
      destruct (decide (String.length k <= 79)%nat); [reflexivity | lia]. }
    change (c_str (last_key (with_key e k))) with (stored_key k) in Hobs'.
    rewrite Hkey in Hobs'.
    set (pair := kvpair_record k v p) in *.
    assert (Hgp : grown d1 (add_record d1 pair) 1 0)
      by (apply grown_add_pair; lia).
    pose proof Hgp as (_ & Hgpr & Hgpw).
    destruct (IHm c' below _ (add_record d1 pair) (h - 1)%nat doc p rest
                Hwf' Hobs' Hty Hpm ltac:(lia) ltac:(lia) ltac:(lia)
                ltac:(lia))
      as (c'' & vs & d2 & k'' & Hwf'' & Hobs'' & Hg2 & Hrepm & Hdel'').
    exists c'', (ERecord (length (records d1)) :: vs), d2, k''.
    split; [exact Hwf''|]. split.
    { rewrite Hobs''.
      cbn [with_elem with_key elems size last_key jmembers_length].
      rewrite <- app_assoc. cbn [app].
      replace (size e + 1 + Z.of_nat (jmembers_length m))
        with (size e + Z.of_nat (S (jmembers_length m))) by lia.
      replace (h - 1 - jmembers_length m)%nat
        with (h - S (jmembers_length m))%nat by lia.
      reflexivity. }
    split.
    { apply (grown_eq d _ (records_of j + (1 + records_of_members m))
               (writes_of j + (0 + writes_of_members m))); [|lia|lia].
      eapply grown_trans; [exact Hg1|].
      eapply grown_trans; [exact Hgp | exact Hg2]. }
    split.
    { cbn [rep_members].
      exists (length (records d1)), pair, v, vs.
      split; [reflexivity|]. split.
      { eapply grown_lookup; [exact Hg2|]. cbn.
        rewrite lookup_app_r by lia. rewrite Nat.sub_diag. reflexivity. }
      split; [reflexivity|]. split; [reflexivity|].
      split; [|exact Hrepm].
      destruct (rep_grown d1 (add_record d1 pair) _ _ Hgp) as (Hj1 & _).
      destruct (rep_grown (add_record d1 pair) d2 _ _ Hg2) as (Hj2 & _).
      apply Hj2, Hj1. exact Hrepj. }
    cbn [events_members]. rewrite <- app_comm_cons, <- app_assoc.
    rewrite Hdel0, Hdelj, Hdel', Hdel''. reflexivity.
Qed.

End BuildTree.

Section BuildDocument.
Import RefStore.
Context `{B : Build}.

(** The events of a container, delivered from the context
    [run_json_parser] sets up: the delivery succeeds, and the document
    slot holds a record that represents the container and is marked as
    a document. *)
Lemma build_document (env : c_env) (d : database) (param : bool)
  (doc : option nat) (j : json) :
  is_container j = true -> plain_json j ->
  (cells j <= free_cells env)%nat ->
  (records_of j <= free_records d)%nat ->
  (writes_of j <= free_writes d)%nat ->
  Z.of_nat (height j) <= MAX_DEPTH ->
  exists c r rec,
    deliver parse_json_cb (initial_context env d param doc) (events_json j)
      = (c, true) /\
    document c = Some r /\
    records (ctx_db c) !! r = Some rec /\
    is_document rec = true /\
    rep_val (ctx_db c) j (ERecord r).
Proof.
  intros Hcont Hplain Hcells Hrec Hwr Hdepth.
  destruct (build_tree) as (_ & Hlist & Hmembers).
  destruct j as [z | s | l | m]; try discriminate Hcont.
  - cbn [cells records_of writes_of height plain_json events_json] in *.
    destruct (ref_cb_begin_outermost env d param doc ARRAY no_value)
      as (c1 & k & Hcb & Hwf1 & Hobs1).
    cbn [begin_event fst] in Hcb.
    destruct (Hlist l c1 [] (fresh_entry ARRAY k) d (free_cells env) doc param
                [ev JSON_T_ARRAY_END] Hwf1 Hobs1 eq_refl Hplain
                ltac:(lia) ltac:(lia) ltac:(lia) ltac:(cbn [length]; lia))
      as (c2 & vs & d1 & Hwf2 & Hobs2 & Hg & Hrepl & Hdel2).
    change (@gint store) with enc in *. change (@db store) with database in *.
    pose proof (rep_list_length d1 l vs Hrepl) as Hlen.
    destruct Hg as (Hgl & Hgr & Hgw).
    cbn [fresh_entry elems size last_key app] in Hobs2.
    pose proof (ref_pop_outermost c2 _ d1 _ doc param Hwf2 Hobs2
                  ltac:(unfold counted; cbn; lia)) as Hpop.
    cbn [elems type kind_of] in Hpop.
    match type of Hpop with
    | (if ?b then _ else _) =>
        assert (Hb : b = true)
          by (apply andb_true_iff; split; apply Nat.leb_le;
              change (@gint store) with enc in *; lia);
        rewrite Hb in Hpop
    end.
    destruct Hpop as (Hr & _ & Hobs3).
    exists (fst (pop c2)), (length (records d1)),
      (container_record KArray true param vs).
    assert (Hdb : ctx_db (fst (pop c2)) =
                  spend_writes
                    (add_record d1 (container_record KArray true param vs))
                    (length vs))
      by (unfold obs in Hobs3; inversion Hobs3; reflexivity).
    split.
    { cbn [deliver]. unfold ev at 1. rewrite Hcb. cbn [Z.eqb].
      rewrite Hdel2.
      change (ev JSON_T_ARRAY_END) with (JSON_T_ARRAY_END, no_value).
      rewrite (deliver_end c2 JSON_T_ARRAY_END no_value []
                 ltac:(left; reflexivity)).
      unfold then_deliver. destruct (pop c2) as [c3 r3].
      cbn [fst snd] in *. subst r3. reflexivity. }
    split; [unfold obs in Hobs3; inversion Hobs3; assumption|].
    rewrite Hdb.
    split; [cbn; rewrite lookup_app_r by lia; rewrite Nat.sub_diag;
            reflexivity|].
    split; [reflexivity|].
    cbn [rep_val]. exists (length (records d1)),
      (container_record KArray true param vs).
    split; [reflexivity|].
    split; [cbn; rewrite lookup_app_r by lia; rewrite Nat.sub_diag;
            reflexivity|].
    split; [reflexivity|].
    destruct (rep_grown d1 _ 1 (length vs)
                (grown_add_record d1 (container_record KArray true param vs)
                   (length vs))) as (_ & Hl' & _).
    apply Hl'. exact Hrepl.
  - cbn [cells records_of writes_of height plain_json events_json] in *.
    destruct (ref_cb_begin_outermost env d param doc OBJECT no_value)
      as (c1 & k & Hcb & Hwf1 & Hobs1).
    cbn [begin_event fst] in Hcb.
    destruct (Hmembers m c1 [] (fresh_entry OBJECT k) d (free_cells env) doc
                param [ev JSON_T_OBJECT_END] Hwf1 Hobs1 eq_refl Hplain
                ltac:(lia) ltac:(lia) ltac:(lia) ltac:(cbn [length]; lia))
      as (c2 & vs & d1 & k' & Hwf2 & Hobs2 & Hg & Hrepl & Hdel2).
    change (@gint store) with enc in *. change (@db store) with database in *.
    pose proof (rep_members_length d1 m vs Hrepl) as Hlen.
    destruct Hg as (Hgl & Hgr & Hgw).
    cbn [fresh_entry elems size last_key app] in Hobs2.
    pose proof (ref_pop_outermost c2 _ d1 _ doc param Hwf2 Hobs2
                  ltac:(unfold counted; cbn; lia)) as Hpop.
    cbn [elems type kind_of] in Hpop.
    match type of Hpop with
    | (if ?b then _ else _) =>
        assert (Hb : b = true)
          by (apply andb_true_iff; split; apply Nat.leb_le;
              change (@gint store) with enc in *; lia);
        rewrite Hb in Hpop
    end.
    destruct Hpop as (Hr & _ & Hobs3).
    exists (fst (pop c2)), (length (records d1)),
      (container_record KObject true param vs).
    assert (Hdb : ctx_db (fst (pop c2)) =
                  spend_writes
                    (add_record d1 (container_record KObject true param vs))
                    (length vs))
      by (unfold obs in Hobs3; inversion Hobs3; reflexivity).
    split.
    { cbn [deliver]. unfold ev at 1. rewrite Hcb. cbn [Z.eqb].
      rewrite Hdel2.
      change (ev JSON_T_OBJECT_END) with (JSON_T_OBJECT_END, no_value).
      rewrite (deliver_end c2 JSON_T_OBJECT_END no_value []
                 ltac:(right; reflexivity)).
      unfold then_deliver. destruct (pop c2) as [c3 r3].
      cbn [fst snd] in *. subst r3. reflexivity. }
    split; [unfold obs in Hobs3; inversion Hobs3; assumption|].
    rewrite Hdb.
    split; [cbn; rewrite lookup_app_r by lia; rewrite Nat.sub_diag;
            reflexivity|].
    split; [reflexivity|].
    cbn [rep_val]. exists (length (records d1)),
      (container_record KObject true param vs).
    split; [reflexivity|].
    split; [cbn; rewrite lookup_app_r by lia; rewrite Nat.sub_diag;
            reflexivity|].
    split; [reflexivity|].
    destruct (rep_grown d1 _ 1 (length vs)
                (grown_add_record d1 (container_record KObject true param vs)
                   (length vs))) as (_ & _ & Hm').
    apply Hm'. exact Hrepl.
Qed.

End BuildDocument.

Section TextRunFacts.
Context `{St : Store} `{Tk : !Tokenizer}.

Lemma reads_nil (jc : JSON_parser_struct) : reads jc EmptyString [] jc.
Proof. reflexivity. Qed.

Lemma reads_char (jc jc' : JSON_parser_struct) (c : ascii)
  (evs : list (JSON_type * JSON_value)) :
  Ascii.eqb c NUL = false -> JSON_parser_lex jc c = (evs, Some jc') ->
  reads jc (String c EmptyString) evs jc'.
Proof.
  intros Hc Hlex. unfold reads. cbn [lex_text]. rewrite Hc, Hlex.
  cbn [fst snd]. rewrite app_nil_r. reflexivity.
Qed.

Lemma reads_app (s t : string) :
  forall (jc jc1 jc2 : JSON_parser_struct)
         (e1 e2 : list (JSON_type * JSON_value)),
    reads jc s e1 jc1 -> reads jc1 t e2 jc2 ->
    reads jc (s +:+ t) (e1 ++ e2) jc2.
Proof.
  unfold reads. induction s as [|c s IH]; intros jc jc1 jc2 e1 e2 Hs Ht.
  - cbn in Hs. inversion Hs; subst. exact Ht.
  - rewrite append_cons. cbn [lex_text] in *.
    destruct (Ascii.eqb c NUL); [discriminate|].
    destruct (snd (JSON_parser_lex jc c)) as [jc'|]; [|discriminate].
    destruct (lex_text jc' s) as [es r] eqn:Hrun. cbn [fst snd] in Hs.
    inversion Hs; subst.
    rewrite (IH jc' jc1 jc2 es e2 Hrun Ht). cbn [fst snd].
    rewrite app_assoc. reflexivity.
Qed.

(** A text that is read to the end gives its events to the parser loop,
    which then asks whether the tokenizer is done. *)
Lemma reads_lex_events (s : string) :
  forall (jc jc' : JSON_parser_struct) (evs : list (JSON_type * JSON_value)),
    reads jc s evs jc' ->
    lex_events jc (list_ascii_of_string s) = evs /\
    lex_accepts jc (list_ascii_of_string s) = JSON_parser_done jc'.
Proof.
  unfold reads. induction s as [|c s IH]; intros jc jc' evs Hs.
  - cbn in Hs. inversion Hs; subst. split; reflexivity.
  - cbn [lex_text list_ascii_of_string lex_events lex_accepts] in *.
    destruct (Ascii.eqb c NUL); [discriminate|].
    destruct (snd (JSON_parser_lex jc c)) as [jc1|]; [|discriminate].
    destruct (lex_text jc1 s) as [es r] eqn:Hrun. cbn [fst snd] in Hs.
    inversion Hs; subst.
    destruct (IH jc1 jc' es Hrun) as [He Ha].
    rewrite He, Ha. split; reflexivity.
Qed.

End TextRunFacts.

Section RefLexer.
Import RefTokenizer.
Variable D : Z.

Local Abbreviation rd := (@reads RefStore.store ref_tokenizer).

Lemma rd_then (s t : string) (jc jc1 jc2 : parser)
  (e : list (JSON_type * JSON_value)) :
  rd jc s [] jc1 -> rd jc1 t e jc2 -> rd jc (s +:+ t) e jc2.
Proof. intros H1 H2. exact (reads_app s t jc jc1 jc2 [] e H1 H2). Qed.

Lemma open_allowed (ms : list mode) :
  Z.of_nat (length ms) < D ->
  (0 <=? D) && (D <=? Z.of_nat (length ms)) = false.
Proof.
  intros H. apply andb_false_iff. right. apply Z.leb_gt. exact H.
Qed.

Lemma rd_open_array (s0 : tstate) (ms : list mode) :
  s0 = GO \/ s0 = VA \/ s0 = AR -> Z.of_nat (length ms) < D ->
  rd (at_state s0 ms D) "[" [ev JSON_T_ARRAY_BEGIN]
     (at_state AR (MODE_ARRAY :: ms) D).
Proof.
  intros Hs Hd. apply reads_char; [reflexivity|].
  destruct Hs as [-> | [-> | ->]]; cbn; unfold open; cbn;
    rewrite (open_allowed ms Hd); reflexivity.
Qed.

Lemma rd_open_object (s0 : tstate) (ms : list mode) :
  s0 = GO \/ s0 = VA \/ s0 = AR -> Z.of_nat (length ms) < D ->
  rd (at_state s0 ms D) "{" [ev JSON_T_OBJECT_BEGIN]
     (at_state OB (MODE_KEY :: ms) D).
Proof.
  intros Hs Hd. apply reads_char; [reflexivity|].
  destruct Hs as [-> | [-> | ->]]; cbn; unfold open; cbn;
    rewrite (open_allowed ms Hd); reflexivity.
Qed.

Lemma rd_blank_at (c : ascii) (s0 : tstate) (ms : list mode) :
  is_blank c ->
  s0 = GO \/ s0 = OB \/ s0 = KE \/ s0 = CO \/ s0 = VA \/ s0 = AR ->
  rd (at_state s0 ms D) (String c EmptyString) [] (at_state s0 ms D).
Proof.
  intros [-> | ->] Hs; (apply reads_char; [reflexivity|]);
    destruct Hs as [-> | [-> | [-> | [-> | [-> | ->]]]]]; reflexivity.
Qed.

Lemma rd_blank_after (c : ascii) (jc : parser) (ms : list mode)
  (pend : list (JSON_type * JSON_value)) :
  is_blank c -> after_value jc ms D pend ->
  exists jc', rd jc (String c EmptyString) [] jc' /\
              after_value jc' ms D pend.
Proof.
  intros Hc (Hm & Hd & Hf & Hs).
  exists (with_state jc OK). split.
  - destruct jc as [s ms' ty buf D']. cbn in Hs.
    destruct Hc as [-> | ->]; (apply reads_char; [reflexivity|]);
      destruct Hs as [-> | [-> | ->]]; reflexivity.
  - destruct jc as [s ms' ty buf D']. cbn in *.
    repeat split; try assumption. left. reflexivity.
Qed.

Lemma rd_indent_at (n : nat) (s0 : tstate) (ms : list mode) :
  s0 = GO \/ s0 = OB \/ s0 = KE \/ s0 = CO \/ s0 = VA \/ s0 = AR ->
  rd (at_state s0 ms D) (indent_text n) [] (at_state s0 ms D).
Proof.
  intros Hs. induction n as [|n IH]; [apply reads_nil|].
  cbn [indent_text].
  change ("  " +:+ indent_text n)
    with (" " +:+ (" " +:+ indent_text n)).
  eapply rd_then; [apply rd_blank_at; [left; reflexivity | exact Hs]|].
  eapply rd_then; [apply rd_blank_at; [left; reflexivity | exact Hs]|].
  exact IH.
Qed.

Lemma rd_indent_after (n : nat) :
  forall (jc : parser) (ms : list mode)
         (pend : list (JSON_type * JSON_value)),
    after_value jc ms D pend ->
    exists jc', rd jc (indent_text n) [] jc' /\ after_value jc' ms D pend.
Proof.
  induction n as [|n IH]; intros jc ms pend Ha.
  - exists jc. split; [apply reads_nil | exact Ha].
  - cbn [indent_text].
    change ("  " +:+ indent_text n)
      with (" " +:+ (" " +:+ indent_text n)).
    destruct (rd_blank_after " " jc ms pend ltac:(left; reflexivity) Ha)
      as (jc1 & Hr1 & Ha1).
    destruct (rd_blank_after " " jc1 ms pend ltac:(left; reflexivity) Ha1)
      as (jc2 & Hr2 & Ha2).
    destruct (IH jc2 ms pend Ha2) as (jc3 & Hr3 & Ha3).
    exists jc3. split; [|exact Ha3].
    eapply rd_then; [exact Hr1|].
    eapply rd_then; [exact Hr2 | exact Hr3].
Qed.

Lemma rd_comma_array (jc : parser) (ms : list mode)
  (pend : list (JSON_type * JSON_value)) :
  after_value jc (MODE_ARRAY :: ms) D pend ->
  rd jc "," pend (at_state VA (MODE_ARRAY :: ms) D).
Proof.
  intros (Hm & Hd & Hf & Hs). destruct jc as [s ms' ty buf D'].
  cbn in Hm, Hd, Hs. subst ms' D'.
  apply reads_char; [reflexivity|].
  destruct Hs as [-> | [-> | ->]]; cbn; unfold comma; cbn;
    rewrite <- Hf; reflexivity.
Qed.

Lemma rd_comma_object (jc : parser) (ms : list mode)
  (pend : list (JSON_type * JSON_value)) :
  after_value jc (MODE_OBJECT :: ms) D pend ->
  rd jc "," pend (at_state KE (MODE_KEY :: ms) D).
Proof.
  intros (Hm & Hd & Hf & Hs). destruct jc as [s ms' ty buf D'].
  cbn in Hm, Hd, Hs. subst ms' D'.
  apply reads_char; [reflexivity|].
  destruct Hs as [-> | [-> | ->]]; cbn; unfold comma; cbn;
    rewrite <- Hf; reflexivity.
Qed.

Lemma rd_close_array (jc : parser) (i : Z) (ms : list mode)
  (pend : list (JSON_type * JSON_value)) :
  array_pos jc i ms D pend ->
  rd jc "]" (pend ++ [ev JSON_T_ARRAY_END]) (at_state OK ms D).
Proof.
  unfold array_pos. destruct (i =? 0).
  - intros [-> ->]. apply reads_char; reflexivity.
  - intros (Hm & Hd & Hf & Hs). destruct jc as [s ms' ty buf D'].
    cbn in Hm, Hd, Hs. subst ms' D'.
    apply reads_char; [reflexivity|].
    destruct Hs as [-> | [-> | ->]]; cbn; unfold close; cbn;
      rewrite <- Hf; reflexivity.
Qed.

Lemma rd_close_object (jc : parser) (i : Z) (ms : list mode)
  (pend : list (JSON_type * JSON_value)) :
  object_pos jc i ms D pend ->
  rd jc "}" (pend ++ [ev JSON_T_OBJECT_END]) (at_state OK ms D).
Proof.
  unfold object_pos. destruct (i =? 0).
  - intros [-> ->]. apply reads_char; reflexivity.
  - intros (Hm & Hd & Hf & Hs). destruct jc as [s ms' ty buf D'].
    cbn in Hm, Hd, Hs. subst ms' D'.
    apply reads_char; [reflexivity|].
    destruct Hs as [-> | [-> | ->]]; cbn; unfold close; cbn;
      rewrite <- Hf; reflexivity.
Qed.

Lemma rd_string_begin (s0 : tstate) (ms : list mode) :
  s0 = OB \/ s0 = KE \/ s0 = VA \/ s0 = AR ->
  rd (at_state s0 ms D) dquote [] (in_token ST ms D JSON_T_STRING EmptyString).
Proof.
  intros Hs. apply reads_char; [reflexivity|].
  destruct Hs as [-> | [-> | [-> | ->]]]; reflexivity.
Qed.

Lemma plain_char_lex (c : ascii) (ms : list mode) (buf : string) :
  plain_char c = true ->
  Ascii.eqb c NUL = false /\
  @lex RefStore.store (fun _ => tt) (in_token ST ms D JSON_T_STRING buf) c =
    ([], Some (in_token ST ms D JSON_T_STRING (buf +:+ String c EmptyString))).
Proof.
  unfold plain_char. intros H.
  apply andb_true_iff in H as [H H92]. apply andb_true_iff in H as [H32 H34].
  apply negb_true_iff in H92, H34. apply Nat.leb_le in H32.
  split.
  - apply Ascii.eqb_neq. intros ->.
    change (nat_of_ascii NUL) with 0%nat in H32. lia.
  - cbn [lex in_token jstate]. rewrite H34, H92.
    destruct (nat_of_ascii c <? 32)%nat eqn:Hlt;
      [apply Nat.ltb_lt in Hlt; lia|].
    reflexivity.
Qed.

Lemma rd_string_chars (k : string) :
  forall (ms : list mode) (buf : string),
    plain_string k = true ->
    rd (in_token ST ms D JSON_T_STRING buf) k []
       (in_token ST ms D JSON_T_STRING (buf +:+ k)).
Proof.
  induction k as [|c k IH]; intros ms buf Hp.
  - rewrite append_nil_r. apply reads_nil.
  - cbn [plain_string] in Hp. apply andb_true_iff in Hp as [Hc Hk].
    destruct (plain_char_lex c ms buf Hc) as [Hnul Hlex].
    change (String c k) with (String c EmptyString +:+ k).
    eapply rd_then; [apply reads_char; [exact Hnul | exact Hlex]|].
    rewrite <- append_assoc. apply IH. exact Hk.
Qed.

Lemma rd_string_end_key (ms : list mode) (buf : string) :
  rd (in_token ST (MODE_KEY :: ms) D JSON_T_STRING buf) dquote [ev_key buf]
     (at_state CO (MODE_KEY :: ms) D).
Proof. apply reads_char; reflexivity. Qed.

Lemma rd_string_end_value (ms : list mode) (buf : string) :
  match ms with MODE_ARRAY :: _ | MODE_OBJECT :: _ => True | _ => False end ->
  rd (in_token ST ms D JSON_T_STRING buf) dquote [ev_string buf]
     (at_state OK ms D).
Proof.
  intros Hm. apply reads_char; [reflexivity|].
  destruct ms as [|[] ms]; try contradiction; reflexivity.
Qed.

(** A quoted plain text as a key and as a value. *)
Lemma rd_key (s0 : tstate) (ms : list mode) (k : string) :
  s0 = OB \/ s0 = KE -> plain_string k = true ->
  rd (at_state s0 (MODE_KEY :: ms) D) (dquote +:+ k +:+ dquote) [ev_key k]
     (at_state CO (MODE_KEY :: ms) D).
Proof.
  intros Hs Hk.
  eapply rd_then; [apply rd_string_begin; tauto|].
  eapply rd_then; [apply rd_string_chars; exact Hk|].
  apply rd_string_end_key.
Qed.

Lemma rd_string (s0 : tstate) (ms : list mode) (s : string) :
  s0 = VA \/ s0 = AR ->
  match ms with MODE_ARRAY :: _ | MODE_OBJECT :: _ => True | _ => False end ->
  plain_string s = true ->
  rd (at_state s0 ms D) (dquote +:+ s +:+ dquote) [ev_string s]
     (at_state OK ms D).
Proof.
  intros Hs Hm Hp.
  eapply rd_then; [apply rd_string_begin; tauto|].
  eapply rd_then; [apply rd_string_chars; exact Hp|].
  apply rd_string_end_value. exact Hm.
Qed.

Lemma rd_colon (ms : list mode) :
  rd (at_state CO (MODE_KEY :: ms) D) ": " []
     (at_state VA (MODE_OBJECT :: ms) D).
Proof.
  change ": " with (":" +:+ " ").
  eapply rd_then; [apply reads_char; reflexivity|].
  apply rd_blank_at; [left; reflexivity | tauto].
Qed.

Lemma digit19_lex (c : ascii) (s0 : tstate) (ms : list mode) (buf : string) :
  is_digit19 c = true -> s0 = VA \/ s0 = AR ->
  Ascii.eqb c NUL = false /\
  @lex RefStore.store (fun _ => tt) (at_state s0 ms D) c =
    ([], Some (in_token IT ms D JSON_T_INTEGER (String c EmptyString))) /\
  @lex RefStore.store (fun _ => tt) (in_token MI ms D JSON_T_INTEGER buf) c =
    ([], Some (in_token IT ms D JSON_T_INTEGER
                 (buf +:+ String c EmptyString))).
Proof.
  intros Hc Hs.
  destruct c as [b0 b1 b2 b3 b4 b5 b6 b7];
    destruct b0, b1, b2, b3, b4, b5, b6, b7;
    vm_compute in Hc; try discriminate Hc;
    (split; [reflexivity|]);
    (split; [destruct Hs as [-> | ->]; reflexivity | reflexivity]).
Qed.

Lemma digit_lex (c : ascii) (ms : list mode) (buf : string) :
  is_digit c = true ->
  Ascii.eqb c NUL = false /\
  @lex RefStore.store (fun _ => tt) (in_token IT ms D JSON_T_INTEGER buf) c =
    ([], Some (in_token IT ms D JSON_T_INTEGER
                 (buf +:+ String c EmptyString))).
Proof.
  intros Hc. split.
  - apply Ascii.eqb_neq. intros ->. discriminate Hc.
  - cbn [lex in_token jstate]. rewrite Hc. reflexivity.
Qed.

Lemma rd_digits (rest : string) :
  forall (ms : list mode) (buf : string),
    all_digits rest = true ->
    rd (in_token IT ms D JSON_T_INTEGER buf) rest []
       (in_token IT ms D JSON_T_INTEGER (buf +:+ rest)).
Proof.
  induction rest as [|c k IH]; intros ms buf Hp.
  - rewrite append_nil_r. apply reads_nil.
  - cbn [all_digits] in Hp. apply andb_true_iff in Hp as [Hc Hk].
    destruct (digit_lex c ms buf Hc) as [Hnul Hlex].
    change (String c k) with (String c EmptyString +:+ k).
    eapply rd_then; [apply reads_char; [exact Hnul | exact Hlex]|].
    rewrite <- append_assoc. apply IH. exact Hk.
Qed.

Lemma after_integer (s : tstate) (ms : list mode) (z : Z) :
  s = ZE \/ s = IT ->
  after_value (in_token s ms D JSON_T_INTEGER (decimal z)) ms D [ev_int z].
Proof.
  intros Hs. split; [reflexivity|]. split; [reflexivity|].
  split; [|tauto].
  unfold flush, ev_int. cbn [in_token jtype buffer]. unfold value_of.
  rewrite sscanf_integer_decimal. reflexivity.
Qed.

(** The decimal text of an integer is read as one number, which the
    tokenizer holds back until the next separator. *)
Lemma rd_decimal (s0 : tstate) (ms : list mode) (z : Z) :
  s0 = VA \/ s0 = AR ->
  exists jc', rd (at_state s0 ms D) (decimal z) [] jc' /\
              after_value jc' ms D [ev_int z].
Proof.
  intros Hs. unfold decimal at 1.
  destruct (z <? 0) eqn:Hz.
  - apply Z.ltb_lt in Hz.
    destruct (digits_shape (- z) ltac:(lia)) as [[H0 _] | (_ & c & rest & Hd & Hc & Hr)];
      [lia|].
    exists (in_token IT ms D JSON_T_INTEGER (decimal z)).
    split; [|apply after_integer; tauto].
    rewrite Hd.
    destruct (digit19_lex c s0 ms "-" Hc Hs) as (Hnul & _ & Hlex).
    change (String "-" (String c rest))
      with ("-" +:+ (String c EmptyString +:+ rest)).
    eapply rd_then;
      [apply (@reads_char RefStore.store ref_tokenizer _
                (in_token MI ms D JSON_T_INTEGER "-"));
       [reflexivity | destruct Hs as [-> | ->]; reflexivity]|].
    eapply rd_then; [apply reads_char; [exact Hnul | exact Hlex]|].
    replace (decimal z) with (("-" +:+ String c EmptyString) +:+ rest).
    + apply rd_digits. exact Hr.
    + unfold decimal. apply Z.ltb_lt in Hz. rewrite Hz, Hd. reflexivity.
  - apply Z.ltb_ge in Hz.
    destruct (digits_shape z Hz) as [[H0 Hd] | (_ & c & rest & Hd & Hc & Hr)].
    + subst z. exists (in_token ZE ms D JSON_T_INTEGER (decimal 0)).
      split; [|apply after_integer; tauto].
      rewrite Hd. apply reads_char; [reflexivity|].
      destruct Hs as [-> | ->]; reflexivity.
    + exists (in_token IT ms D JSON_T_INTEGER (decimal z)).
      split; [|apply after_integer; tauto].
      rewrite Hd.
      destruct (digit19_lex c s0 ms EmptyString Hc Hs) as (Hnul & Hlex & _).
      change (String c rest) with (String c EmptyString +:+ rest).
      eapply rd_then; [apply reads_char; [exact Hnul | exact Hlex]|].
      replace (decimal z) with (String c EmptyString +:+ rest).
      * apply rd_digits. exact Hr.
      * unfold decimal. apply Z.ltb_ge in Hz. rewrite Hz, Hd. reflexivity.
Qed.

(** *** The shape of the printer's text *)

Lemma value_text_array (l : jlist) (indent : nat) :
  value_text (JArr l) indent = "[" +:+ (render_elems l indent 0 +:+ "]").
Proof.
  cbn [value_text render]. change (newline_str 0) with EmptyString.
  rewrite append_nil_r. reflexivity.
Qed.

Lemma value_text_object (m : jmembers) (indent : nat) :
  value_text (JObj m) indent =
  "{" +:+ (String (ascii_of_nat 10) EmptyString +:+
           (render_members m indent 0 +:+ (indent_text indent +:+ "}"))).
Proof.
  cbn [value_text render]. change (newline_str 0) with EmptyString.
  rewrite append_nil_r. reflexivity.
Qed.

Lemma render_elems_cons (j : json) (l : jlist) (indent : nat) (i : Z) :
  render_elems (JCons j l) indent i =
  comma_str i +:+ (value_text j indent +:+ render_elems l indent (i + 1)).
Proof.
  destruct j; cbn [render_elems value_text render];
    change (newline_str 0) with EmptyString;
    change (comma_str 0) with EmptyString;
    rewrite ?append_assoc; reflexivity.
Qed.

Lemma render_members_cons (k : string) (j : json) (m : jmembers)
  (indent : nat) (i : Z) :
  render_members (MCons k j m) indent i =
  (indent_text (S indent) +:+ comma_str i) +:+
  ((dquote +:+ k +:+ dquote) +:+
   (": " +:+
    (value_text j (S indent) +:+
     (String (ascii_of_nat 10) EmptyString +:+
      render_members m indent (i + 1))))).
Proof.
  destruct j; cbn [render_members value_text render];
    change (newline_str 0) with EmptyString;
    change (newline_str 1) with (String (ascii_of_nat 10) EmptyString);
    change (comma_str 0) with EmptyString;
    rewrite ?append_assoc, ?append_nil_r; reflexivity.
Qed.

Lemma render_container (j : json) (indent : nat) :
  is_container j = true ->
  render j indent 0 1 =
  value_text j indent +:+ String (ascii_of_nat 10) EmptyString.
Proof.
  destruct j; try discriminate; intros _; cbn [value_text render];
    change (newline_str 0) with EmptyString;
    change (newline_str 1) with (String (ascii_of_nat 10) EmptyString);
    change (comma_str 0) with EmptyString;
    rewrite ?append_assoc, ?append_nil_r; reflexivity.
Qed.

(** *** Positions *)

Lemma after_value_OK (ms : list mode) :
  after_value (at_state OK ms D) ms D [].
Proof. repeat split. left. reflexivity. Qed.

Lemma rd_elem_start (jc : parser) (i : Z) (ms : list mode)
  (pend : list (JSON_type * JSON_value)) :
  array_pos jc i ms D pend ->
  exists s0, (s0 = VA \/ s0 = AR) /\
             rd jc (comma_str i) pend (at_state s0 (MODE_ARRAY :: ms) D).
Proof.
  unfold array_pos, comma_str. destruct (i =? 0).
  - intros [-> ->]. exists AR. split; [tauto | apply reads_nil].
  - intros Ha. exists VA. split; [tauto | apply rd_comma_array; exact Ha].
Qed.

Lemma rd_indent_pos (n : nat) (jc : parser) (i : Z) (ms : list mode)
  (pend : list (JSON_type * JSON_value)) :
  object_pos jc i ms D pend ->
  exists jc', rd jc (indent_text n) [] jc' /\ object_pos jc' i ms D pend.
Proof.
  unfold object_pos. destruct (i =? 0).
  - intros [-> ->]. eexists. split; [apply rd_indent_at; tauto|].
    split; reflexivity.
  - apply rd_indent_after.
Qed.

Lemma rd_member_start (n : nat) (jc : parser) (i : Z) (ms : list mode)
  (pend : list (JSON_type * JSON_value)) :
  object_pos jc i ms D pend ->
  exists s0, (s0 = OB \/ s0 = KE) /\
             rd jc (indent_text n +:+ comma_str i) pend
                (at_state s0 (MODE_KEY :: ms) D).
Proof.
  intros Hp. destruct (rd_indent_pos n jc i ms pend Hp) as (jc1 & Hr & Hp1).
  revert Hp1. unfold object_pos, comma_str. destruct (i =? 0).
  - intros [-> ->]. exists OB. split; [tauto|].
    rewrite append_nil_r. exact Hr.
  - intros Ha. exists KE. split; [tauto|].
    eapply rd_then; [exact Hr | apply rd_comma_object; exact Ha].
Qed.

(** *** The text of a tree *)

(** The reference tokenizer reads the text the printer writes for a
    plain tree as the events of that tree: a value from a position
    where a value may start, the elements of an array from element
    [i] on, the members of an object from member [i] on.  The last
    event may still be held back. *)
Lemma rd_tree :
  (forall j s0 ms indent,
     value_position s0 ms j -> plain_json j ->
     Z.of_nat (length ms + height j) <= D ->
     exists evs jc' pend,
       rd (at_state s0 ms D) (value_text j indent) evs jc' /\
       after_value jc' ms D pend /\
       evs ++ pend = events_json j /\
       (is_container j = true -> jc' = at_state OK ms D /\ pend = [])) /\
  (forall l ms jc i pend indent,
     0 <= i -> array_pos jc i ms D pend -> plain_list l ->
     Z.of_nat (length ms + 1 + height_list l) <= D ->
     exists evs jc' pend',
       rd jc (render_elems l indent i) evs jc' /\
       array_pos jc' (i + Z.of_nat (jlist_length l)) ms D pend' /\
       pend ++ events_list l = evs ++ pend') /\
  (forall m ms jc i pend indent,
     0 <= i -> object_pos jc i ms D pend -> plain_members m ->
     Z.of_nat (length ms + 1 + height_members m) <= D ->
     exists evs jc' pend',
       rd jc (render_members m indent i) evs jc' /\
       object_pos jc' (i + Z.of_nat (jmembers_length m)) ms D pend' /\
       pend ++ events_members m = evs ++ pend').
Proof.
  apply json_mutind.
  - (* JInt *)
    intros z s0 ms indent Hpos _ _.
    assert (Hs : s0 = VA \/ s0 = AR)
      by (destruct s0; cbn in Hpos; try tauto; destruct Hpos; discriminate).
    destruct (rd_decimal s0 ms z Hs) as (jc' & Hr & Ha).
    exists [], jc', [ev_int z].
    split; [exact Hr|]. split; [exact Ha|]. split; [reflexivity|].
    discriminate.
  - (* JStr *)
    intros s s0 ms indent Hpos Hplain _.
    assert (Hs : s0 = VA \/ s0 = AR)
      by (destruct s0; cbn in Hpos; try tauto; destruct Hpos; discriminate).
    assert (Hm : match ms with
                 | MODE_ARRAY :: _ | MODE_OBJECT :: _ => True
                 | _ => False
                 end)
      by (destruct Hs as [-> | ->]; exact Hpos).
    exists [ev_string s], (at_state OK ms D), [].
    split; [exact (rd_string s0 ms s Hs Hm Hplain)|].
    split; [apply after_value_OK|]. split; [reflexivity|].
    discriminate.
  - (* JArr *)
    intros l IHl s0 ms indent Hpos Hplain Hdepth.
    cbn [height plain_json] in Hplain, Hdepth.
    assert (Hs : s0 = GO \/ s0 = VA \/ s0 = AR)
      by (destruct s0; cbn in Hpos; tauto).
    destruct (IHl ms (at_state AR (MODE_ARRAY :: ms) D) 0 [] indent
                ltac:(lia) ltac:(split; reflexivity) Hplain ltac:(lia))
      as (evs & jc' & pend' & Hr & Hp & He).
    exists (ev JSON_T_ARRAY_BEGIN :: evs ++ pend' ++ [ev JSON_T_ARRAY_END]),
      (at_state OK ms D), [].
    split.
    { rewrite value_text_array.
      apply (reads_app _ _ _ _ _ [ev JSON_T_ARRAY_BEGIN] _
               (rd_open_array s0 ms Hs ltac:(lia))).
      apply (reads_app _ _ _ _ _ _ _ Hr).
      exact (rd_close_array jc' _ ms pend' Hp). }
    split; [apply after_value_OK|].
    split; [|intros _; split; reflexivity].
    rewrite app_nil_r. cbn [events_json]. f_equal.
    cbn [app] in He. rewrite He, app_assoc. reflexivity.
  - (* JObj *)
    intros m IHm s0 ms indent Hpos Hplain Hdepth.
    cbn [height plain_json] in Hplain, Hdepth.
    assert (Hs : s0 = GO \/ s0 = VA \/ s0 = AR)
      by (destruct s0; cbn in Hpos; tauto).
    destruct (IHm ms (at_state OB (MODE_KEY :: ms) D) 0 [] indent
                ltac:(lia) ltac:(split; reflexivity) Hplain ltac:(lia))
      as (evs & jc' & pend' & Hr & Hp & He).
    destruct (rd_indent_pos indent jc' _ ms pend' Hp) as (jc2 & Hr2 & Hp2).
    exists (ev JSON_T_OBJECT_BEGIN :: evs ++ pend' ++ [ev JSON_T_OBJECT_END]),
      (at_state OK ms D), [].
    split.
    { rewrite value_text_object.
      apply (reads_app _ _ _ _ _ [ev JSON_T_OBJECT_BEGIN] _
               (rd_open_object s0 ms Hs ltac:(lia))).
      eapply rd_then; [apply rd_blank_at; [right; reflexivity | tauto]|].
      apply (reads_app _ _ _ _ _ _ _ Hr).
      eapply rd_then; [exact Hr2|].
      exact (rd_close_object jc2 _ ms pend' Hp2). }
    split; [apply after_value_OK|].
    split; [|intros _; split; reflexivity].
    rewrite app_nil_r. cbn [events_json]. f_equal.
    cbn [app] in He. rewrite He, app_assoc. reflexivity.
  - (* JNil *)
    intros ms jc i pend indent Hi Hp _ _.
    exists [], jc, pend. split; [apply reads_nil|].
    split; [|cbn [events_list]; rewrite app_nil_r; reflexivity].
    cbn [jlist_length Z.of_nat]. rewrite Z.add_0_r. exact Hp.
  - (* JCons *)
    intros j IHj l IHl ms jc i pend indent Hi Hp Hplain Hdepth.
    cbn [height_list plain_list] in Hplain, Hdepth.
    destruct Hplain as [Hpj Hpl].
    destruct (rd_elem_start jc i ms pend Hp) as (s0 & Hs & Hr0).
    destruct (IHj s0 (MODE_ARRAY :: ms) indent
                ltac:(destruct Hs as [-> | ->]; exact I) Hpj
                ltac:(cbn [length]; lia))
      as (evs1 & jc1 & pend1 & Hr1 & Ha1 & He1 & _).
    assert (Hp1 : array_pos jc1 (i + 1) ms D pend1).
    { unfold array_pos. destruct (i + 1 =? 0) eqn:Hz;
        [apply Z.eqb_eq in Hz; lia | exact Ha1]. }
    destruct (IHl ms jc1 (i + 1) pend1 indent ltac:(lia) Hp1 Hpl ltac:(lia))
      as (evs2 & jc2 & pend2 & Hr2 & Hp2 & He2).
    exists (pend ++ evs1 ++ evs2), jc2, pend2.
    split.
    { rewrite render_elems_cons.
      apply (reads_app _ _ _ _ _ _ _ Hr0).
      apply (reads_app _ _ _ _ _ _ _ Hr1). exact Hr2. }
    split.
    { cbn [jlist_length]. rewrite Nat2Z.inj_succ.
      replace (i + Z.succ (Z.of_nat (jlist_length l)))
        with (i + 1 + Z.of_nat (jlist_length l)) by lia.
      exact Hp2. }
    cbn [events_list]. rewrite <- He1, <- !app_assoc, He2. reflexivity.
  - (* MNil *)
    intros ms jc i pend indent Hi Hp _ _.
    exists [], jc, pend. split; [apply reads_nil|].
    split; [|cbn [events_members]; rewrite app_nil_r; reflexivity].
    cbn [jmembers_length Z.of_nat]. rewrite Z.add_0_r. exact Hp.
  - (* MCons *)
    intros k j IHj m IHm ms jc i pend indent Hi Hp Hplain Hdepth.
    cbn [height_members plain_members] in Hplain, Hdepth.
    destruct Hplain as ((Hk & _) & Hpj & Hpm).
    destruct (rd_member_start (S indent) jc i ms pend Hp) as (s0 & Hs & Hr0).
    destruct (IHj VA (MODE_OBJECT :: ms) (S indent) I Hpj
                ltac:(cbn [length]; lia))
      as (evs1 & jc1 & pend1 & Hr1 & Ha1 & He1 & _).
    destruct (rd_blank_after (ascii_of_nat 10) jc1 _ pend1
                ltac:(right; reflexivity) Ha1) as (jc1' & Hnl & Ha1').
    assert (Hp1 : object_pos jc1' (i + 1) ms D pend1).
    { unfold object_pos. destruct (i + 1 =? 0) eqn:Hz;
        [apply Z.eqb_eq in Hz; lia | exact Ha1']. }
    destruct (IHm ms jc1' (i + 1) pend1 indent ltac:(lia) Hp1 Hpm ltac:(lia))
      as (evs2 & jc2 & pend2 & Hr2 & Hp2 & He2).
    exists (pend ++ [ev_key k] ++ evs1 ++ evs2), jc2, pend2.
    split.
    { rewrite render_members_cons.
      apply (reads_app _ _ _ _ _ _ _ Hr0).
      apply (reads_app _ _ _ _ _ _ _ (rd_key s0 ms k Hs Hk)).
      eapply rd_then; [apply rd_colon|].
      apply (reads_app _ _ _ _ _ _ _ Hr1).
      eapply rd_then; [exact Hnl | exact Hr2]. }
    split.
    { cbn [jmembers_length]. rewrite Nat2Z.inj_succ.
      replace (i + Z.succ (Z.of_nat (jmembers_length m)))
        with (i + 1 + Z.of_nat (jmembers_length m)) by lia.
      exact Hp2. }
    cbn [events_members]. rewrite <- He1.
    cbn [app]. rewrite <- !app_assoc. cbn [app]. rewrite <- !app_assoc.
    rewrite He2. reflexivity.
Qed.

End RefLexer.

Section RoundTrip.
Import RefStore.
Context `{B : Build}.

(** The reference tokenizer, set up as [run_json_parser] does, reads
    the text printed for a plain container as the events of that
    container, and is done at its end. *)
Lemma tokenizer_reads_render (j : json) :
  is_container j = true -> plain_json j ->
  Z.of_nat (height j) < MAX_DEPTH ->
  tokenizer_events (Tk := ref_tokenizer) (render j 0 0 1) = events_json j /\
  tokenizer_accepts (Tk := ref_tokenizer) (render j 0 0 1) = true.
Proof.
  intros Hcont Hplain Hdepth.
  destruct (rd_tree (MAX_DEPTH - 1)) as (Hval & _ & _).
  destruct (Hval j RefTokenizer.GO [] 0%nat (conj Hcont eq_refl) Hplain
              ltac:(cbn [length]; lia))
    as (evs & jc' & pend & Hr & _ & He & Hend).
  destruct (Hend Hcont) as [-> ->]. rewrite app_nil_r in He. subst evs.
  assert (Hall : @reads store ref_tokenizer
                   (RefTokenizer.new_parser parser_config) (render j 0 0 1)
                   (events_json j)
                   (at_state RefTokenizer.OK [] (MAX_DEPTH - 1))).
  { rewrite (render_container j 0 Hcont).
    rewrite <- (app_nil_r (events_json j)).
    apply (reads_app _ _ _ _ _ _ _ Hr).
    apply reads_char; reflexivity. }
  destruct (reads_lex_events _ _ _ _ Hall) as [Hev Hacc].
  split; [exact Hev | exact Hacc].
Qed.


End RoundTrip.



(** A concrete context is well formed: both parts are computed. *)
Ltac well_formed_by_computation :=
  split;
  [vm_compute; reflexivity
  |split; [apply Z.leb_le | apply Z.ltb_lt]; vm_compute; reflexivity].

Section StepFacts.
Context `{B : Build} `{St : Store}.

Lemma open_frames_nonempty (ctx : parser_context) :
  well_formed ctx -> 0 <= stack_ptr ctx ->
  exists below e, open_frames ctx = below ++ [e].
Proof.
  intros [Hal Hsp] Hpos. unfold stack_allocated in Hal.
  unfold open_frames.
  destruct (take (Z.to_nat (stack_ptr ctx + 1)) (stack ctx)) as [|x l] eqn:Ht
    using rev_ind.
  - apply (f_equal length) in Ht. rewrite length_take in Ht.
    cbn [length] in Ht. lia.
  - eauto.
Qed.

Lemma open_frames_empty (ctx : parser_context) :
  stack_ptr ctx < 0 -> open_frames ctx = [].
Proof.
  intros Hneg. unfold open_frames.
  replace (Z.to_nat (stack_ptr ctx + 1)) with 0%nat by lia. reflexivity.
Qed.

(** [add_elem] as a step. *)
Lemma add_elem_step (ctx : parser_context) (enc : gint) :
  well_formed ctx ->
  frames_step (open_frames ctx, heap_nodes ctx)
    (open_frames (fst (add_elem ctx enc)),
     heap_nodes (fst (add_elem ctx enc))) /\
  (snd (add_elem ctx enc) = 0 \/ snd (add_elem ctx enc) = 1) /\
  (snd (add_elem ctx enc) <> 0 -> well_formed (fst (add_elem ctx enc))).
Proof.
  intros Hwf.
  destruct (Z.ltb_spec (stack_ptr ctx) 0) as [Hneg|Hpos].
  - unfold add_elem.
    replace (stack_ptr ctx <? 0) with true by (symmetry; apply Z.ltb_lt; lia).
    cbn [orb fst snd]. split; [constructor|]. split; [tauto | congruence].
  - destruct (open_frames_nonempty ctx Hwf Hpos) as (below & e & Hof).
    pose proof (obs_add_elem ctx below e (ctx_db ctx) (heap_nodes ctx)
                  (document ctx) (isparam ctx) enc Hwf
                  ltac:(unfold obs; rewrite Hof; reflexivity)) as Hobs.
    destruct (heap_nodes ctx) as [|n] eqn:Hh.
    + assert (Hsame : fst (add_elem ctx enc) = ctx).
      { unfold add_elem. destruct (_ || _); [reflexivity|].
        rewrite Hh. reflexivity. }
      rewrite Hsame, Hh. split; [constructor|]. split; [tauto | congruence].
    + destruct Hobs as (Hr & Hwf' & Hobs). unfold obs in Hobs.
      injection Hobs as Hf Hd Hn Hdoc Hp.
      rewrite Hof, Hf, Hn. split; [apply step_elem|].
      split; [tauto | intros _; exact Hwf'].
Qed.

Lemma well_formed_set_db (ctx : parser_context) (d : db) :
  well_formed ctx -> well_formed (set_db ctx d).
Proof. intros H. exact H. Qed.

(** [add_literal] leaves the frames as they are or appends one element
    to the top frame. *)
Lemma add_literal_frames (ctx : parser_context) (val : gint) :
  well_formed ctx ->
  let c := fst (add_literal ctx val) in
  (open_frames c = open_frames ctx /\ heap_nodes c = heap_nodes ctx) \/
  (exists below e x n,
     open_frames ctx = below ++ [e] /\ heap_nodes ctx = S n /\
     open_frames c = below ++ [with_elem e x] /\ heap_nodes c = n).
Proof.
  intros Hwf.
  assert (Helem : forall (d : db) (enc : gint),
            let c := fst (add_elem (set_db ctx d) enc) in
            (open_frames c = open_frames ctx /\
             heap_nodes c = heap_nodes ctx) \/
            (exists below e x n,
               open_frames ctx = below ++ [e] /\ heap_nodes ctx = S n /\
               open_frames c = below ++ [with_elem e x] /\
               heap_nodes c = n)).
  { intros d enc.
    cbv zeta.
    destruct (Z.ltb_spec (stack_ptr ctx) 0) as [Hneg|Hpos].
    - left. unfold add_elem. cbn [stack_ptr set_db].
      replace (stack_ptr ctx <? 0) with true
        by (symmetry; apply Z.ltb_lt; lia).
      split; reflexivity.
    - destruct (open_frames_nonempty ctx Hwf Hpos) as (below & e & Hof).
      pose proof (obs_add_elem (set_db ctx d) below e d (heap_nodes ctx)
                    (document ctx) (isparam ctx) enc
                    (well_formed_set_db ctx d Hwf)
                    ltac:(unfold obs; cbn [ctx_db set_db];
                          change (open_frames (set_db ctx d))
                            with (open_frames ctx);
                          rewrite Hof; reflexivity)) as Hobs.
      destruct (heap_nodes ctx) as [|n] eqn:Hh.
      + left. unfold add_elem.
        destruct (_ || _); [split; [reflexivity | exact Hh]|].
        cbn [heap_nodes set_db]. rewrite Hh. split; [reflexivity | exact Hh].
      + right. destruct Hobs as (_ & _ & Hobs). unfold obs in Hobs.
        injection Hobs as Hf _ Hn _ _.
        exists below, e, enc, n. repeat split; assumption. }
  cbv zeta. unfold add_literal.
  destruct ((stack_ptr ctx <? 0) || (MAX_DEPTH <=? stack_ptr ctx));
    [left; split; reflexivity|].
  destruct (type (entry_at ctx (stack_ptr ctx))).
  - pose proof (Helem (ctx_db ctx) val) as H.
    assert (Hsame : set_db ctx (ctx_db ctx) = ctx) by (destruct ctx; reflexivity).
    rewrite Hsame in H. exact H.
  - destruct (wg_encode_str _ _) as [d key]. cbn [ctx_db set_db isparam].
    destruct (decide (key = WG_ILLEGAL)); [left; split; reflexivity|].
    destruct (wg_create_kvpair d key val (isparam ctx)) as [d' [r|]];
      [|left; split; reflexivity].
    exact (Helem d' (wg_encode_record d' r)).
Qed.

(** [pop] removes the top frame and gives its cells back; when it goes
    on to [add_literal], the frame below may get one element. *)
Lemma pop_frames (ctx : parser_context) (below : list stack_entry)
  (e : stack_entry) :
  well_formed ctx -> open_frames ctx = below ++ [e] ->
  let c := fst (pop ctx) in
  (open_frames c = below /\
   heap_nodes c = (heap_nodes ctx + length (elems e))%nat) \/
  (exists b' p x n,
     below = b' ++ [p] /\
     (heap_nodes ctx + length (elems e))%nat = S n /\
     open_frames c = b' ++ [with_elem p x] /\ heap_nodes c = n).
Proof.
  intros Hwf Hof.
  pose proof (well_formed_top ctx below e Hwf Hof) as Hsp.
  destruct (open_frames_top ctx below e Hwf Hof) as [Hptr Htop].
  assert (Hfr : forall c : parser_context,
            stack c = stack ctx -> stack_ptr c = stack_ptr ctx - 1 ->
            well_formed (set_entry c (stack_ptr ctx)
                           {| type := type e; elems := [];
                              last_key := last_key e; size := 0 |}) /\
            open_frames (set_entry c (stack_ptr ctx)
                           {| type := type e; elems := [];
                              last_key := last_key e; size := 0 |}) = below).
  { intros c Hst Hp. split.
    - destruct Hwf as [Hal Hb]. split.
      + unfold stack_allocated, set_entry in *. cbn [stack set_stack].
        rewrite length_insert, Hst. exact Hal.
      + cbn [stack_ptr set_entry set_stack]. lia.
    - pose proof (open_frames_below ctx below e
                    {| type := type e; elems := [];
                       last_key := last_key e; size := 0 |} Hwf Hof) as Hb.
      unfold open_frames, set_entry in *.
      cbn [stack stack_ptr set_stack set_stack_ptr] in *.
      rewrite Hst, Hp. exact Hb. }
  cbv zeta. unfold pop.
  destruct (Z.ltb_spec (stack_ptr ctx) 0) as [Hneg|_]; [lia|].
  rewrite Htop. cbn [stack_ptr set_stack_ptr ctx_db isparam].
  set (created := match type e with
                  | ARRAY => wg_create_array (ctx_db ctx) (size e)
                               (stack_ptr ctx - 1 <? 0) (isparam ctx)
                  | OBJECT => wg_create_object (ctx_db ctx) (size e)
                                (stack_ptr ctx - 1 <? 0) (isparam ctx)
                  end).
  destruct created as [d1 [r|]].
  - cbn [ctx_db set_db].
    destruct (set_fields d1 r 0 (elems e)) as [d2 ret].
    set (c0 := if stack_ptr ctx - 1 <? 0
               then set_document
                      (set_db (set_db (set_stack_ptr ctx (stack_ptr ctx - 1))
                                 d1) d2) (Some r)
               else set_db (set_db (set_stack_ptr ctx (stack_ptr ctx - 1)) d1)
                      d2).
    assert (Hc0 : stack c0 = stack ctx /\ stack_ptr c0 = stack_ptr ctx - 1 /\
                  heap_nodes c0 = heap_nodes ctx).
    { unfold c0. destruct (stack_ptr ctx - 1 <? 0); repeat split. }
    destruct Hc0 as (Hst & Hp & Hh).
    set (freed := set_entry
                    (set_heap_nodes c0 (heap_nodes c0 + length (elems e))%nat)
                    (stack_ptr ctx)
                    {| type := type e; elems := [];
                       last_key := last_key e; size := 0 |}).
    destruct (Hfr (set_heap_nodes c0 (heap_nodes c0 + length (elems e))%nat)
                Hst Hp) as [Hwf' Hof'].
    fold freed in Hwf', Hof'.
    assert (Hhf : heap_nodes freed = (heap_nodes ctx + length (elems e))%nat)
      by (unfold freed; cbn; rewrite Hh; reflexivity).
    destruct (negb (stack_ptr ctx - 1 <? 0) && negb (ret =? 0)).
    + pose proof (add_literal_frames freed
                    (wg_encode_record (ctx_db freed) r) Hwf') as Hlit.
      cbv zeta in Hlit. rewrite Hof', Hhf in Hlit.
      destruct Hlit as [[H1 H2] | (b' & p & x & n & H1 & H2 & H3 & H4)].
      * left. split; assumption.
      * right. exists b', p, x, n. repeat split; assumption.
    + left. cbn [fst]. split; assumption.
  - cbn [fst].
    set (c0 := set_db (set_stack_ptr ctx (stack_ptr ctx - 1)) d1).
    destruct (Hfr (set_heap_nodes c0 (heap_nodes c0 + length (elems e))%nat)
                eq_refl eq_refl) as [Hwf' Hof'].
    left. split; [exact Hof' | reflexivity].
Qed.

Lemma push_frames (ctx : parser_context) (ty : stack_entry_t) :
  well_formed ctx ->
  frames_step (open_frames ctx, heap_nodes ctx)
    (open_frames (fst (push ctx ty)), heap_nodes (fst (push ctx ty))).
Proof.
  intros Hwf.
  destruct (Z.ltb_spec (stack_ptr ctx + 1) MAX_DEPTH) as [Hroom|Hfull].
  - destruct (open_frames_push ctx ty Hwf Hroom) as (_ & _ & Hobs).
    unfold obs in Hobs. injection Hobs as Hf _ Hh _ _.
    rewrite Hf, Hh. apply step_push.
  - destruct Hwf as [Hal Hsp]. unfold stack_allocated in Hal.
    unfold push. cbn [stack_ptr set_stack_ptr].
    destruct (Z.leb_spec MAX_DEPTH (stack_ptr ctx + 1)) as [_|]; [|lia].
    cbn [fst]. unfold open_frames. cbn [stack stack_ptr set_stack_ptr].
    rewrite !take_ge by lia. apply step_none.
Qed.

Lemma add_key_frames (ctx : parser_context) (key : string) :
  well_formed ctx ->
  frames_step (open_frames ctx, heap_nodes ctx)
    (open_frames (fst (add_key ctx key)),
     heap_nodes (fst (add_key ctx key))).
Proof.
  intros Hwf.
  destruct (Z.ltb_spec (stack_ptr ctx) 0) as [Hneg|Hpos].
  - unfold add_key.
    replace (stack_ptr ctx <? 0) with true by (symmetry; apply Z.ltb_lt; lia).
    apply step_none.
  - destruct (open_frames_nonempty ctx Hwf Hpos) as (below & e & Hof).
    destruct (obs_add_key ctx below e (ctx_db ctx) (heap_nodes ctx)
                (document ctx) (isparam ctx) key Hwf
                ltac:(unfold obs; rewrite Hof; reflexivity))
      as (_ & _ & Hobs).
    unfold obs in Hobs. injection Hobs as Hf _ Hh _ _.
    rewrite Hof, Hf, Hh. apply step_key.
Qed.

Lemma add_literal_step (ctx : parser_context) (d : db) (val : gint) :
  well_formed ctx ->
  frames_step (open_frames ctx, heap_nodes ctx)
    (open_frames (fst (add_literal (set_db ctx d) val)),
     heap_nodes (fst (add_literal (set_db ctx d) val))).
Proof.
  intros Hwf.
  destruct (add_literal_frames (set_db ctx d) val
              (well_formed_set_db ctx d Hwf))
    as [[H1 H2] | (below & e & x & n & H1 & H2 & H3 & H4)];
    change (open_frames (set_db ctx d)) with (open_frames ctx) in *;
    change (heap_nodes (set_db ctx d)) with (heap_nodes ctx) in *.
  - rewrite H1, H2. apply step_none.
  - rewrite H1, H2, H3, H4. apply step_elem.
Qed.

Lemma pop_step (ctx : parser_context) :
  well_formed ctx ->
  frames_step (open_frames ctx, heap_nodes ctx)
    (open_frames (fst (pop ctx)), heap_nodes (fst (pop ctx))).
Proof.
  intros Hwf.
  destruct (Z.ltb_spec (stack_ptr ctx) 0) as [Hneg|Hpos].
  - unfold pop.
    replace (stack_ptr ctx <? 0) with true by (symmetry; apply Z.ltb_lt; lia).
    apply step_none.
  - destruct (open_frames_nonempty ctx Hwf Hpos) as (below & e & Hof).
    destruct (pop_frames ctx below e Hwf Hof)
      as [[H1 H2] | (b' & p & x & n & H1 & H2 & H3 & H4)].
    + rewrite Hof, H1, H2. apply step_pop.
    + rewrite Hof, H3, H4, H1, <- app_assoc. cbn [app].
      apply step_pop_elem. exact H2.
Qed.

(** One call of the callback is one step of the open frames. *)
Lemma cb_step (ctx : parser_context) (ty : JSON_type) (v : JSON_value) :
  well_formed ctx ->
  frames_step (open_frames ctx, heap_nodes ctx)
    (open_frames (fst (parse_json_cb ctx ty v)),
     heap_nodes (fst (parse_json_cb ctx ty v))).
Proof.
  intros Hwf. unfold parse_json_cb. destruct ty; try apply step_none.
  - pose proof (push_frames ctx ARRAY Hwf) as H.
    destruct (push ctx ARRAY) as [c r]. destruct (r =? 0); exact H.
  - pose proof (pop_step ctx Hwf) as H.
    destruct (pop ctx) as [c r]. destruct (r =? 0); exact H.
  - pose proof (push_frames ctx OBJECT Hwf) as H.
    destruct (push ctx OBJECT) as [c r]. destruct (r =? 0); exact H.
  - pose proof (pop_step ctx Hwf) as H.
    destruct (pop ctx) as [c r]. destruct (r =? 0); exact H.
  - destruct (wg_encode_int _ _) as [d val].
    destruct (decide (val = WG_ILLEGAL)); [apply step_none|].
    pose proof (add_literal_step ctx d val Hwf) as H.
    destruct (add_literal (set_db ctx d) val) as [c r].
    destruct (r =? 0); exact H.
  - destruct (wg_encode_double _ _) as [d val].
    destruct (decide (val = WG_ILLEGAL)); [apply step_none|].
    pose proof (add_literal_step ctx d val Hwf) as H.
    destruct (add_literal (set_db ctx d) val) as [c r].
    destruct (r =? 0); exact H.
  - destruct (wg_encode_str _ _) as [d val].
    destruct (decide (val = WG_ILLEGAL)); [apply step_none|].
    pose proof (add_literal_step ctx d val Hwf) as H.
    destruct (add_literal (set_db ctx d) val) as [c r].
    destruct (r =? 0); exact H.
  - pose proof (add_key_frames ctx (str_value v) Hwf) as H.
    destruct (add_key ctx (str_value v)) as [c r]. destruct (r =? 0); exact H.
Qed.

Lemma cb_well_formed (ctx : parser_context) (ty : JSON_type)
  (v : JSON_value) :
  well_formed ctx -> snd (parse_json_cb ctx ty v) <> 0 ->
  well_formed (fst (parse_json_cb ctx ty v)).
Proof.
  intros [Hal Hsp] Hr.
  destruct (parse_json_cb_bounds ctx ty v Hal Hsp) as (H1 & H2 & H3).
  split; [exact H1|]. specialize (H3 Hr). lia.
Qed.

(** An invariant of the steps holds after any delivery. *)
Lemma deliver_invariant (P : list stack_entry * nat -> Prop) :
  (forall s s', frames_step s s' -> P s -> P s') ->
  forall (evs : list (JSON_type * JSON_value)) (ctx : parser_context),
    well_formed ctx -> P (open_frames ctx, heap_nodes ctx) ->
    P (open_frames (fst (deliver parse_json_cb ctx evs)),
       heap_nodes (fst (deliver parse_json_cb ctx evs))).
Proof.
  intros Hstep. induction evs as [|[ty v] evs IH]; intros ctx Hwf HP.
  - exact HP.
  - cbn [deliver].
    pose proof (cb_step ctx ty v Hwf) as Hs.
    pose proof (cb_well_formed ctx ty v Hwf) as Hw.
    destruct (parse_json_cb ctx ty v) as [c r]. cbn [fst snd] in *.
    destruct (Z.eqb_spec r 0) as [->|Hr].
    + cbn [fst]. exact (Hstep _ _ Hs HP).
    + apply IH; [exact (Hw Hr) | exact (Hstep _ _ Hs HP)].
Qed.

End StepFacts.

Section StepInvariants.
Context `{B : Build} `{St : Store}.

Lemma cells_held_app (fs gs : list stack_entry) :
  cells_held (fs ++ gs) = (cells_held fs + cells_held gs)%nat.
Proof. unfold cells_held. apply sum_list_with_app. Qed.

Lemma cells_step (s s' : list stack_entry * nat) :
  frames_step s s' ->
  (snd s' + cells_held (fst s') = snd s + cells_held (fst s))%nat.
Proof.
  intros Hs. destruct Hs; cbn [fst snd]; rewrite ?cells_held_app;
    unfold cells_held; cbn [sum_list_with with_elem with_key fresh_entry
                            elems length];
    rewrite ?length_app; cbn [length]; lia.
Qed.

Lemma counted_step (s s' : list stack_entry * nat) :
  frames_step s s' -> Forall counted (fst s) -> Forall counted (fst s').
Proof.
  intros Hs. destruct Hs; cbn [fst]; rewrite ?Forall_app; intros Hc;
    try exact Hc.
  - split; [exact Hc|]. apply Forall_singleton. reflexivity.
  - destruct Hc as [Hb He]. split; [exact Hb|].
    apply Forall_singleton. rewrite Forall_singleton in He.
    unfold counted in *. cbn [with_elem size elems].
    rewrite length_app. cbn [length]. lia.
  - destruct Hc as [Hb He]. split; [exact Hb|].
    apply Forall_singleton. rewrite Forall_singleton in He. exact He.
  - tauto.
  - destruct Hc as [Hb He]. split; [exact Hb|].
    apply Forall_singleton. apply Forall_cons in He as [Hp _].
    unfold counted in *. cbn [with_elem size elems].
    rewrite length_app. cbn [length]. lia.
Qed.

(** X1: the list cells are conserved.  After any events, delivered to
    the end or to the first failure, the free cells and the cells held
    by the open frames together are as many as before: [add_elem]
    takes one cell for one element and [pop] gives back the cells of
    the frame it removes, whether or not the record could be created
    and filled.  Nothing else frees a cell, so what the frames still
    open hold when the parse stops stays allocated. *)
Theorem list_cells_are_conserved (evs : list (JSON_type * JSON_value))
  (ctx : parser_context) :
  well_formed ctx ->
  let c := fst (deliver parse_json_cb ctx evs) in
  (heap_nodes c + cells_held (open_frames c) =
   heap_nodes ctx + cells_held (open_frames ctx))%nat.
Proof.
  intros Hwf. cbv zeta.
  apply (deliver_invariant
           (fun s => (snd s + cells_held (fst s) =
                      heap_nodes ctx + cells_held (open_frames ctx))%nat));
    [|exact Hwf | reflexivity].
  intros s s' Hs HP. rewrite (cells_step s s' Hs). exact HP.
Qed.

(** X2: the size of a frame counts its elements.  If [size] equals
    the number of list cells in every open frame, it does so after any
    events; it does in the context [run_json_parser] starts with, which
    has no open frame.  So [pop] creates the record with one field for
    each child and stores child [i] in field [i]. *)
Theorem frame_sizes_count_elements (evs : list (JSON_type * JSON_value))
  (ctx : parser_context) :
  well_formed ctx -> Forall counted (open_frames ctx) ->
  Forall counted (open_frames (fst (deliver parse_json_cb ctx evs))).
Proof.
  intros Hwf Hc.
  apply (deliver_invariant (fun s => Forall counted (fst s)));
    [|exact Hwf | exact Hc].
  intros s s' Hs HP. exact (counted_step s s' Hs HP).
Qed.

End StepInvariants.

Lemma list_cells_are_conserved_witness :
  let c := fst (deliver (@parse_json_cb build_plain RefStore.store)
                  (ref_context 8 8 8 false) unfinished_events) in
  (heap_nodes c + cells_held (open_frames c) =
   heap_nodes (ref_context 8 8 8 false) +
   cells_held (open_frames (ref_context 8 8 8 false)))%nat.
Proof.
  apply (@list_cells_are_conserved build_plain RefStore.store
           unfinished_events (ref_context 8 8 8 false)).
  well_formed_by_computation.
Defined.

Lemma frame_sizes_count_elements_witness :
  Forall counted
    (open_frames (fst (deliver (@parse_json_cb build_plain RefStore.store)
                         (ref_context 8 8 8 false) unfinished_events))).
Proof.
  apply (@frame_sizes_count_elements build_plain RefStore.store
           unfinished_events (ref_context 8 8 8 false)).
  - well_formed_by_computation.
  - apply Forall_nil_2.
Defined.

Section EdgeCases.
Context `{B : Build} `{St : Store}.

(** X3: with no frame open, an end, a key or a literal fails in the
    callback.  The stack, the stack pointer, the document slot and the
    free cells stay as they are; only the encoding of a literal, which
    comes first, may have touched the database.  So a text whose first
    event is one of these, such as a top-level number, cannot be
    stored. *)
Theorem events_outside_container_fail (ctx : parser_context)
  (ty : JSON_type) (v : JSON_value) :
  stack_ptr ctx < 0 -> needs_open_frame ty = true ->
  snd (parse_json_cb ctx ty v) = 0 /\
  exists d, fst (parse_json_cb ctx ty v) = set_db ctx d.
Proof.
  intros Hneg Hty.
  assert (Htest : (stack_ptr ctx <? 0) = true) by (apply Z.ltb_lt; lia).
  assert (Hsame : set_db ctx (ctx_db ctx) = ctx) by (destruct ctx; reflexivity).
  assert (Hlit : forall d val,
            add_literal (set_db ctx d) val = (set_db ctx d, 0)).
  { intros d val. unfold add_literal. cbn [stack_ptr set_db].
    rewrite Htest. reflexivity. }
  unfold parse_json_cb. destruct ty; try discriminate Hty.
  - unfold pop. rewrite Htest. cbn. split; [reflexivity|].
    exists (ctx_db ctx). symmetry. exact Hsame.
  - unfold pop. rewrite Htest. cbn. split; [reflexivity|].
    exists (ctx_db ctx). symmetry. exact Hsame.
  - destruct (wg_encode_int _ _) as [d val].
    destruct (decide (val = WG_ILLEGAL)); [split; [reflexivity | eauto]|].
    rewrite Hlit. cbn. split; [reflexivity | eauto].
  - destruct (wg_encode_double _ _) as [d val].
    destruct (decide (val = WG_ILLEGAL)); [split; [reflexivity | eauto]|].
    rewrite Hlit. cbn. split; [reflexivity | eauto].
  - destruct (wg_encode_str _ _) as [d val].
    destruct (decide (val = WG_ILLEGAL)); [split; [reflexivity | eauto]|].
    rewrite Hlit. cbn. split; [reflexivity | eauto].
  - unfold add_key. rewrite Htest. cbn. split; [reflexivity|].
    exists (ctx_db ctx). symmetry. exact Hsame.
Qed.

(** X4: [pop] when the store gives no record.  It returns 0 and does
    not write the document slot; the frame is removed all the same
    and its list cells are freed, so its children are dropped, and the
    frame below gets nothing. *)
Theorem pop_without_record (ctx : parser_context)
  (below : list stack_entry) (e : stack_entry) (d1 : db) :
  well_formed ctx -> open_frames ctx = below ++ [e] ->
  create_for e (ctx_db ctx) (bool_decide (below = [])) (isparam ctx)
    = (d1, None) ->
  snd (pop ctx) = 0 /\
  obs (fst (pop ctx)) =
    (below, d1, (heap_nodes ctx + length (elems e))%nat, document ctx,
     isparam ctx).
Proof.
  intros Hwf Hof Hcreate.
  pose proof (well_formed_top ctx below e Hwf Hof) as Hsp.
  destruct (open_frames_top ctx below e Hwf Hof) as [Hptr Htop].
  assert (Htest : (stack_ptr ctx - 1 <? 0) = bool_decide (below = [])).
  { destruct below as [|b below]; cbn [length] in Hptr.
    - rewrite Hptr. reflexivity.
    - rewrite bool_decide_eq_false_2 by discriminate.
      apply Z.ltb_ge. lia. }
  pose proof (open_frames_below ctx below e
                {| type := type e; elems := [];
                   last_key := last_key e; size := 0 |} Hwf Hof) as Hb.
  unfold pop, create_for in *.
  destruct (Z.ltb_spec (stack_ptr ctx) 0) as [Hneg|_]; [lia|].
  rewrite Htop. cbn [stack_ptr set_stack_ptr ctx_db isparam].
  rewrite Htest.
  destruct (type e); rewrite Hcreate; cbn [fst snd];
    (split; [reflexivity|]); unfold obs;
    match type of Hb with
    | open_frames ?c0 = _ =>
        match goal with
        | |- (open_frames ?c, _, _, _, _) = _ =>
            change (open_frames c) with (open_frames c0)
        end
    end; rewrite Hb; reflexivity.
Qed.

(** X5: the document slot is written by the end event that closes the
    outermost frame and by nothing else: every other event, and an end
    event inside another container or with no frame open, leaves it as
    it is. *)
Theorem document_written_by_outermost_end (ctx : parser_context)
  (ty : JSON_type) (v : JSON_value) :
  document (fst (parse_json_cb ctx ty v)) <> document ctx ->
  (ty = JSON_T_ARRAY_END \/ ty = JSON_T_OBJECT_END) /\ stack_ptr ctx = 0.
Proof.
  assert (Hpop : document (fst (pop ctx)) <> document ctx ->
                 stack_ptr ctx = 0).
  { unfold pop.
    destruct (Z.ltb_spec (stack_ptr ctx) 0) as [Hneg|Hpos];
      [intros H; contradiction H; reflexivity|].
    cbn [stack_ptr set_stack_ptr ctx_db isparam].
    destruct (Z.ltb_spec (stack_ptr ctx - 1) 0) as [Htop|Hin];
      [intros _; lia|].
    intros H. contradiction H.
    destruct (match type (entry_at ctx (stack_ptr ctx)) with
              | ARRAY => _ | OBJECT => _ end) as [d1 [r|]];
      [|reflexivity].
    cbn [ctx_db set_db]. destruct (set_fields _ _ _ _) as [d2 ret].
    destruct (negb false && negb (ret =? 0)); [|reflexivity].
    rewrite add_literal_document. reflexivity. }
  assert (Hlit : forall d val,
            document (fst (add_literal (set_db ctx d) val)) = document ctx).
  { intros d val. rewrite add_literal_document. reflexivity. }
  unfold parse_json_cb. destruct ty;
    try (intros H; contradiction H; reflexivity).
  - intros H. contradiction H. unfold push. cbn [stack_ptr set_stack_ptr].
    destruct (MAX_DEPTH <=? stack_ptr ctx + 1); reflexivity.
  - intros H. split; [tauto|]. apply Hpop.
    destruct (pop ctx) as [c r]. destruct (r =? 0); exact H.
  - intros H. contradiction H. unfold push. cbn [stack_ptr set_stack_ptr].
    destruct (MAX_DEPTH <=? stack_ptr ctx + 1); reflexivity.
  - intros H. split; [tauto|]. apply Hpop.
    destruct (pop ctx) as [c r]. destruct (r =? 0); exact H.
  - intros H. contradiction H.
    destruct (wg_encode_int _ _) as [d val].
    destruct (decide (val = WG_ILLEGAL)); [reflexivity|].
    specialize (Hlit d val).
    destruct (add_literal (set_db ctx d) val) as [c r].
    destruct (r =? 0); exact Hlit.
  - intros H. contradiction H.
    destruct (wg_encode_double _ _) as [d val].
    destruct (decide (val = WG_ILLEGAL)); [reflexivity|].
    specialize (Hlit d val).
    destruct (add_literal (set_db ctx d) val) as [c r].
    destruct (r =? 0); exact Hlit.
  - intros H. contradiction H.
    destruct (wg_encode_str _ _) as [d val].
    destruct (decide (val = WG_ILLEGAL)); [reflexivity|].
    specialize (Hlit d val).
    destruct (add_literal (set_db ctx d) val) as [c r].
    destruct (r =? 0); exact Hlit.
  - intros H. contradiction H. unfold add_key.
    destruct (_ || _); reflexivity.
Qed.

(** X6: when a value is appended.  In an open frame [add_literal]
    returns 1 exactly when [malloc] has a list cell and, in an object,
    the pending key can be encoded and the store creates the key-value
    record; it returns 0 otherwise. *)
Theorem add_literal_succeeds_iff (ctx : parser_context)
  (below : list stack_entry) (e : stack_entry) (val : gint) :
  well_formed ctx -> open_frames ctx = below ++ [e] ->
  (snd (add_literal ctx val) = 0 \/ snd (add_literal ctx val) = 1) /\
  (snd (add_literal ctx val) = 1 <->
   heap_nodes ctx <> 0%nat /\
   match type e with
   | ARRAY => True
   | OBJECT =>
       let '(d, key) := wg_encode_str (ctx_db ctx) (c_str (last_key e)) in
       key <> WG_ILLEGAL /\
       snd (wg_create_kvpair d key val (isparam ctx)) <> None
   end).
Proof.
  intros Hwf Hof.
  pose proof (well_formed_top ctx below e Hwf Hof) as Hsp.
  destruct (open_frames_top ctx below e Hwf Hof) as [_ Htop].
  assert (Helem : forall (d : db) (enc : gint),
            (snd (add_elem (set_db ctx d) enc) = 0 \/
             snd (add_elem (set_db ctx d) enc) = 1) /\
            (snd (add_elem (set_db ctx d) enc) = 1 <->
             heap_nodes ctx <> 0%nat)).
  { intros d enc. unfold add_elem. cbn [stack_ptr heap_nodes set_db].
    rewrite (open_frame_test ctx Hsp).
    destruct (heap_nodes ctx); cbn [snd].
    - split; [tauto|]. split; [discriminate | congruence].
    - split; [tauto|]. split; [discriminate | reflexivity]. }
  assert (Hsame : set_db ctx (ctx_db ctx) = ctx) by (destruct ctx; reflexivity).
  unfold add_literal. rewrite (open_frame_test ctx Hsp), Htop.
  destruct (type e).
  - specialize (Helem (ctx_db ctx) val). rewrite Hsame in Helem.
    destruct Helem as [H01 Hiff]. split; [exact H01|].
    rewrite Hiff. tauto.
  - destruct (wg_encode_str _ _) as [d key]. cbn [ctx_db set_db isparam].
    destruct (decide (key = WG_ILLEGAL)) as [Hill|Hleg].
    + cbn [snd]. split; [tauto|]. split; [discriminate | tauto].
    + destruct (wg_create_kvpair d key val (isparam ctx)) as [d' [r|]];
        cbn [snd].
      * destruct (Helem d' (wg_encode_record d' r)) as [H01 Hiff].
        split; [exact H01|]. rewrite Hiff.
        split; [intros H; repeat split; [exact H | exact Hleg | discriminate]
               | tauto].
      * split; [tauto|]. split; [discriminate|].
        intros (_ & _ & H). contradiction H. reflexivity.
Qed.

(** X7: in an object the key-value record is created before the list
    cell is asked for.  When [malloc] then has no cell, [add_literal]
    returns 0 and the frame is as before, but the database is the one
    that holds the new key-value record, which no object will refer
    to. *)
Theorem kvpair_is_created_before_the_cell (ctx : parser_context)
  (below : list stack_entry) (e : stack_entry) (val key : gint)
  (d d' : db) (r : rec_ptr) :
  well_formed ctx -> open_frames ctx = below ++ [e] -> type e = OBJECT ->
  heap_nodes ctx = 0%nat ->
  wg_encode_str (ctx_db ctx) (c_str (last_key e)) = (d, key) ->
  key <> WG_ILLEGAL ->
  wg_create_kvpair d key val (isparam ctx) = (d', Some r) ->
  add_literal ctx val = (set_db ctx d', 0).
Proof.
  intros Hwf Hof Hty Hheap Henc Hleg Hpair.
  pose proof (well_formed_top ctx below e Hwf Hof) as Hsp.
  destruct (open_frames_top ctx below e Hwf Hof) as [_ Htop].
  unfold add_literal. rewrite (open_frame_test ctx Hsp), Htop, Hty, Henc.
  cbn [ctx_db set_db isparam].
  destruct (decide (key = WG_ILLEGAL)) as [Hill|_]; [contradiction|].
  rewrite Hpair. unfold add_elem. cbn [stack_ptr heap_nodes set_db].
  rewrite (open_frame_test ctx Hsp), Hheap. reflexivity.
Qed.

End EdgeCases.

Lemma events_outside_container_fail_witness :
  snd (@parse_json_cb build_plain RefStore.store (ref_context 8 8 8 false)
         JSON_T_INTEGER (snd (ev_int 42))) = 0 /\
  exists d,
    fst (@parse_json_cb build_plain RefStore.store (ref_context 8 8 8 false)
           JSON_T_INTEGER (snd (ev_int 42)))
    = set_db (ref_context 8 8 8 false) d.
Proof.
  apply (@events_outside_container_fail build_plain RefStore.store
           (ref_context 8 8 8 false) JSON_T_INTEGER (snd (ev_int 42))).
  - cbn. lia.
  - reflexivity.
Defined.

Lemma pop_without_record_witness :
  snd (@pop build_plain RefStore.store full_store_context) = 0 /\
  obs (fst (@pop build_plain RefStore.store full_store_context)) =
    ([], RefStore.empty 0 8, 8%nat, None, false).
Proof.
  apply (@pop_without_record build_plain RefStore.store full_store_context
           [] (fresh_entry ARRAY (replicate 80 NUL)) (RefStore.empty 0 8)).
  - well_formed_by_computation.
  - vm_compute. reflexivity.
  - reflexivity.
Defined.

Lemma document_written_by_outermost_end_witness :
  (JSON_T_ARRAY_END = JSON_T_ARRAY_END \/
   JSON_T_ARRAY_END = JSON_T_OBJECT_END) /\
  stack_ptr (one_frame_context ARRAY) = 0.
Proof.
  apply (@document_written_by_outermost_end build_plain RefStore.store
           (one_frame_context ARRAY) JSON_T_ARRAY_END no_value).
  vm_compute. discriminate.
Defined.

Lemma add_literal_succeeds_iff_witness :
  (snd (@add_literal build_plain RefStore.store no_cell_context
          (RefStore.EInt 1)) = 0 \/
   snd (@add_literal build_plain RefStore.store no_cell_context
          (RefStore.EInt 1)) = 1) /\
  (snd (@add_literal build_plain RefStore.store no_cell_context
          (RefStore.EInt 1)) = 1 <->
   heap_nodes no_cell_context <> 0%nat /\
   (RefStore.EStr "k" <> RefStore.EIllegal /\
    snd (RefStore.create_kvpair (RefStore.empty 8 8) (RefStore.EStr "k")
           (RefStore.EInt 1) false) <> None)).
Proof.
  apply (@add_literal_succeeds_iff build_plain RefStore.store no_cell_context
           [] (with_key (fresh_entry OBJECT (replicate 80 NUL)) "k")
           (RefStore.EInt 1)).
  - well_formed_by_computation.
  - vm_compute. reflexivity.
Defined.

Lemma kvpair_is_created_before_the_cell_witness :
  @add_literal build_plain RefStore.store no_cell_context (RefStore.EInt 1)
  = (set_db no_cell_context
       (RefStore.add_record (RefStore.empty 8 8)
          (RefStore.kvpair_record "k" (RefStore.EInt 1) false)), 0).
Proof.
  apply (@kvpair_is_created_before_the_cell build_plain RefStore.store
           no_cell_context []
           (with_key (fresh_entry OBJECT (replicate 80 NUL)) "k")
           (RefStore.EInt 1) (RefStore.EStr "k") (RefStore.empty 8 8)
           (RefStore.add_record (RefStore.empty 8 8)
              (RefStore.kvpair_record "k" (RefStore.EInt 1) false)) 0%nat).
  - well_formed_by_computation.
  - vm_compute. reflexivity.
  - reflexivity.
  - reflexivity.
  - vm_compute. reflexivity.
  - discriminate.
  - reflexivity.
Defined.

Section PrinterStreams.
Context `{B : Build} `{St : Store}.

Lemma printer_extends_refl (out : printer_state) : printer_extends out out 0.
Proof.
  split; [tauto|]. split; [exists EmptyString; symmetry; apply append_nil_r|].
  split; [reflexivity | discriminate].
Qed.

Lemma printer_extends_fprintf (out out' : printer_state) (text : string) :
  printer_extends out out' 0 -> printer_extends out (fprintf out' text) 0.
Proof.
  intros (_ & (t & Ht) & Hs & _).
  split; [tauto|]. split.
  - exists (t +:+ text). cbn [fprintf fst]. rewrite Ht, append_assoc.
    reflexivity.
  - split; [intros _; cbn; auto | discriminate].
Qed.

Lemma printer_extends_trans (out out1 out2 : printer_state) (r : Z) :
  printer_extends out out1 0 -> printer_extends out1 out2 r ->
  printer_extends out out2 r.
Proof.
  intros (_ & (t1 & Ht1) & Hs1 & _) (Hr & (t2 & Ht2) & Hs2 & He2).
  split; [exact Hr|]. split.
  - exists (t1 +:+ t2). rewrite Ht2, Ht1, append_assoc. reflexivity.
  - split.
    + intros H0. rewrite (Hs2 H0). auto.
    + intros H1. destruct (He2 H1) as (msg & Hm). exists msg.
      rewrite Hm, Hs1; reflexivity.
Qed.

Lemma printer_extends_fail (out out' : printer_state) (r : Z) :
  printer_extends out out' r -> r <> 0 -> printer_extends out out' (-1).
Proof.
  intros (Hr & Ht & Hs & He) Hnz.
  destruct Hr as [->| ->]; [contradiction|].
  split; [tauto|]. split; [exact Ht|]. split; [discriminate | exact He].
Qed.

Lemma printer_extends_report (out out' : printer_state) (errmsg : string) :
  printer_extends out out' 0 ->
  printer_extends out (fst (report out' errmsg)) (snd (report out' errmsg)).
Proof.
  intros (_ & Ht & Hs & _). unfold report, show_json_error. cbn [fst snd].
  split; [tauto|]. split; [exact Ht|]. split; [discriminate|].
  intros _. exists errmsg. rewrite Hs by reflexivity. reflexivity.
Qed.

Lemma printer_extends_indent (n : nat) :
  forall out out' : printer_state,
    printer_extends out out' 0 -> printer_extends out (OUT_INDENT n out') 0.
Proof.
  induction n as [|n IH]; intros out out' H; cbn [OUT_INDENT].
  - exact H.
  - apply IH. apply printer_extends_fprintf. exact H.
Qed.

Lemma object_loop_extends (pp : pp_call) (d : db) (rec : rec_ptr)
  (indent : Z) (n : nat) :
  pp_extends pp ->
  forall (i : Z) (out0 out out' : printer_state) (r : Z),
    printer_extends out0 out 0 ->
    object_loop pp d rec indent n i out = Some (out', r) ->
    printer_extends out0 out' r.
Proof.
  intros Hpp. induction n as [|n IH]; intros i out0 out out' r H0 Hloop;
    cbn [object_loop] in Hloop.
  - injection Hloop as <- <-. exact H0.
  - destruct (negb _).
    + injection Hloop as <- <-. apply printer_extends_report. exact H0.
    + destruct (pp out _ (indent + 1) i 1) as [[out1 r1]|] eqn:Hcall;
        [|discriminate].
      pose proof (Hpp _ _ _ _ _ _ _ Hcall) as H1.
      destruct (Z.eqb_spec r1 0) as [->|Hnz].
      * apply (IH (i + 1) out0 out1 out' r); [|exact Hloop].
        exact (printer_extends_trans out0 out out1 0 H0 H1).
      * injection Hloop as <- <-.
        apply (printer_extends_trans out0 out out1 (-1) H0).
        exact (printer_extends_fail out out1 r1 H1 Hnz).
Qed.

Lemma array_loop_extends (pp : pp_call) (d : db) (rec : rec_ptr)
  (indent : Z) (n : nat) :
  pp_extends pp ->
  forall (i : Z) (out0 out out' : printer_state) (r : Z),
    printer_extends out0 out 0 ->
    array_loop pp d rec indent n i out = Some (out', r) ->
    printer_extends out0 out' r.
Proof.
  intros Hpp. induction n as [|n IH]; intros i out0 out out' r H0 Hloop;
    cbn [array_loop] in Hloop.
  - injection Hloop as <- <-. exact H0.
  - cbv zeta in Hloop.
    destruct (wg_get_encoded_type d (wg_get_field d rec i) =? WG_RECORDTYPE).
    + destruct (pp out _ indent i 0) as [[out1 r1]|] eqn:Hcall;
        [|discriminate].
      pose proof (Hpp _ _ _ _ _ _ _ Hcall) as H1.
      destruct (Z.eqb_spec r1 0) as [->|Hnz].
      * apply (IH (i + 1) out0 out1 out' r); [|exact Hloop].
        exact (printer_extends_trans out0 out out1 0 H0 H1).
      * injection Hloop as <- <-.
        apply (printer_extends_trans out0 out out1 (-1) H0).
        exact (printer_extends_fail out out1 r1 H1 Hnz).
    + destruct (wg_get_encoded_type d (wg_get_field d rec i) =? WG_STRTYPE);
        (eapply (IH (i + 1) out0); [|exact Hloop]);
        apply printer_extends_fprintf; exact H0.
Qed.

(** [pretty_print_json] keeps to [printer_extends], whatever the
    records hold. *)
Lemma pretty_print_json_extends (fuel : nat) (d : db) :
  pp_extends (pretty_print_json fuel d).
Proof.
  induction fuel as [|fuel IH]; intros out rec indent comma nl out' r Hpp;
    cbn [pretty_print_json] in Hpp; [discriminate|].
  cbv zeta in Hpp.
  destruct (is_schema_object d rec).
  - destruct (object_loop _ _ _ _ _ _ _) as [[out1 r1]|] eqn:Hloop;
      [|discriminate].
    pose proof (object_loop_extends _ d rec indent _ IH 0 out _ out1 r1
                  (printer_extends_fprintf out out _ (printer_extends_refl out))
                  Hloop) as H1.
    destruct (Z.eqb_spec r1 0) as [->|Hnz]; injection Hpp as <- <-.
    + apply printer_extends_fprintf. apply printer_extends_indent. exact H1.
    + exact H1.
  - destruct (is_schema_array d rec).
    + destruct (array_loop _ _ _ _ _ _ _) as [[out1 r1]|] eqn:Hloop;
        [|discriminate].
      pose proof (array_loop_extends _ d rec indent _ IH 0 out _ out1 r1
                    (printer_extends_fprintf out out _
                       (printer_extends_refl out))
                    Hloop) as H1.
      destruct (Z.eqb_spec r1 0) as [->|Hnz]; injection Hpp as <- <-.
      * apply printer_extends_fprintf. exact H1.
      * exact H1.
    + destruct (negb _).
      * injection Hpp as <- <-. apply printer_extends_report.
        apply printer_extends_refl.
      * assert (Hhead : forall text,
                  printer_extends out
                    (fprintf (OUT_INDENT (Z.to_nat indent) out) text) 0).
        { intros text. apply printer_extends_fprintf.
          apply printer_extends_indent. apply printer_extends_refl. }
        destruct (_ =? WG_RECORDTYPE).
        -- destruct (pretty_print_json fuel d _ _ indent 0 1)
             as [[out1 r1]|] eqn:Hcall; [|discriminate].
           pose proof (IH _ _ _ _ _ _ _ Hcall) as H1.
           destruct (Z.eqb_spec r1 0) as [->|Hnz]; injection Hpp as <- <-.
           ++ eapply printer_extends_trans; [apply Hhead | exact H1].
           ++ eapply printer_extends_trans; [apply Hhead|].
              exact (printer_extends_fail _ _ r1 H1 Hnz).
        -- destruct (_ =? WG_STRTYPE); injection Hpp as <- <-;
             apply printer_extends_fprintf; apply Hhead.
Qed.

End PrinterStreams.

Section Diagnostics.
Context `{B : Build} `{St : Store} `{Tk : !Tokenizer}.


Lemma parser_loop_silent (cb : JSON_parser_callback) (iptr : list ascii) :
  WG_NO_ERRPRINT = true ->
  forall (jc : JSON_parser_struct) (ctx : parser_context) (count : Z),
    snd (fst (parser_loop cb jc ctx iptr count)) = EmptyString.
Proof.
  intros Hq. induction iptr as [|c iptr IH]; intros jc ctx count;
    cbn [parser_loop].
  - destruct (JSON_parser_done jc); [reflexivity|].
    unfold show_json_error. rewrite Hq. reflexivity.
  - destruct (Ascii.eqb c NUL).
    + destruct (JSON_parser_done jc); [reflexivity|].
      unfold show_json_error. rewrite Hq. reflexivity.
    + destruct (JSON_parser_char (Some cb) jc c ctx) as [[jc' ctx'] ok].
      destruct (ok =? 0); [|apply IH].
      unfold show_json_error_byte. rewrite Hq. reflexivity.
Qed.

(** X9: a build with [WG_NO_ERRPRINT] writes no diagnostic: the
    in-memory parser leaves stderr empty whatever the result, and the
    printer leaves stderr as it was, also when the record is not a
    document or the walk meets a field of the wrong type. *)
Theorem no_errprint_build_is_silent (env : c_env) (d : db) (buf : string)
  (cb : JSON_parser_callback) (param : bool) (doc : option rec_ptr)
  (fuel : nat) (out out' : printer_state) (document : rec_ptr) :
  WG_NO_ERRPRINT = true ->
  out_stderr (run_json_parser env d buf cb param doc) = EmptyString /\
  (wg_print_json_document fuel d out document = Some out' ->
   snd out' = snd out).
Proof.
  intros Hq. split.
  - unfold run_json_parser.
    pose proof (parser_loop_silent cb (list_ascii_of_string buf) Hq
                  (new_JSON_parser parser_config)
                  (initial_context env d param doc) 0) as H.
    destruct (parser_loop _ _ _ _ _) as [[c err] r]. exact H.
  - unfold wg_print_json_document.
    destruct (negb _).
    + intros H. injection H as <-. unfold report, show_json_error.
      rewrite Hq. cbn [fst snd]. apply append_nil_r.
    + destruct (pretty_print_json fuel d out document 0 0 1)
        as [[o r]|] eqn:Hpp; [|discriminate].
      intros H. injection H as <-.
      destruct (pretty_print_json_extends fuel d _ _ _ _ _ _ _ Hpp)
        as (Hr & _ & H0 & H1).
      destruct Hr as [-> | ->]; [apply H0; reflexivity|].
      destruct (H1 eq_refl) as (msg & Hm). rewrite Hm.
      unfold show_json_error. rewrite Hq. cbn [fst]. apply append_nil_r.
Qed.

Lemma parser_loop_diagnostic (cb : JSON_parser_callback)
  (iptr : list ascii) :
  forall (jc : JSON_parser_struct) (ctx : parser_context) (count : Z),
    let '(_, err, result) := parser_loop cb jc ctx iptr count in
    (result = 0 /\ err = EmptyString) \/
    (result = -2 /\ err = fst (show_json_error "JSON parsing failed")) \/
    (result = -2 /\
     exists (k : nat) (c : ascii) jc' ctx',
       iptr !! k = Some c /\ c <> NUL /\
       Forall (fun a => a <> NUL) (take k iptr) /\
       run_chars cb jc ctx (take k iptr) = Some (jc', ctx') /\
       snd (JSON_parser_char (Some cb) jc' c ctx') = 0 /\
       err = fst (show_json_error_byte "JSON parsing failed"
                    (count + Z.of_nat k))).
Proof.
  induction iptr as [|c iptr IH]; intros jc ctx count; cbn [parser_loop].
  - destruct (JSON_parser_done jc); [left | right; left]; split; reflexivity.
  - destruct (Ascii.eqb_spec c NUL) as [->|Hc].
    + destruct (JSON_parser_done jc); [left | right; left]; split; reflexivity.
    + destruct (JSON_parser_char (Some cb) jc c ctx) as [[jc1 ctx1] ok]
        eqn:Hchar.
      destruct (Z.eqb_spec ok 0) as [->|Hok].
      * right. right. split; [reflexivity|].
        exists 0%nat, c, jc, ctx. cbn [take lookup].
        repeat split; try reflexivity; try assumption.
        -- constructor.
        -- rewrite Hchar. reflexivity.
        -- rewrite Z.add_0_r. reflexivity.
      * specialize (IH jc1 ctx1 (count + 1)).
        destruct (parser_loop cb jc1 ctx1 iptr (count + 1)) as [[c' err] r].
        destruct IH as [H | [H | (Hr & k & a & jc' & ctx' & Hk & Ha & Hall
                                    & Hrun & Hfail & Herr)]];
          [left; exact H | right; left; exact H |].
        right. right. split; [exact Hr|].
        exists (S k), a, jc', ctx'. cbn [take run_chars].
        rewrite Hchar.
        destruct (Z.eqb_spec ok 0) as [|_]; [contradiction|].
        repeat split; try assumption.
        -- constructor; assumption.
        -- rewrite Herr. f_equal. f_equal. lia.
Qed.


End Diagnostics.

Section FileFacts.
Context `{B : Build} `{St : Store} `{Tk : !Tokenizer}.

(** The reading loop keeps every store inside the buffer and every
    [int] in range, as long as the file leaves room for one more
    chunk below [INT_MAX]. *)
Lemma read_loop_safe (f : list ascii) :
  forall (jc : JSON_parser_struct) (buf : list ascii) (count bufsize : Z)
         (reallocs : nat),
    0 <= count < bufsize -> bufsize <= count + WG_JSON_INPUT_CHUNK ->
    count + Z.of_nat (length f) + WG_JSON_INPUT_CHUNK <= INT_MAX ->
    match read_loop jc f buf count bufsize reallocs with
    | READ_UNDEFINED => False
    | READ_EOF _ _ count' bufsize' => 0 <= count' < bufsize'
    | _ => True
    end.
Proof.
  unfold WG_JSON_INPUT_CHUNK, INT_MAX.
  induction f as [|c f IH]; intros jc buf count bufsize reallocs Hc Hb Hmax;
    cbn [read_loop].
  - exact Hc.
  - cbn [length] in Hmax.
    destruct (JSON_parser_char_null jc c) as [jc' ok].
    destruct (ok =? 0); [exact I|].
    destruct (Z.ltb_spec count 0) as [|_]; [lia|].
    destruct (Z.leb_spec bufsize count) as [|_]; [lia|]. cbn [orb].
    unfold INT_MAX, WG_JSON_INPUT_CHUNK.
    destruct (Z.leb_spec 2147483647 count) as [|_]; [lia|].
    destruct (Z.leb_spec bufsize (count + 1)) as [Hfull|Hroom].
    + destruct (Z.ltb_spec 2147483647 (bufsize + 16384)) as [|_]; [lia|].
      destruct reallocs as [|n]; [exact I|].
      apply IH; lia.
    + apply IH; lia.
Qed.

Lemma read_loop_eof (f : list ascii) :
  forall (jc jc' : JSON_parser_struct) (buf buf' : list ascii)
         (count bufsize count' bufsize' : Z) (reallocs : nat),
    read_loop jc f buf count bufsize reallocs =
      READ_EOF jc' buf' count' bufsize' ->
    lex_chars jc f = Some jc' /\ buf' = buf ++ f.
Proof.
  induction f as [|c f IH];
    intros jc jc' buf buf' count bufsize count' bufsize' reallocs Hr;
    cbn [read_loop lex_chars] in *.
  - injection Hr as <- <- _ _. split; [reflexivity|].
    symmetry. apply app_nil_r.
  - unfold JSON_parser_char_null in Hr.
    destruct (snd (JSON_parser_lex jc c)) as [jc1|]; [|discriminate].
    cbn [Z.eqb] in Hr.
    destruct ((count <? 0) || (bufsize <=? count)); [discriminate|].
    destruct (INT_MAX <=? count); [discriminate|].
    destruct (bufsize <=? count + 1).
    + destruct (INT_MAX <? bufsize + WG_JSON_INPUT_CHUNK); [discriminate|].
      destruct reallocs as [|n]; [discriminate|].
      destruct (IH _ _ _ _ _ _ _ _ _ Hr) as [H1 H2].
      split; [exact H1|]. rewrite H2, <- app_assoc. reflexivity.
    + destruct (IH _ _ _ _ _ _ _ _ _ Hr) as [H1 H2].
      split; [exact H1|]. rewrite H2, <- app_assoc. reflexivity.
Qed.

(** The loop over a text the tokenizer takes: it ends at the end of
    the file when [realloc] gives a buffer each time a chunk is full,
    and with [READ_NOMEM] otherwise.  [q] chunks are full at the
    start, [qf] at the end. *)
Lemma read_loop_accepted (f : list ascii) :
  forall (jc jc' : JSON_parser_struct) (buf : list ascii) (count q qf : Z)
         (reallocs : nat),
    lex_chars jc f = Some jc' ->
    0 <= count ->
    WG_JSON_INPUT_CHUNK * q <= count < WG_JSON_INPUT_CHUNK * (q + 1) ->
    WG_JSON_INPUT_CHUNK * qf <= count + Z.of_nat (length f)
      < WG_JSON_INPUT_CHUNK * (qf + 1) ->
    count + Z.of_nat (length f) + WG_JSON_INPUT_CHUNK <= INT_MAX ->
    read_loop jc f buf count (WG_JSON_INPUT_CHUNK * (q + 1)) reallocs =
    if qf - q <=? Z.of_nat reallocs
    then READ_EOF jc' (buf ++ f) (count + Z.of_nat (length f))
           (WG_JSON_INPUT_CHUNK * (qf + 1))
    else READ_NOMEM.
Proof.
  unfold WG_JSON_INPUT_CHUNK, INT_MAX.
  induction f as [|c f IH]; intros jc jc' buf count q qf reallocs Hlex Hc Hq
    Hqf Hmax; cbn [read_loop lex_chars length] in *.
  - injection Hlex as <-. rewrite Z.add_0_r in *.
    assert (qf = q) by lia. subst qf.
    destruct (Z.leb_spec (q - q) (Z.of_nat reallocs)) as [_|]; [|lia].
    rewrite app_nil_r. reflexivity.
  - unfold JSON_parser_char_null.
    destruct (snd (JSON_parser_lex jc c)) as [jc1|]; [|discriminate].
    cbn [Z.eqb].
    destruct (Z.ltb_spec count 0) as [|_]; [lia|].
    destruct (Z.leb_spec (16384 * (q + 1)) count) as [|_]; [lia|].
    cbn [orb]. unfold INT_MAX, WG_JSON_INPUT_CHUNK.
    destruct (Z.leb_spec 2147483647 count) as [|_]; [lia|].
    destruct (Z.leb_spec (16384 * (q + 1)) (count + 1)) as [Hfull|Hroom].
    + destruct (Z.ltb_spec 2147483647 (16384 * (q + 1) + 16384)) as [|_];
        [lia|].
      destruct reallocs as [|n].
      * destruct (Z.leb_spec (qf - q) (Z.of_nat 0)) as [|_]; [lia|].
        reflexivity.
      * replace (16384 * (q + 1) + 16384) with (16384 * (q + 1 + 1)) by lia.
        rewrite (IH jc1 jc' (buf ++ [c]) (count + 1) (q + 1) qf n Hlex)
          by lia.
        rewrite <- app_assoc. cbn [app].
        replace (count + 1 + Z.of_nat (length f))
          with (count + Z.of_nat (S (length f))) by lia.
        destruct (Z.leb_spec (qf - (q + 1)) (Z.of_nat n)),
                 (Z.leb_spec (qf - q) (Z.of_nat (S n)));
          try reflexivity; lia.
    + rewrite (IH jc1 jc' (buf ++ [c]) (count + 1) q qf reallocs Hlex) by lia.
      rewrite <- app_assoc. cbn [app].
      replace (count + 1 + Z.of_nat (length f))
        with (count + Z.of_nat (S (length f))) by lia.
      reflexivity.
Qed.

Lemma lex_chars_accepts (f : list ascii) :
  forall jc : JSON_parser_struct,
    Forall (fun a => a <> NUL) f ->
    lex_accepts jc f = true <->
    exists jc', lex_chars jc f = Some jc' /\ JSON_parser_done jc' = true.
Proof.
  induction f as [|c f IH]; intros jc Hnul; cbn [lex_accepts lex_chars].
  - split; [intros H; eauto | intros (jc' & [= <-] & H); exact H].
  - apply Forall_cons in Hnul as [Hc Hf].
    destruct (Ascii.eqb_spec c NUL) as [|_]; [contradiction|].
    destruct (snd (JSON_parser_lex jc c)) as [jc1|].
    + apply IH. exact Hf.
    + split; [discriminate | intros (jc' & H & _); discriminate].
Qed.

Lemma c_str_terminated (f : list ascii) :
  Forall (fun a => a <> NUL) f ->
  c_str (f ++ [NUL]) = string_of_list_ascii f.
Proof.
  induction f as [|c f IH]; intros Hnul; cbn [c_str app string_of_list_ascii].
  - reflexivity.
  - apply Forall_cons in Hnul as [Hc Hf].
    destruct (Ascii.eqb_spec c NUL) as [|_]; [contradiction|].
    rewrite (IH Hf). reflexivity.
Qed.

Lemma read_and_parse_safe (env : file_env) (d : db) (stdout : string)
  (f : list ascii) :
  Z.of_nat (length f) + WG_JSON_INPUT_CHUNK <= INT_MAX ->
  is_Some (read_and_parse env d stdout f).
Proof.
  intros Hmax. unfold read_and_parse.
  pose proof (read_loop_safe f (new_JSON_parser parser_config) [] 0
                WG_JSON_INPUT_CHUNK (realloc_buf env)
                ltac:(unfold WG_JSON_INPUT_CHUNK; lia) ltac:(lia)
                ltac:(lia)) as Hsafe.
  destruct (read_loop _ _ _ _ _ _) as [jc buf count bufsize|count| |];
    try (eexists; reflexivity); [|contradiction].
  destruct (negb _); [eexists; reflexivity|].
  destruct (Z.ltb_spec count 0) as [|_]; [lia|].
  destruct (Z.leb_spec bufsize count) as [|_]; [lia|].
  eexists; reflexivity.
Qed.

(** X11: reading a file is memory safe.  When the stream that is read
    is short enough for one more chunk below [INT_MAX], no byte is
    stored outside the buffer, the terminator included, and no [int]
    overflows, whatever the tokenizer accepts and whichever [malloc]
    and [realloc] calls fail: the call returns. *)
Theorem file_read_is_memory_safe (env : file_env) (d : db)
  (filename : option string) :
  (forall f, input_stream env filename = Some f ->
             Z.of_nat (length f) + WG_JSON_INPUT_CHUNK <= INT_MAX) ->
  is_Some (wg_parse_json_file env d filename).
Proof.
  intros Hmax. unfold wg_parse_json_file, input_stream in *.
  destruct (negb (malloc_buf env)); [eexists; reflexivity|].
  destruct filename as [name|].
  - destruct (fopen env name) as [f|]; [|eexists; reflexivity].
    apply read_and_parse_safe. apply Hmax. reflexivity.
  - apply read_and_parse_safe. apply Hmax. reflexivity.
Qed.

Lemma read_and_parse_result (env : file_env) (d : db) (stdout : string)
  (f : list ascii) (o : file_outcome) :
  read_and_parse env d stdout f = Some o ->
  (file_result o = 0 \/ file_result o = -1 \/ file_result o = -2) /\
  (file_result o = -1 -> file_db o = d) /\
  file_stdout o = stdout.
Proof.
  unfold read_and_parse.
  destruct (read_loop _ _ _ _ _ _) as [jc buf count bufsize|count| |];
    [|intros [= <-]; cbn; tauto..|discriminate].
  destruct (negb _); [intros [= <-]; cbn; tauto|].
  destruct (_ || _); [discriminate|].
  intros [= <-]. cbn [file_result file_db file_stdout].
  unfold wg_parse_json_document.
  destruct (run_json_parser_spec (parse_env env) d (c_str (buf ++ [NUL]))
              false None) as ([H0 | H2] & _).
  - rewrite H0. split; [tauto|]. split; [discriminate | reflexivity].
  - rewrite H2. split; [tauto|]. split; [discriminate | reflexivity].
Qed.

(** X12: the codes of [wg_parse_json_file].  It returns 0, -1 or -2,
    and a call that returns -1 has left the database as it was: the
    first buffer or a larger one could not be allocated, the file
    could not be opened, or the first pass, which runs the tokenizer
    without a callback, found the text malformed.  The prompt is
    written to stdout exactly when the first buffer is there and the
    text comes from stdin. *)
Theorem file_errors_leave_the_database (env : file_env) (d : db)
  (filename : option string) (o : file_outcome) :
  wg_parse_json_file env d filename = Some o ->
  (file_result o = 0 \/ file_result o = -1 \/ file_result o = -2) /\
  (file_result o = -1 -> file_db o = d) /\
  file_stdout o =
    match filename with
    | None => if malloc_buf env then stdin_prompt else EmptyString
    | Some _ => EmptyString
    end.
Proof.
  unfold wg_parse_json_file.
  destruct (malloc_buf env); cbn [negb].
  - destruct filename as [name|].
    + destruct (fopen env name) as [f|].
      * apply read_and_parse_result.
      * intros [= <-]. cbn. tauto.
    + apply read_and_parse_result.
  - intros [= <-]. cbn. destruct filename; tauto.
Qed.

Lemma read_and_parse_accepted (env : file_env) (d : db) (stdout : string)
  (f : list ascii) :
  Forall (fun a => a <> NUL) f ->
  lex_accepts (new_JSON_parser parser_config) f = true ->
  Z.of_nat (length f) + WG_JSON_INPUT_CHUNK <= INT_MAX ->
  read_and_parse env d stdout f =
  if Z.of_nat (length f) / WG_JSON_INPUT_CHUNK <=? Z.of_nat (realloc_buf env)
  then
    let o := wg_parse_json_document (parse_env env) d
               (string_of_list_ascii f) in
    Some {| file_db := out_db o; file_stdout := stdout;
            file_stderr := out_stderr o; file_result := out_result o |}
  else Some (file_failure d stdout
               (show_json_error "Failed to allocate additional memory")).
Proof.
  intros Hnul Hacc Hmax.
  apply (lex_chars_accepts f _ Hnul) in Hacc as (jc' & Hlex & Hdone).
  unfold read_and_parse.
  pose proof (Z.div_mod (Z.of_nat (length f)) WG_JSON_INPUT_CHUNK
                ltac:(unfold WG_JSON_INPUT_CHUNK; lia)) as Hdiv.
  pose proof (Z.mod_pos_bound (Z.of_nat (length f)) WG_JSON_INPUT_CHUNK
                ltac:(unfold WG_JSON_INPUT_CHUNK; lia)) as Hmod.
  set (qf := Z.of_nat (length f) / WG_JSON_INPUT_CHUNK) in *.
  pose proof (read_loop_accepted f (new_JSON_parser parser_config) jc' []
                0 0 qf (realloc_buf env) Hlex ltac:(lia)
                ltac:(unfold WG_JSON_INPUT_CHUNK; lia)
                ltac:(unfold WG_JSON_INPUT_CHUNK in *; lia)
                ltac:(lia)) as Hloop.
  change (WG_JSON_INPUT_CHUNK * (0 + 1)) with WG_JSON_INPUT_CHUNK in Hloop.
  rewrite Hloop, Z.sub_0_r.
  destruct (qf <=? Z.of_nat (realloc_buf env)); [|reflexivity].
  rewrite Hdone. cbn [negb app].
  destruct (Z.ltb_spec (0 + Z.of_nat (length f)) 0) as [|_]; [lia|].
  destruct (Z.leb_spec (WG_JSON_INPUT_CHUNK * (qf + 1))
              (0 + Z.of_nat (length f))) as [|_];
    [unfold WG_JSON_INPUT_CHUNK in *; lia|].
  cbn [orb]. rewrite (c_str_terminated f Hnul). reflexivity.
Qed.

(** X13: a file that passes the first pass is parsed like a buffer.
    For a text without a NUL byte that the tokenizer accepts, and with
    [realloc] giving a buffer for every full chunk of 16384 bytes,
    the database, the diagnostics and the code are those of
    [wg_parse_json_document] on the text.  Without enough memory the
    call returns -1 and the database is as it was; a text of exactly
    16384 bytes already needs a second chunk, for the terminator. *)
Theorem accepted_file_is_parsed_as_buffer (env : file_env) (d : db)
  (filename : option string) (f : list ascii) :
  malloc_buf env = true -> input_stream env filename = Some f ->
  Forall (fun a => a <> NUL) f ->
  lex_accepts (new_JSON_parser parser_config) f = true ->
  Z.of_nat (length f) + WG_JSON_INPUT_CHUNK <= INT_MAX ->
  exists o,
    wg_parse_json_file env d filename = Some o /\
    if Z.of_nat (length f) / WG_JSON_INPUT_CHUNK
       <=? Z.of_nat (realloc_buf env)
    then
      let m := wg_parse_json_document (parse_env env) d
                 (string_of_list_ascii f) in
      file_db o = out_db m /\ file_stderr o = out_stderr m /\
      file_result o = out_result m
    else file_db o = d /\ file_result o = -1.
Proof.
  intros Hmalloc Hin Hnul Hacc Hmax.
  assert (Hrp : forall stdout,
            exists o,
              read_and_parse env d stdout f = Some o /\
              if Z.of_nat (length f) / WG_JSON_INPUT_CHUNK
                 <=? Z.of_nat (realloc_buf env)
              then
                let m := wg_parse_json_document (parse_env env) d
                           (string_of_list_ascii f) in
                file_db o = out_db m /\ file_stderr o = out_stderr m /\
                file_result o = out_result m
              else file_db o = d /\ file_result o = -1).
  { intros stdout. rewrite (read_and_parse_accepted env d stdout f Hnul Hacc Hmax).
    destruct (_ <=? _); eexists; (split; [reflexivity|]); cbn; tauto. }
  unfold wg_parse_json_file, input_stream in *. rewrite Hmalloc. cbn [negb].
  destruct filename as [name|].
  - rewrite Hin. apply Hrp.
  - injection Hin as <-. apply Hrp.
Qed.

Lemma read_and_parse_fatal (env : file_env) (d : db) (stdout : string)
  (f : list ascii) (o : file_outcome) :
  Forall (fun a => a <> NUL) f ->
  read_and_parse env d stdout f = Some o -> file_result o = -2 ->
  lex_accepts (new_JSON_parser parser_config) f = true /\
  snd (deliver parse_json_cb
         (initial_context (parse_env env) d false None)
         (lex_events (new_JSON_parser parser_config) f)) = false.
Proof.
  intros Hnul. unfold read_and_parse.
  destruct (read_loop _ _ _ _ _ _) as [jc buf count bufsize|count| |] eqn:Hloop;
    [|intros [= <-]; discriminate..|discriminate].
  destruct (JSON_parser_done jc) eqn:Hdone; cbn [negb];
    [|intros [= <-]; discriminate].
  destruct (_ || _); [discriminate|].
  intros [= <-]. cbn [file_result].
  destruct (read_loop_eof f _ _ _ _ _ _ _ _ _ Hloop) as [Hlex ->].
  cbn [app]. rewrite (c_str_terminated f Hnul).
  assert (Hacc : lex_accepts (new_JSON_parser parser_config) f = true)
    by (apply (lex_chars_accepts f _ Hnul); eauto).
  unfold wg_parse_json_document.
  destruct (run_json_parser_spec (parse_env env) d (string_of_list_ascii f)
              false None) as (_ & Hzero & _).
  cbv zeta in Hzero. unfold tokenizer_accepts, tokenizer_events in Hzero.
  rewrite list_ascii_of_string_of_list_ascii in Hzero.
  intros Hfatal. split; [exact Hacc|].
  destruct (snd (deliver parse_json_cb _ _)); [|reflexivity].
  rewrite (proj2 Hzero (conj Hacc eq_refl)) in Hfatal. discriminate.
Qed.


End FileFacts.

Section FileSyntax.
Context `{B : Build} `{St : Store} `{Tk : !Tokenizer}.

(** The loop over a text that starts with characters the tokenizer
    takes: with a buffer from [realloc] for every chunk they fill, it
    goes on with the rest. *)
Lemma read_loop_prefix (pre : list ascii) :
  forall (rest : list ascii) (jc jc' : JSON_parser_struct)
         (buf : list ascii) (count q qf : Z) (reallocs : nat),
    lex_chars jc pre = Some jc' ->
    0 <= count ->
    WG_JSON_INPUT_CHUNK * q <= count < WG_JSON_INPUT_CHUNK * (q + 1) ->
    WG_JSON_INPUT_CHUNK * qf <= count + Z.of_nat (length pre)
      < WG_JSON_INPUT_CHUNK * (qf + 1) ->
    count + Z.of_nat (length pre) + WG_JSON_INPUT_CHUNK <= INT_MAX ->
    qf - q <= Z.of_nat reallocs ->
    read_loop jc (pre ++ rest) buf count (WG_JSON_INPUT_CHUNK * (q + 1))
      reallocs =
    read_loop jc' rest (buf ++ pre) (count + Z.of_nat (length pre))
      (WG_JSON_INPUT_CHUNK * (qf + 1)) (reallocs - Z.to_nat (qf - q)).
Proof.
  unfold WG_JSON_INPUT_CHUNK, INT_MAX.
  induction pre as [|c pre IH];
    intros rest jc jc' buf count q qf reallocs Hlex Hc Hq Hqf Hmax Hre;
    cbn [lex_chars length app] in *.
  - injection Hlex as <-. rewrite Z.add_0_r in *.
    assert (qf = q) by lia. subst qf.
    rewrite app_nil_r, Z.sub_diag. cbn [Z.to_nat]. rewrite Nat.sub_0_r.
    reflexivity.
  - cbn [read_loop]. unfold JSON_parser_char_null.
    destruct (snd (JSON_parser_lex jc c)) as [jc1|]; [|discriminate].
    cbn [Z.eqb].
    destruct (Z.ltb_spec count 0) as [|_]; [lia|].
    destruct (Z.leb_spec (16384 * (q + 1)) count) as [|_]; [lia|].
    cbn [orb]. unfold INT_MAX, WG_JSON_INPUT_CHUNK.
    destruct (Z.leb_spec 2147483647 count) as [|_]; [lia|].
    destruct (Z.leb_spec (16384 * (q + 1)) (count + 1)) as [Hfull|Hroom].
    + destruct (Z.ltb_spec 2147483647 (16384 * (q + 1) + 16384)) as [|_];
        [lia|].
      destruct reallocs as [|n]; [lia|].
      replace (16384 * (q + 1) + 16384) with (16384 * (q + 1 + 1)) by lia.
      rewrite (IH rest jc1 jc' (buf ++ [c]) (count + 1) (q + 1) qf n Hlex)
        by lia.
      rewrite <- app_assoc. cbn [app].
      replace (count + 1 + Z.of_nat (length pre))
        with (count + Z.of_nat (S (length pre))) by lia.
      replace (n - Z.to_nat (qf - (q + 1)))%nat
        with (S n - Z.to_nat (qf - q))%nat by lia.
      reflexivity.
    + rewrite (IH rest jc1 jc' (buf ++ [c]) (count + 1) q qf reallocs Hlex)
        by lia.
      rewrite <- app_assoc. cbn [app].
      replace (count + 1 + Z.of_nat (length pre))
        with (count + Z.of_nat (S (length pre))) by lia.
      reflexivity.
Qed.

(** X17: the first pass reports the first byte the tokenizer rejects.
    When the tokenizer takes the bytes [pre] and rejects the next one,
    and [realloc] gives a buffer for every chunk that [pre] fills,
    [wg_parse_json_file] returns -1 with the diagnostic for
    [byte=k], [k] the number of bytes in [pre]; the database is as it
    was and nothing of the text has been given to the callback. *)
Theorem file_syntax_error_position (env : file_env) (d : db)
  (filename : option string) (pre rest : list ascii) (c : ascii)
  (jc' : JSON_parser_struct) :
  malloc_buf env = true ->
  input_stream env filename = Some (pre ++ c :: rest) ->
  lex_chars (new_JSON_parser parser_config) pre = Some jc' ->
  snd (JSON_parser_lex jc' c) = None ->
  Z.of_nat (length pre) / WG_JSON_INPUT_CHUNK <= Z.of_nat (realloc_buf env) ->
  Z.of_nat (length pre) + WG_JSON_INPUT_CHUNK <= INT_MAX ->
  wg_parse_json_file env d filename =
  Some (file_failure d
          (match filename with
           | None => stdin_prompt
           | Some _ => EmptyString
           end)
          (show_json_error_byte "Syntax error" (Z.of_nat (length pre)))).
Proof.
  intros Hmalloc Hin Hlex Hrej Hre Hmax.
  assert (Hrp : forall stdout,
            read_and_parse env d stdout (pre ++ c :: rest) =
            Some (file_failure d stdout
                    (show_json_error_byte "Syntax error"
                       (Z.of_nat (length pre))))).
  { intros stdout. unfold read_and_parse.
    pose proof (Z.div_mod (Z.of_nat (length pre)) WG_JSON_INPUT_CHUNK
                  ltac:(unfold WG_JSON_INPUT_CHUNK; lia)) as Hdiv.
    pose proof (Z.mod_pos_bound (Z.of_nat (length pre)) WG_JSON_INPUT_CHUNK
                  ltac:(unfold WG_JSON_INPUT_CHUNK; lia)) as Hmod.
    set (qf := Z.of_nat (length pre) / WG_JSON_INPUT_CHUNK) in *.
    pose proof (read_loop_prefix pre (c :: rest)
                  (new_JSON_parser parser_config) jc' [] 0 0 qf
                  (realloc_buf env) Hlex ltac:(lia)
                  ltac:(unfold WG_JSON_INPUT_CHUNK; lia)
                  ltac:(unfold WG_JSON_INPUT_CHUNK in *; lia)
                  ltac:(lia) ltac:(lia)) as Hloop.
    change (WG_JSON_INPUT_CHUNK * (0 + 1)) with WG_JSON_INPUT_CHUNK in Hloop.
    rewrite Hloop. cbn [read_loop]. unfold JSON_parser_char_null.
    rewrite Hrej. cbn [Z.eqb]. reflexivity. }
  unfold wg_parse_json_file, input_stream in *. rewrite Hmalloc. cbn [negb].
  destruct filename as [name|].
  - rewrite Hin. apply Hrp.
  - injection Hin as ->. apply Hrp.
Qed.

End FileSyntax.

Lemma file_syntax_error_position_witness :
  @wg_parse_json_file build_plain RefStore.store ref_tokenizer
    {| fopen := fun _ => Some (list_ascii_of_string malformed_object);
       stdin := []; malloc_buf := true; realloc_buf := 0;
       parse_env := plain_env 8 |}
    (RefStore.empty 8 8) (Some "bad.json") =
  Some (file_failure (RefStore.empty 8 8) EmptyString
          (@show_json_error_byte build_plain "Syntax error" 6)).
Proof.
  apply (@file_syntax_error_position build_plain RefStore.store ref_tokenizer
           {| fopen := fun _ => Some (list_ascii_of_string malformed_object);
              stdin := []; malloc_buf := true; realloc_buf := 0;
              parse_env := plain_env 8 |}
           (RefStore.empty 8 8) (Some "bad.json")
           (take 6 (list_ascii_of_string malformed_object))
           (drop 7 (list_ascii_of_string malformed_object)) "}"
           (at_state RefTokenizer.VA [RefTokenizer.MODE_OBJECT] 98)).
  - reflexivity.
  - vm_compute. reflexivity.
  - vm_compute. reflexivity.
  - vm_compute. reflexivity.
  - vm_compute. discriminate.
  - vm_compute. discriminate.
Defined.

Section RefAppend.
Import RefStore.
Context `{B : Build}.

Lemma appended_refl (p : bool) (d : database) : appended p d d.
Proof. exists []. split; [symmetry; apply app_nil_r | constructor]. Qed.

Lemma appended_trans (p : bool) (d1 d2 d3 : database) :
  appended p d1 d2 -> appended p d2 d3 -> appended p d1 d3.
Proof.
  intros (l1 & H1 & F1) (l2 & H2 & F2). exists (l1 ++ l2). split.
  - rewrite H2, H1, app_assoc. reflexivity.
  - apply Forall_app. split; assumption.
Qed.

Lemma appended_create (p : bool) (d d' : database) (rec : record)
  (r : option nat) :
  is_param rec = p -> create d rec = (d', r) ->
  appended p d d' /\
  match r with
  | Some n => n = length (records d) /\ records d' = records d ++ [rec]
  | None => d' = d
  end.
Proof.
  intros Hp. unfold create. destruct (free_records d).
  - intros [= <- <-]. split; [apply appended_refl | reflexivity].
  - intros [= <- <-]. cbn [records]. split; [|split; reflexivity].
    exists [rec]. split; [reflexivity|]. constructor; [exact Hp | constructor].
Qed.

Lemma set_fields_last (l : list enc) :
  forall (d d' : database) (pre : list record) (rec : record) (i rc : Z),
    records d = pre ++ [rec] ->
    set_fields d (length pre) i l = (d', rc) ->
    exists rec', records d' = pre ++ [rec'] /\ is_param rec' = is_param rec.
Proof.
  induction l as [|x l IH]; intros d d' pre rec i rc Hd Hset;
    cbn [set_fields] in Hset.
  - injection Hset as <- _. eauto.
  - cbn [wg_set_field store] in Hset. unfold set_field in Hset.
    destruct (free_writes d) as [|n]; [injection Hset as <- _; eauto|].
    assert (Hl : records d !! length pre = Some rec).
    { rewrite Hd, lookup_app_r by lia. rewrite Nat.sub_diag. reflexivity. }
    rewrite Hl in Hset.
    destruct ((0 <=? i) && (i <? Z.of_nat (length (fields rec))));
      [|injection Hset as <- _; eauto].
    cbn [Z.eqb] in Hset.
    set (rec1 := with_fields rec (<[Z.to_nat i := x]> (fields rec))) in *.
    assert (Hd1 : <[length pre := rec1]> (records d) = pre ++ [rec1]).
    { rewrite Hd. rewrite insert_app_r_alt by lia.
      rewrite Nat.sub_diag. reflexivity. }
    destruct (IH {| records := <[length pre := rec1]> (records d);
                    free_records := free_records d; free_writes := n |}
                d' pre rec1 (i + 1) rc Hd1 Hset) as (rec' & H1 & H2).
    exists rec'. split; [exact H1 | exact H2].
Qed.

Lemma add_literal_appended (ctx : parser_context) (val : enc) :
  appended (isparam ctx) (ctx_db ctx) (ctx_db (fst (add_literal ctx val))) /\
  isparam (fst (add_literal ctx val)) = isparam ctx.
Proof.
  assert (Helem : forall (c : parser_context) (x : enc),
            ctx_db (fst (add_elem c x)) = ctx_db c /\
            isparam (fst (add_elem c x)) = isparam c).
  { intros c x. unfold add_elem. repeat case_match; split; reflexivity. }
  unfold add_literal.
  destruct (_ || _); [split; [apply appended_refl | reflexivity]|].
  destruct (type _).
  - destruct (Helem ctx val) as [-> ->].
    split; [apply appended_refl | reflexivity].
  - cbn [wg_encode_str store ctx_db set_db isparam].
    destruct (decide _); [split; [apply appended_refl | reflexivity]|].
    cbn [wg_create_kvpair store]. unfold create_kvpair.
    destruct (create _ _) as [d' r] eqn:Hc.
    match type of Hc with
    | create ?d0 ?rec0 = _ =>
        pose proof (appended_create (isparam ctx) d0 d' rec0 r eq_refl Hc)
          as [Ha _]
    end.
    destruct r as [r|]; [|split; [exact Ha | reflexivity]].
    match goal with
    | |- context [add_elem ?c ?x] => destruct (Helem c x) as [H1 H2]
    end.
    rewrite H1, H2. split; [exact Ha | reflexivity].
Qed.

Lemma pop_appended (ctx : parser_context) :
  appended (isparam ctx) (ctx_db ctx) (ctx_db (fst (pop ctx))) /\
  isparam (fst (pop ctx)) = isparam ctx.
Proof.
  unfold pop.
  destruct (stack_ptr ctx <? 0); [split; [apply appended_refl | reflexivity]|].
  cbn [stack_ptr set_stack_ptr ctx_db isparam].
  set (e := entry_at ctx (stack_ptr ctx)).
  set (top := stack_ptr ctx - 1 <? 0).
  assert (Hcreate : exists rec,
            is_param rec = isparam ctx /\
            match type e with
            | ARRAY => wg_create_array (ctx_db ctx) (size e) top (isparam ctx)
            | OBJECT => wg_create_object (ctx_db ctx) (size e) top
                          (isparam ctx)
            end = create (ctx_db ctx) rec).
  { destruct (type e); eexists; (split; [|reflexivity]); reflexivity. }
  destruct Hcreate as (rec & Hp & ->).
  destruct (create (ctx_db ctx) rec) as [d1 r] eqn:Hc.
  destruct (appended_create (isparam ctx) _ _ _ _ Hp Hc) as [Ha Hr].
  destruct r as [r|]; [|split; [exact Ha | reflexivity]].
  destruct Hr as [-> Hrec]. cbn [ctx_db set_db].
  destruct (set_fields _ _ _ _) as [d2 ret] eqn:Hset.
  destruct (set_fields_last _ _ _ _ _ _ _ Hrec Hset) as (rec' & H2 & Hp').
  assert (Ha2 : appended (isparam ctx) (ctx_db ctx) d2).
  { exists [rec']. split; [exact H2|].
    constructor; [congruence | constructor]. }
  match goal with
  | |- context [add_literal ?c ?v] =>
      pose proof (add_literal_appended c v) as Hlit;
      assert (Hsame : ctx_db c = d2 /\ isparam c = isparam ctx)
        by (destruct top; split; reflexivity)
  end.
  destruct Hsame as [Hd Hi]. rewrite Hd, Hi in Hlit.
  destruct (negb top && negb (ret =? 0)).
  - destruct Hlit as [H3 H4]. split; [|exact H4].
    exact (appended_trans _ _ _ _ Ha2 H3).
  - cbn [fst]. destruct top; (split; [exact Ha2 | reflexivity]).
Qed.

Lemma cb_appended (ctx : parser_context) (ty : JSON_type) (v : JSON_value) :
  appended (isparam ctx) (ctx_db ctx)
    (ctx_db (fst (parse_json_cb ctx ty v))) /\
  isparam (fst (parse_json_cb ctx ty v)) = isparam ctx.
Proof.
  assert (Hpush : forall k,
            appended (isparam ctx) (ctx_db ctx) (ctx_db (fst (push ctx k))) /\
            isparam (fst (push ctx k)) = isparam ctx).
  { intros k. unfold push. cbn [stack_ptr set_stack_ptr].
    destruct (_ <=? _); split; try apply appended_refl; reflexivity. }
  assert (Hlit : forall x,
            appended (isparam ctx) (ctx_db ctx)
              (ctx_db (fst (add_literal (set_db ctx (ctx_db ctx)) x))) /\
            isparam (fst (add_literal (set_db ctx (ctx_db ctx)) x))
              = isparam ctx).
  { intros x. exact (add_literal_appended (set_db ctx (ctx_db ctx)) x). }
  unfold parse_json_cb.
  destruct ty; try (split; [apply appended_refl | reflexivity]).
  - specialize (Hpush ARRAY). destruct (push ctx ARRAY) as [c r].
    destruct (r =? 0); exact Hpush.
  - pose proof (pop_appended ctx) as H. destruct (pop ctx) as [c r].
    destruct (r =? 0); exact H.
  - specialize (Hpush OBJECT). destruct (push ctx OBJECT) as [c r].
    destruct (r =? 0); exact Hpush.
  - pose proof (pop_appended ctx) as H. destruct (pop ctx) as [c r].
    destruct (r =? 0); exact H.
  - cbn [wg_encode_int store].
    destruct (decide _); [split; [apply appended_refl | reflexivity]|].
    specialize (Hlit (EInt (integer_value v))).
    destruct (add_literal _ _) as [c r]. destruct (r =? 0); exact Hlit.
  - cbn [wg_encode_double store].
    destruct (decide _); [split; [apply appended_refl | reflexivity]|].
    specialize (Hlit EDouble).
    destruct (add_literal _ _) as [c r]. destruct (r =? 0); exact Hlit.
  - cbn [wg_encode_str store].
    destruct (decide _); [split; [apply appended_refl | reflexivity]|].
    specialize (Hlit (EStr (as_c_string (str_value v)))).
    destruct (add_literal _ _) as [c r]. destruct (r =? 0); exact Hlit.
  - unfold add_key. destruct (_ || _); cbn;
      (split; [apply appended_refl | reflexivity]).
Qed.

Lemma deliver_appended (evs : list (JSON_type * JSON_value)) :
  forall ctx : parser_context,
    appended (isparam ctx) (ctx_db ctx)
      (ctx_db (fst (deliver parse_json_cb ctx evs))).
Proof.
  induction evs as [|[ty v] evs IH]; intros ctx; cbn [deliver].
  - apply appended_refl.
  - destruct (cb_appended ctx ty v) as [Ha Hp].
    destruct (parse_json_cb ctx ty v) as [c r]. cbn [fst] in *.
    destruct (r =? 0); [exact Ha|].
    specialize (IH c). rewrite Hp in IH.
    exact (appended_trans _ _ _ _ Ha IH).
Qed.

(** X15: on the reference store a parse only appends.  Whatever the
    buffer and the tokenizer, and whether the parse succeeds or not,
    the records that were in the database are there unchanged, in
    their places, and every record the parse has created carries the
    parameter flag of the call. *)
Theorem parse_only_appends_records `{Tk : !@Tokenizer store} (env : c_env)
  (d : database) (buf : string) (param : bool) (doc : option nat) :
  exists l,
    records (out_db (run_json_parser env d buf parse_json_cb param doc))
      = records d ++ l /\
    Forall (fun r => is_param r = param) l.
Proof.
  destruct (run_json_parser_spec env d buf param doc) as (_ & _ & Hdb & _).
  cbv zeta in Hdb.
  pose proof (deliver_appended (tokenizer_events buf)
                (initial_context env d param doc)) as Ha.
  cbn [isparam ctx_db initial_context] in Ha.
  destruct Ha as (l & H1 & H2). exists l. split; [|exact H2].
  rewrite <- H1. f_equal. exact Hdb.
Qed.

(** X16: the printer has no guard against a record that contains
    itself.  For an array whose first field is a handle to the array,
    the walk needs more nesting than any bound allows: the call never
    returns. *)
Theorem printer_does_not_return_on_a_cycle (d : database) (p : nat)
  (rec : record) (rest : list enc) (fuel : nat) (out : printer_state)
  (indent comma nl : Z) :
  records d !! p = Some rec -> kind rec = KArray ->
  fields rec = ERecord p :: rest ->
  pretty_print_json fuel d out p indent comma nl = None.
Proof.
  intros Hp Hk Hf. revert out indent comma nl.
  induction fuel as [|fuel IH]; intros out indent comma nl;
    cbn [pretty_print_json]; [reflexivity|].
  cbn [is_schema_object is_schema_array wg_get_record_len store].
  rewrite (record_at_lookup d p rec Hp), Hk.
  rewrite bool_decide_eq_false_2 by discriminate.
  rewrite bool_decide_eq_true_2 by reflexivity.
  rewrite Hf. cbn [length]. rewrite Nat2Z.id. cbn [array_loop].
  cbn [wg_get_field wg_get_encoded_type wg_decode_record store].
  unfold get_field. cbn [Z.ltb Z.compare Z.to_nat].
  rewrite (record_at_lookup d p rec Hp), Hf.
  cbn [lookup list_lookup default encoded_type decode_record Z.eqb Pos.eqb].
  rewrite IH. reflexivity.
Qed.

End RefAppend.


Lemma no_errprint_build_is_silent_witness :
  out_stderr (@run_json_parser build_silent RefStore.store ref_tokenizer
                (plain_env 8) nested_db malformed_object
                (@parse_json_cb build_silent RefStore.store) false None)
  = EmptyString /\
  (@wg_print_json_document build_silent RefStore.store 4 nested_db
     (EmptyString, EmptyString) 0%nat = Some (EmptyString, EmptyString) ->
   snd (EmptyString, EmptyString) = snd (EmptyString, EmptyString)).
Proof.
  apply (@no_errprint_build_is_silent build_silent RefStore.store
           ref_tokenizer).
  reflexivity.
Defined.

Lemma file_read_is_memory_safe_witness :
  is_Some (@wg_parse_json_file build_plain RefStore.store ref_tokenizer
             sample_files (RefStore.empty 8 8) (Some "doc.json")).
Proof.
  apply (@file_read_is_memory_safe build_plain RefStore.store ref_tokenizer).
  intros f Hf. vm_compute in Hf. injection Hf as <-.
  vm_compute. discriminate.
Defined.

Lemma file_errors_leave_the_database_witness :
  let o := @file_failure RefStore.store (RefStore.empty 8 8) EmptyString
             (@show_json_error_fn build_plain "Failed to open input"
                "missing.json") in
  (file_result o = 0 \/ file_result o = -1 \/ file_result o = -2) /\
  (file_result o = -1 -> file_db o = RefStore.empty 8 8) /\
  file_stdout o = EmptyString.
Proof.
  apply (@file_errors_leave_the_database build_plain RefStore.store
           ref_tokenizer sample_files (RefStore.empty 8 8)
           (Some "missing.json")).
  reflexivity.
Defined.

Lemma accepted_file_is_parsed_as_buffer_witness :
  exists o,
    @wg_parse_json_file build_plain RefStore.store ref_tokenizer
      sample_files (RefStore.empty 8 8) None = Some o /\
    file_db o = out_db (ref_parse_document 8 8 8 "[1,2]") /\
    file_stderr o = out_stderr (ref_parse_document 8 8 8 "[1,2]") /\
    file_result o = out_result (ref_parse_document 8 8 8 "[1,2]").
Proof.
  apply (@accepted_file_is_parsed_as_buffer build_plain RefStore.store
           ref_tokenizer sample_files (RefStore.empty 8 8) None
           (list_ascii_of_string "[1,2]")).
  - reflexivity.
  - reflexivity.
  - repeat (apply Forall_cons_2; [discriminate|]). apply Forall_nil_2.
  - vm_compute. reflexivity.
  - vm_compute. discriminate.
Defined.


Lemma printer_does_not_return_on_a_cycle_witness :
  @pretty_print_json build_plain RefStore.store 1000 cyclic_db
    (EmptyString, EmptyString) 0%nat 0 0 1 = None.
Proof.
  apply (@printer_does_not_return_on_a_cycle build_plain cyclic_db 0%nat
           (RefStore.container_record RefStore.KArray true false
              [RefStore.ERecord 0]) []); reflexivity.
Defined.

Section Nesting.
Context `{B : Build} `{St : Store}.

Lemma cb_depth (ctx : parser_context) (ty : JSON_type) (v : JSON_value) :
  snd (parse_json_cb ctx ty v) <> 0 ->
  stack_ptr (fst (parse_json_cb ctx ty v)) = stack_ptr ctx + depth_change ty.
Proof.
  assert (Hlit : forall d val,
            stack_ptr (fst (add_literal (set_db ctx d) val)) = stack_ptr ctx).
  { intros d val. rewrite add_literal_stack_ptr. reflexivity. }
  assert (Hpop : snd (pop ctx) <> 0 ->
                 stack_ptr (fst (pop ctx)) = stack_ptr ctx - 1).
  { intros Hr. rewrite pop_stack_ptr.
    destruct (Z.ltb_spec (stack_ptr ctx) 0) as [Hneg|_]; [|reflexivity].
    contradiction Hr. unfold pop.
    replace (stack_ptr ctx <? 0) with true by (symmetry; apply Z.ltb_lt; lia).
    reflexivity. }
  unfold parse_json_cb, depth_change.
  destruct ty; cbn [fst snd]; intros Hr; try lia.
  - pose proof (push_stack_ptr ctx ARRAY) as H.
    destruct (push ctx ARRAY) as [c r]. destruct (r =? 0); exact H.
  - destruct (pop ctx) as [c r]. cbn [fst snd] in *.
    destruct (Z.eqb_spec r 0) as [->|Hnz]; cbn [fst snd] in *;
      [contradiction|]. rewrite (Hpop Hnz). lia.
  - pose proof (push_stack_ptr ctx OBJECT) as H.
    destruct (push ctx OBJECT) as [c r]. destruct (r =? 0); exact H.
  - destruct (pop ctx) as [c r]. cbn [fst snd] in *.
    destruct (Z.eqb_spec r 0) as [->|Hnz]; cbn [fst snd] in *;
      [contradiction|]. rewrite (Hpop Hnz). lia.
  - destruct (wg_encode_int _ _) as [d val].
    destruct (decide _); [cbn; lia|]. specialize (Hlit d val).
    destruct (add_literal _ _) as [c r]. cbn [fst] in *.
    destruct (r =? 0); cbn [fst]; lia.
  - destruct (wg_encode_double _ _) as [d val].
    destruct (decide _); [cbn; lia|]. specialize (Hlit d val).
    destruct (add_literal _ _) as [c r]. cbn [fst] in *.
    destruct (r =? 0); cbn [fst]; lia.
  - destruct (wg_encode_str _ _) as [d val].
    destruct (decide _); [cbn; lia|]. specialize (Hlit d val).
    destruct (add_literal _ _) as [c r]. cbn [fst] in *.
    destruct (r =? 0); cbn [fst]; lia.
  - pose proof (add_key_stack_ptr ctx (str_value v)) as H.
    destruct (add_key _ _) as [c r]. cbn [fst] in *.
    destruct (r =? 0); cbn [fst]; lia.
Qed.

Lemma deliver_depth (evs : list (JSON_type * JSON_value)) :
  forall ctx : parser_context,
    snd (deliver parse_json_cb ctx evs) = true ->
    stack_ptr (fst (deliver parse_json_cb ctx evs))
    = stack_ptr ctx + depth_of evs.
Proof.
  induction evs as [|[ty v] evs IH]; intros ctx; cbn [deliver depth_of].
  - intros _. cbn. lia.
  - pose proof (cb_depth ctx ty v) as Hd.
    destruct (parse_json_cb ctx ty v) as [c r]. cbn [fst snd] in *.
    destruct (Z.eqb_spec r 0) as [->|Hnz]; [discriminate|].
    intros Hok. rewrite (IH c Hok), (Hd Hnz). lia.
Qed.

(** X18: the stack pointer counts the open containers.  After events
    that were all delivered, it has moved up by the begins and down by
    the ends among them; literals, keys and the events the callback
    ignores leave it where it is. *)
Theorem stack_pointer_counts_open_containers
  (evs : list (JSON_type * JSON_value)) (ctx : parser_context) :
  snd (deliver parse_json_cb ctx evs) = true ->
  stack_ptr (fst (deliver parse_json_cb ctx evs))
  = stack_ptr ctx + depth_of evs.
Proof. apply deliver_depth. Qed.

(** X19: a parse that succeeds on balanced events frees every list
    cell.  When all events are delivered from the context
    [run_json_parser] sets up and there are as many ends as begins,
    no frame is open at the end and [malloc] has all its cells
    back. *)
Theorem balanced_parse_frees_all_cells (env : c_env) (d : db)
  (param : bool) (doc : option rec_ptr)
  (evs : list (JSON_type * JSON_value)) :
  snd (deliver parse_json_cb (initial_context env d param doc) evs) = true ->
  depth_of evs = 0 ->
  let c := fst (deliver parse_json_cb (initial_context env d param doc) evs) in
  stack_ptr c = -1 /\ heap_nodes c = free_cells env.
Proof.
  intros Hok Hbal. cbv zeta.
  pose proof (deliver_depth evs _ Hok) as Hsp.
  rewrite Hbal in Hsp. cbn [stack_ptr initial_context] in Hsp.
  split; [lia|].
  assert (Hwf : well_formed (initial_context env d param doc)).
  { split; [apply initial_context_allocated|].
    pose proof MAX_DEPTH_min. cbn. lia. }
  pose proof (deliver_invariant
                (fun s => (snd s + cells_held (fst s) = free_cells env)%nat)
                ltac:(intros s s' Hs HP; cbv beta in *;
                      rewrite (cells_step s s' Hs); exact HP)
                evs (initial_context env d param doc) Hwf
                ltac:(cbn; rewrite open_frames_empty by (cbn; lia);
                      cbn; lia)) as Hcells.
  cbn [fst snd] in Hcells.
  rewrite open_frames_empty in Hcells by lia.
  cbn in Hcells. lia.
Qed.

End Nesting.

Lemma stack_pointer_counts_open_containers_witness :
  stack_ptr (fst (deliver (@parse_json_cb build_plain RefStore.store)
                    (ref_context 8 8 8 false) unfinished_events))
  = stack_ptr (ref_context 8 8 8 false) + depth_of unfinished_events.
Proof.
  apply (@stack_pointer_counts_open_containers build_plain RefStore.store
           unfinished_events (ref_context 8 8 8 false)).
  vm_compute. reflexivity.
Defined.

Lemma balanced_parse_frees_all_cells_witness :
  let c := fst (deliver (@parse_json_cb build_plain RefStore.store)
                  (@initial_context build_plain RefStore.store (plain_env 8)
                     (RefStore.empty 8 8) false None)
                  (events_json example_tree)) in
  stack_ptr c = -1 /\ heap_nodes c = free_cells (plain_env 8).
Proof.
  apply (@balanced_parse_frees_all_cells build_plain RefStore.store
           (plain_env 8) (RefStore.empty 8 8) false None
           (events_json example_tree)).
  - vm_compute. reflexivity.
  - reflexivity.
Defined.

Section NestedFailure.
Context `{B : Build} `{St : Store}.

(** X20: a field write that fails inside another container.  When
    the record of a nested frame is created but one [wg_set_field]
    fails, [pop] returns 0; the frame is removed and its cells are
    freed, the record stays in the database as far as it was filled,
    and it is not handed to the frame below, which is as it was; the
    document slot is not written. *)
Theorem failed_field_write_in_nested_pop (ctx : parser_context)
  (below : list stack_entry) (parent e : stack_entry) (d1 d2 : db)
  (r : rec_ptr) :
  well_formed ctx -> open_frames ctx = below ++ [parent; e] ->
  create_for e (ctx_db ctx) false (isparam ctx) = (d1, Some r) ->
  set_fields d1 r 0 (elems e) = (d2, 0) ->
  snd (pop ctx) = 0 /\
  obs (fst (pop ctx)) =
    (below ++ [parent], d2, (heap_nodes ctx + length (elems e))%nat,
     document ctx, isparam ctx).
Proof.
  intros Hwf Hof Hcreate Hset.
  assert (Hof' : open_frames ctx = (below ++ [parent]) ++ [e])
    by (rewrite Hof, <- app_assoc; reflexivity).
  pose proof (well_formed_top ctx _ e Hwf Hof') as Hsp.
  destruct (open_frames_top ctx _ e Hwf Hof') as [Hptr Htop].
  rewrite length_app in Hptr. cbn [length] in Hptr.
  assert (Htest : (stack_ptr ctx - 1 <? 0) = false) by (apply Z.ltb_ge; lia).
  pose proof (pop_created ctx d1 d2 r 0 ltac:(lia)
                ltac:(rewrite Htop, Htest; exact Hcreate)
                ltac:(rewrite Htop; exact Hset)) as Hpop.
  cbv zeta in Hpop. rewrite Htop, Htest in Hpop.
  cbn [negb andb Z.eqb] in Hpop. rewrite Hpop. cbn [fst snd].
  split; [reflexivity|].
  pose proof (open_frames_below ctx _ e
                {| type := type e; elems := [];
                   last_key := last_key e; size := 0 |} Hwf Hof') as Hb.
  unfold obs.
  match type of Hb with
  | open_frames ?c0 = _ =>
      match goal with
      | |- (open_frames ?c, _, _, _, _) = _ =>
          change (open_frames c) with (open_frames c0)
      end
  end.
  rewrite Hb. reflexivity.
Qed.

End NestedFailure.

Lemma failed_field_write_in_nested_pop_witness :
  snd (@pop build_plain RefStore.store no_write_context) = 0 /\
  obs (fst (@pop build_plain RefStore.store no_write_context)) =
    ([@fresh_entry RefStore.store ARRAY (replicate 80 NUL)],
     RefStore.add_record (RefStore.empty 8 0)
       (RefStore.container_record RefStore.KArray false false
          [RefStore.ENull]),
     8%nat, None, false).
Proof.
  apply (@failed_field_write_in_nested_pop build_plain RefStore.store
           no_write_context []
           (@fresh_entry RefStore.store ARRAY (replicate 80 NUL))
           (@with_elem RefStore.store
              (@fresh_entry RefStore.store ARRAY (replicate 80 NUL))
              (RefStore.EInt 1))
           (RefStore.add_record (RefStore.empty 8 0)
              (RefStore.container_record RefStore.KArray false false
                 [RefStore.ENull]))
           (RefStore.add_record (RefStore.empty 8 0)
              (RefStore.container_record RefStore.KArray false false
                 [RefStore.ENull])) 0%nat).
  - well_formed_by_computation.
  - vm_compute. reflexivity.
  - vm_compute. reflexivity.
  - vm_compute. reflexivity.
Defined.
